(** * Storybook generator: the text-to-storybook pipeline of [story_generator.py]

    A shallow embedding of [extract_story_elements], [add_text_to_image] and
    [process_text], together with the parts of the Python runtime they call
    ([str] methods, [json.loads], [re.sub] on a character class,
    [textwrap.fill], [os.path.join]), and the properties of the pipeline
    stated over that embedding.  Of [app.py] it takes the decisions of the
    routes [index] and [view_storybook].

    Conventions.
    - A Python [str] is a list of code points ([N]); [lit] turns an ASCII
      string literal into one.
    - A Python exception is a constructor of [exn]; a function that can raise
      returns a [result].
    - External collaborators (the image provider, the imaging library, the
      file system, the clock) are fields of an [Env] record; what the code
      does to them is recorded in a [World].
    - The library functions are modelled as CPython 3.11 on a POSIX system
      has them.  The interpreter's recursion limit and its limit on the
      number of digits of an [int] literal, which [json.loads] can hit, are
      given by a [Limits] record.  Left out is the value of a [float], which
      is kept as the text [float()] is given. *)

From Stdlib Require Import Ascii String DecimalString.
From Stdlib Require Import NArith ZArith Arith Bool List Lia.
From Stdlib Require Import DecimalZ FinFun.
From Equations Require Import Equations.
Import ListNotations.
Local Open Scope list_scope.

Set Implicit Arguments.

(* ===================================================================== *)
(** * Part I. Definitions *)
(* ===================================================================== *)

(** ** Python strings *)

Module Py.

Definition char := N.
Definition str := list char.

Definition chr (a : ascii) : char := N_of_ascii a.
Definition lit (s : string) : str := map N_of_ascii (list_ascii_of_string s).

(** The double quote, written by its code. *)
Definition dquote : char := 34%N.

Definition eqc (a b : char) : bool := N.eqb a b.

Fixpoint eqs (a b : str) : bool :=
  match a, b with
  | [], [] => true
  | x :: a', y :: b' => eqc x y && eqs a' b'
  | _, _ => false
  end.

(** [c in s] for a one-character [c]. *)
Definition mem (c : char) (s : str) : bool := existsb (eqc c) s.

(** [s.startswith(p)], also used as "p occurs in s at this position". *)
Fixpoint startswith (p s : str) : bool :=
  match p, s with
  | [], _ => true
  | _ :: _, [] => false
  | a :: p', b :: s' => eqc a b && startswith p' s'
  end.

(** [s.find(sub)]: lowest index at which [sub] occurs, [-1] if none. *)
Fixpoint find_from (sub s : str) (i : nat) : Z :=
  if startswith sub s then Z.of_nat i
  else match s with
       | [] => (-1)%Z
       | _ :: s' => find_from sub s' (S i)
       end.

Definition find (s sub : str) : Z := find_from sub s 0.

(** [s.rfind(sub)]: highest index at which [sub] occurs, [-1] if none. *)
Fixpoint rfind_from (sub s : str) (i : nat) (best : Z) : Z :=
  let best' := if startswith sub s then Z.of_nat i else best in
  match s with
  | [] => best'
  | _ :: s' => rfind_from sub s' (S i) best'
  end.

Definition rfind (s sub : str) : Z := rfind_from sub s 0 (-1)%Z.

(** Index adjustment of a slice bound: a negative bound counts from the
    end, and the result is clipped to [0 .. len]. *)
Definition clamp (len : nat) (k : Z) : nat :=
  if (k <? 0)%Z then Z.to_nat (Z.max 0 (k + Z.of_nat len))
  else Nat.min (Z.to_nat k) len.

(** [s[a:b]] on a [str] or a [list]. *)
Definition slice (A : Type) (s : list A) (a b : Z) : list A :=
  let lo := clamp (length s) a in
  let hi := clamp (length s) b in
  firstn (hi - lo) (skipn lo s).

(** [sep.join(parts)]. *)
Fixpoint join (sep : str) (parts : list str) : str :=
  match parts with
  | [] => []
  | [p] => p
  | p :: rest => p ++ sep ++ join sep rest
  end.

(** [s.split(sep)] for a non-empty [sep]: the separators are the leftmost
    non-overlapping occurrences.  [skip] counts the characters of a matched
    separator still to be passed over, [cur] is the piece being read, in
    reverse. *)
Fixpoint split_go (sep s : str) (skip : nat) (cur : str) : list str :=
  match s with
  | [] => [rev cur]
  | c :: s' =>
      match skip with
      | S k => split_go sep s' k cur
      | O =>
          if startswith sep s
          then rev cur :: split_go sep s' (length sep - 1) []
          else split_go sep s' 0 (c :: cur)
      end
  end.

Definition split (s sep : str) : list str := split_go sep s 0 [].

(** [s.replace(old, new)] for a non-empty [old]. *)
Fixpoint replace_go (old new s : str) (skip : nat) : str :=
  match s with
  | [] => []
  | c :: s' =>
      match skip with
      | S k => replace_go old new s' k
      | O =>
          if startswith old s
          then new ++ replace_go old new s' (length old - 1)
          else c :: replace_go old new s' 0
      end
  end.

Definition replace (s old new : str) : str := replace_go old new s 0.

(** [str(n)] for an [int]. *)
Definition str_of_int (z : Z) : str :=
  lit (NilZero.string_of_int (Z.to_int z)).

(** [re.sub('[...]+', repl, s)] where the pattern is one character class
    under [+]: every maximal run of characters of the class is replaced by
    one copy of [repl].  [in_run] tells that the previous character already
    belonged to the run being replaced. *)
Fixpoint re_sub_class_plus (cls : char -> bool) (repl s : str)
         (in_run : bool) : str :=
  match s with
  | [] => []
  | c :: s' =>
      if cls c
      then (if in_run then [] else repl) ++ re_sub_class_plus cls repl s' true
      else c :: re_sub_class_plus cls repl s' false
  end.

(** [posixpath.join(a, b)]. *)
Definition path_join (a b : str) : str :=
  if startswith (lit "/") b then b
  else match rev a with
       | [] => b
       | c :: _ => if eqc c (chr "/") then a ++ b else a ++ lit "/" ++ b
       end.

End Py.

Import Py.

Arguments lit _%_string.
Arguments chr _%_char.

(** ** Title sanitization ([process_text], the lambda on the title) *)

(** The class of [r'[?;:%#@*&\^$!<>,\\/]+']: in the class [\^] is the caret
    and [\\] the backslash. *)
Definition special_chars : str := lit "?;:%#@*&^$!<>,\/".

Definition is_special (c : char) : bool := mem c special_chars.

Definition replace_special_chars (s : str) : str :=
  re_sub_class_plus is_special (lit " ") s false.

(** The sanitization as the specification words it: every special character
    becomes one space. *)
Definition replace_each_special_char (s : str) : str :=
  map (fun c => if is_special c then chr " " else c) s.


(** ** Exceptions and results *)

(** The messages of [json.JSONDecodeError]. *)
Inductive json_message :=
| ExpectingValue
| ExpectingPropertyName
| ExpectingColon
| ExpectingComma
| UnterminatedString
| InvalidControlCharacter
| InvalidEscape
| InvalidUnicodeEscape
| ExtraData
| UnexpectedBOM.

(** The exceptions the pipeline can raise.  [JSONDecodeError msg pos] carries
    the message and the index in the decoded document; [External] stands for
    whatever a collaborator (image provider, imaging library, file system)
    raises, identified by a number.  [RecursionError] is what [json.loads]
    raises on a document that nests more containers than the interpreter has
    room for, [ValueError] what it raises on an [int] literal of too many
    digits. *)
Inductive exn :=
| JSONDecodeError (msg : json_message) (pos : nat)
| KeyError (key : str)
| KeyErrorInt (key : Z)
| IndexError
| TypeError
| ValueError
| AttributeError
| RecursionError
| External (code : nat).

Inductive result (A : Type) :=
| Ok (a : A)
| Err (e : exn).

Arguments Ok {A} a.
Arguments Err {A} e.

Definition bind (A B : Type) (r : result A) (k : A -> result B) : result B :=
  match r with
  | Ok a => k a
  | Err e => Err e
  end.

Declare Scope result_scope.
Delimit Scope result_scope with result.
Notation "'let*' x ':=' r 'in' k" := (bind r (fun x => k))
  (at level 10, x pattern, r at level 100, k at level 200) : result_scope.
Local Open Scope result_scope.

(** The limits of the interpreter that a document can run into.
    [recursion_room] is the number of nested calls that the interpreter
    still allows when the scanner of [json.loads] is entered: its recursion
    limit (1000 unless it was changed) less the calls under way.
    [int_max_str_digits] is [sys.get_int_max_str_digits()]: 4300 unless it
    was changed, 0 for no limit. *)
Record Limits := mkLimits {
  recursion_room : nat;
  int_max_str_digits : nat
}.

(** ** [json.loads] *)

Module Json.

(** A decoded document.  An object keeps its members in source order, as
    the pairs from which Python builds the [dict] (see [dict_get]); an
    [int] is its value; a [float] is kept as the text handed to [float()],
    which is also how [NaN], [Infinity] and [-Infinity] appear. *)
#[warnings="-register-all"]
Inductive value :=
| JObject (pairs : list (str * value))
| JArray (items : list value)
| JString (s : str)
| JInt (n : Z)
| JFloat (text : str)
| JBool (b : bool)
| JNull.

Definition is_ws (c : char) : bool := mem c (lit " ") || (c =? 9)%N || (c =? 10)%N || (c =? 13)%N.

Definition is_digit (c : char) : bool := (48 <=? c)%N && (c <=? 57)%N.

Fixpoint skip_ws (s : str) (idx : nat) : str * nat :=
  match s with
  | c :: s' => if is_ws c then skip_ws s' (S idx) else (s, idx)
  | [] => ([], idx)
  end.

(** *** Strings *)

Definition hex_digit (c : char) : option N :=
  if is_digit c then Some (c - 48)%N
  else if (97 <=? c)%N && (c <=? 102)%N then Some (c - 87)%N
  else if (65 <=? c)%N && (c <=? 70)%N then Some (c - 55)%N
  else None.

Definition hex4 (a b c d : char) : option N :=
  match hex_digit a, hex_digit b, hex_digit c, hex_digit d with
  | Some x, Some y, Some z, Some w => Some (((x * 16 + y) * 16 + z) * 16 + w)%N
  | _, _, _, _ => None
  end.

(** The table [BACKSLASH]. *)
Definition backslash (c : char) : option char :=
  if eqc c dquote then Some dquote
  else if eqc c (chr "\") then Some (chr "\")
  else if eqc c (chr "/") then Some (chr "/")
  else if eqc c (chr "b") then Some 8%N
  else if eqc c (chr "f") then Some 12%N
  else if eqc c (chr "n") then Some 10%N
  else if eqc c (chr "r") then Some 13%N
  else if eqc c (chr "t") then Some 9%N
  else None.

Definition high_surrogate (u : N) : bool := (55296 <=? u)%N && (u <=? 56319)%N.
Definition low_surrogate (u : N) : bool := (56320 <=? u)%N && (u <=? 57343)%N.
Definition join_surrogates (hi lo : N) : N :=
  (65536 + N.lor (N.shiftl (hi - 55296) 10) (lo - 56320))%N.

(** [scanstring(s, end)] in strict mode, as the C scanner of CPython does
    it: [s] is the text after the opening quote, [idx] its index in the
    document, [begin] the index of the opening quote, [acc] the characters
    decoded so far, in reverse.  A [\uXXXX] escape needs four hexadecimal
    digits and a character after them; a high surrogate is joined with a
    following [\uXXXX] low surrogate when that one, too, is followed by a
    character. *)
Fixpoint scanstring (s : str) (idx begin : nat) (acc : str) {struct s}
  : result (str * (str * nat)) :=
  match s with
  | [] => Err (JSONDecodeError UnterminatedString begin)
  | c :: s1 =>
      if eqc c dquote then Ok (rev acc, (s1, S idx))
      else if eqc c (chr "\") then
        match s1 with
        | [] => Err (JSONDecodeError UnterminatedString begin)
        | e :: s2 =>
            if eqc e (chr "u") then
              match s2 with
              | h1 :: h2 :: h3 :: h4 :: ((_ :: _) as s3) =>
                  match hex4 h1 h2 h3 h4 with
                  | None => Err (JSONDecodeError InvalidUnicodeEscape (S idx))
                  | Some uni =>
                      if high_surrogate uni then
                        match s3 with
                        | b :: u :: g1 :: g2 :: g3 :: g4 :: ((_ :: _) as s4) =>
                            if eqc b (chr "\") && eqc u (chr "u") then
                              match hex4 g1 g2 g3 g4 with
                              | None => Err (JSONDecodeError InvalidUnicodeEscape (idx + 7))
                              | Some uni2 =>
                                  if low_surrogate uni2
                                  then scanstring s4 (idx + 12) begin
                                         (join_surrogates uni uni2 :: acc)
                                  else scanstring s3 (idx + 6) begin (uni :: acc)
                              end
                            else scanstring s3 (idx + 6) begin (uni :: acc)
                        | _ => scanstring s3 (idx + 6) begin (uni :: acc)
                        end
                      else scanstring s3 (idx + 6) begin (uni :: acc)
                  end
              | _ => Err (JSONDecodeError InvalidUnicodeEscape (S idx))
              end
            else
              match backslash e with
              | Some ch => scanstring s2 (idx + 2) begin (ch :: acc)
              | None => Err (JSONDecodeError InvalidEscape idx)
              end
        end
      else if (c <? 32)%N then Err (JSONDecodeError InvalidControlCharacter idx)
      else scanstring s1 (S idx) begin (c :: acc)
  end.

(** *** Numbers

    [NUMBER_RE]: an integer part (an optional minus sign, then either a
    single 0 or a digit from 1 to 9 followed by digits), an optional
    fraction (a dot and at least one digit), an optional exponent (e or E,
    an optional sign, at least one digit). *)

Fixpoint span_digits (s : str) : str * str :=
  match s with
  | c :: s' =>
      if is_digit c then let (ds, r) := span_digits s' in (c :: ds, r)
      else ([], s)
  | [] => ([], [])
  end.

Definition digits_value (ds : str) : Z :=
  fold_left (fun acc c => (acc * 10 + Z.of_N (c - 48))%Z) ds 0%Z.

(** The integer part: the matched text and the rest. *)
Definition match_integer (s : str) : option (str * str) :=
  let (sign, s1) :=
    match s with
    | c :: s' => if eqc c (chr "-") then ([c], s') else ([], s)
    | [] => ([], s)
    end in
  match s1 with
  | d :: s2 =>
      if eqc d (chr "0") then Some (sign ++ [d], s2)
      else if is_digit d then
        let (ds, r) := span_digits s2 in Some (sign ++ d :: ds, r)
      else None
  | [] => None
  end.

Definition match_frac (s : str) : str * str :=
  match s with
  | c :: s' =>
      if eqc c (chr ".") then
        match span_digits s' with
        | ([], _) => ([], s)
        | (ds, r) => (c :: ds, r)
        end
      else ([], s)
  | [] => ([], s)
  end.

Definition match_exp (s : str) : str * str :=
  match s with
  | c :: s' =>
      if eqc c (chr "e") || eqc c (chr "E") then
        let (sign, s1) :=
          match s' with
          | g :: s'' =>
              if eqc g (chr "-") || eqc g (chr "+") then ([g], s'') else ([], s')
          | [] => ([], s')
          end in
        match span_digits s1 with
        | ([], _) => ([], s)
        | (ds, r) => (c :: sign ++ ds, r)
        end
      else ([], s)
  | [] => ([], s)
  end.

Definition int_of_text (t : str) : Z :=
  match t with
  | c :: ds => if eqc c (chr "-") then (- digits_value ds)%Z else digits_value t
  | [] => 0%Z
  end.

(** [int(text)] refuses a literal of more than [max_digits] digits, if it
    has more than 640 and [max_digits] is not 0. *)
Definition int_too_long (max_digits : nat) (integer : str) : bool :=
  let digits := length (filter is_digit integer) in
  (640 <? digits) && (0 <? max_digits) && (max_digits <? digits).

(** A number at the head of [s]: its value or the [ValueError] of [int],
    the rest and the length of the matched text. *)
Definition match_number (max_digits : nat) (s : str)
  : option (result value * (str * nat)) :=
  match match_integer s with
  | None => None
  | Some (integer, r1) =>
      let (frac, r2) := match_frac r1 in
      let (exp, r3) := match_exp r2 in
      let text := integer ++ frac ++ exp in
      match frac, exp with
      | [], [] =>
          Some (if int_too_long max_digits integer then Err ValueError
                else Ok (JInt (int_of_text integer)),
                (r3, length text))
      | _, _ => Some (Ok (JFloat text), (r3, length text))
      end
  end.

(** *** Values, objects and arrays *)

Definition literal (word : str) (v : value) (s : str) (idx : nat)
  : option (value * (str * nat)) :=
  if startswith word s
  then Some (v, (skipn (length word) s, idx + length word))
  else None.

(** [scan_once], [JSONObject] and [JSONArray].  An object or an array is
    entered only if the interpreter has [room] for one more nested call,
    else [RecursionError] is raised; its members are scanned with one call
    less of room.  [fuel] bounds the number of calls and loop rounds of the
    model, each of which is preceded by the reading of at least one
    character every second time; a [StopIteration(idx)] of the scanner is
    given directly as the error its callers turn it into. *)
Fixpoint scan_once (fuel : nat) (max_digits room : nat) (s : str) (idx : nat)
         {struct fuel}
  : result (value * (str * nat)) :=
  match fuel with
  | O => Err RecursionError
  | S fuel' =>
      match s with
      | [] => Err (JSONDecodeError ExpectingValue idx)
      | c :: s' =>
          if eqc c dquote then
            let* (str_rest) := scanstring s' (S idx) idx [] in
            Ok (JString (fst str_rest), snd str_rest)
          else if eqc c (chr "{") then
            match room with
            | O => Err RecursionError
            | S room' =>
                let (s1, i1) := skip_ws s' (S idx) in
                match s1 with
                | d :: s2 =>
                    if eqc d (chr "}") then Ok (JObject [], (s2, S i1))
                    else if eqc d dquote then
                      let* (pairs_rest) :=
                        object_members fuel' max_digits room' s2 (S i1) [] in
                      Ok (JObject (fst pairs_rest), snd pairs_rest)
                    else Err (JSONDecodeError ExpectingPropertyName i1)
                | [] => Err (JSONDecodeError ExpectingPropertyName i1)
                end
            end
          else if eqc c (chr "[") then
            match room with
            | O => Err RecursionError
            | S room' =>
                let (s1, i1) := skip_ws s' (S idx) in
                match s1 with
                | d :: s2 =>
                    if eqc d (chr "]") then Ok (JArray [], (s2, S i1))
                    else
                      let* (items_rest) :=
                        array_items fuel' max_digits room' s1 i1 [] in
                      Ok (JArray (fst items_rest), snd items_rest)
                | [] =>
                    let* (items_rest) :=
                      array_items fuel' max_digits room' s1 i1 [] in
                    Ok (JArray (fst items_rest), snd items_rest)
                end
            end
          else
            match literal (lit "null") JNull s idx with
            | Some r => Ok r
            | None =>
            match literal (lit "true") (JBool true) s idx with
            | Some r => Ok r
            | None =>
            match literal (lit "false") (JBool false) s idx with
            | Some r => Ok r
            | None =>
            match match_number max_digits s with
            | Some (Ok v, (r, n)) => Ok (v, (r, idx + n))
            | Some (Err e, _) => Err e
            | None =>
            match literal (lit "NaN") (JFloat (lit "NaN")) s idx with
            | Some r => Ok r
            | None =>
            match literal (lit "Infinity") (JFloat (lit "Infinity")) s idx with
            | Some r => Ok r
            | None =>
            match literal (lit "-Infinity") (JFloat (lit "-Infinity")) s idx with
            | Some r => Ok r
            | None => Err (JSONDecodeError ExpectingValue idx)
            end end end end end end end
      end
  end

(** The member loop of [JSONObject]: [s] starts after the opening quote of
    a key; [acc] holds the pairs read so far, in reverse. *)
with object_members (fuel : nat) (max_digits room : nat) (s : str) (idx : nat)
                    (acc : list (str * value)) {struct fuel}
  : result (list (str * value) * (str * nat)) :=
  match fuel with
  | O => Err RecursionError
  | S fuel' =>
      let* (key, (s1, i1)) := scanstring s idx (idx - 1) [] in
      let (s2, i2) := skip_ws s1 i1 in
      match s2 with
      | c :: s3 =>
          if eqc c (chr ":") then
            let (s4, i4) := skip_ws s3 (S i2) in
            let* (v, (s5, i5)) := scan_once fuel' max_digits room s4 i4 in
            let (s6, i6) := skip_ws s5 i5 in
            match s6 with
            | d :: s7 =>
                if eqc d (chr "}") then Ok (rev ((key, v) :: acc), (s7, S i6))
                else if eqc d (chr ",") then
                  let (s8, i8) := skip_ws s7 (S i6) in
                  match s8 with
                  | q :: s9 =>
                      if eqc q dquote
                      then object_members fuel' max_digits room s9 (S i8)
                                          ((key, v) :: acc)
                      else Err (JSONDecodeError ExpectingPropertyName i8)
                  | [] => Err (JSONDecodeError ExpectingPropertyName i8)
                  end
                else Err (JSONDecodeError ExpectingComma i6)
            | [] => Err (JSONDecodeError ExpectingComma i6)
            end
          else Err (JSONDecodeError ExpectingColon i2)
      | [] => Err (JSONDecodeError ExpectingColon i2)
      end
  end

(** The item loop of [JSONArray]: [s] starts at an item. *)
with array_items (fuel : nat) (max_digits room : nat) (s : str) (idx : nat)
                 (acc : list value) {struct fuel}
  : result (list value * (str * nat)) :=
  match fuel with
  | O => Err RecursionError
  | S fuel' =>
      let* (v, (s1, i1)) := scan_once fuel' max_digits room s idx in
      let (s2, i2) := skip_ws s1 i1 in
      match s2 with
      | d :: s3 =>
          if eqc d (chr "]") then Ok (rev (v :: acc), (s3, S i2))
          else if eqc d (chr ",") then
            let (s4, i4) := skip_ws s3 (S i2) in
            array_items fuel' max_digits room s4 i4 (v :: acc)
          else Err (JSONDecodeError ExpectingComma i2)
      | [] => Err (JSONDecodeError ExpectingComma i2)
      end
  end.

(** [JSONDecoder.decode].  The budget handed to [scan_once] is one that no
    document uses up: a larger one gives the same result (lemma
    [loads_within_budget] below). *)
Definition decode_with (fuel : nat) (lim : Limits) (s : str) : result value :=
  let (s0, i0) := skip_ws s 0 in
  let* (v, (s1, i1)) :=
    scan_once fuel (int_max_str_digits lim) (recursion_room lim) s0 i0 in
  let (s2, i2) := skip_ws s1 i1 in
  match s2 with
  | [] => Ok v
  | _ :: _ => Err (JSONDecodeError ExtraData i2)
  end.

Definition decode (lim : Limits) (s : str) : result value :=
  decode_with (2 * length s + 2) lim s.

(** [json.loads(s)] for a [str]. *)
Definition loads (lim : Limits) (s : str) : result value :=
  match s with
  | c :: _ =>
      if (c =? 65279)%N then Err (JSONDecodeError UnexpectedBOM 0)
      else decode lim s
  | [] => decode lim s
  end.

(** [d[key]] on the [dict] built from [pairs]: a later pair with the same
    key replaces an earlier one. *)
Fixpoint dict_get (key : str) (pairs : list (str * value)) : option value :=
  match pairs with
  | [] => None
  | (k, v) :: rest =>
      match dict_get key rest with
      | Some v' => Some v'
      | None => if eqs k key then Some v else None
      end
  end.

(** [v[key]] for a [str] key: only a [dict] can be subscripted by one. *)
Definition getitem_str (v : value) (key : str) : result value :=
  match v with
  | JObject pairs =>
      match dict_get key pairs with
      | Some x => Ok x
      | None => Err (KeyError key)
      end
  | _ => Err TypeError
  end.

End Json.

Import Json.

(** ** [textwrap.fill]

    The [TextWrapper] with its default options, as [fill(text, width=40)]
    uses it: tabs expanded, whitespace replaced, long words broken, blank
    chunks dropped at the ends of lines, breaks allowed after hyphens. *)

Module Textwrap.

(** The characters of [_whitespace]: tab, newline, vertical tab, form feed,
    carriage return, space. *)
Definition is_whitespace (c : char) : bool :=
  ((9 <=? c)%N && (c <=? 13)%N) || (c =? 32)%N.

(** [c.isspace()], which decides [chunk.strip() == '']. *)
Definition isspace (c : char) : bool :=
  ((9 <=? c)%N && (c <=? 13)%N) || ((28 <=? c)%N && (c <=? 32)%N)
  || (c =? 133)%N || (c =? 160)%N || (c =? 5760)%N
  || ((8192 <=? c)%N && (c <=? 8202)%N) || (c =? 8232)%N || (c =? 8233)%N
  || (c =? 8239)%N || (c =? 8287)%N || (c =? 12288)%N.

Definition blank (chunk : str) : bool := forallb isspace chunk.

(** [text.expandtabs(tabsize)]; [col] is the column reached on the current
    line. *)
Fixpoint expandtabs (tabsize : nat) (s : str) (col : nat) : str :=
  match s with
  | [] => []
  | c :: s' =>
      if (c =? 9)%N then
        match tabsize with
        | O => expandtabs tabsize s' col
        | S _ =>
            let incr := tabsize - col mod tabsize in
            repeat 32%N incr ++ expandtabs tabsize s' (col + incr)
        end
      else if (c =? 10)%N || (c =? 13)%N then c :: expandtabs tabsize s' 0
      else c :: expandtabs tabsize s' (S col)
  end.

(** [_munge_whitespace]. *)
Definition munge_whitespace (text : str) : str :=
  map (fun c => if is_whitespace c then 32%N else c) (expandtabs 8 text 0).

Section Split.

(** The regular expression [wordsep_re] asks whether a character is
    alphanumeric ([\w]) or a decimal digit ([\d]).  For the code points
    below 256 the answer is tabulated here; from 256 up it is that of the
    interpreter's Unicode database, which the development leaves open:
    [alnum_hi c] stands for [chr(c).isalnum()] and [decimal_hi c] for
    [chr(c).isdecimal()]. *)
Variable alnum_hi : char -> bool.
Variable decimal_hi : char -> bool.

Definition between (lo hi c : N) : bool := (lo <=? c)%N && (c <=? hi)%N.

Definition is_word (c : char) : bool :=
  if (c <? 256)%N then
    between 48 57 c || between 65 90 c || (c =? 95)%N || between 97 122 c
    || (c =? 170)%N || between 178 179 c || (c =? 181)%N
    || between 185 186 c || between 188 190 c || between 192 214 c
    || between 216 246 c || between 248 255 c
  else alnum_hi c.

Definition is_decimal (c : char) : bool :=
  if (c <? 256)%N then between 48 57 c else decimal_hi c.

(** [letter], a word character that is no decimal digit, and
    [word_punct], a word character or one of the exclamation mark, the
    two quotes, the ampersand, the full stop, the comma and the question
    mark. *)
Definition is_letter (c : char) : bool := is_word c && negb (is_decimal c).

Definition is_word_punct (c : char) : bool :=
  is_word c || eqc c dquote || mem c (lit "!'&.,?").

Definition hyphen : char := chr "-".

(** Does [s] start with two or more hyphens followed by a word
    character?  The answer carries their number. *)
Fixpoint dashes_then_word (s : str) (n : nat) : option nat :=
  match s with
  | c :: s' =>
      if eqc c hyphen then dashes_then_word s' (S n)
      else if is_word c && (2 <=? n) then Some n
      else None
  | [] => None
  end.

(** The lookbehind of the em-dash alternatives: the character before is
    a [word_punct].  [hist] is the text before the position, reversed. *)
Definition after_word_punct (hist : str) : bool :=
  match hist with
  | a :: _ => is_word_punct a
  | [] => false
  end.

(** The "hyphenated word" alternative at a hyphen heading [s]: before it
    two letters, or letter-hyphen-letter; after it a letter, an optional
    hyphen and a letter. *)
Definition hyphen_break (hist s : str) : bool :=
  match s with
  | h :: rest =>
      eqc h hyphen
      && match hist with
         | a :: b :: more =>
             is_letter a
             && (is_letter b
                 || (eqc b hyphen
                     && match more with
                        | d :: _ => is_letter d
                        | [] => false
                        end))
         | _ => false
         end
      && match rest with
         | l1 :: rest' =>
             is_letter l1
             && match rest' with
                | l2 :: rest'' =>
                    is_letter l2
                    || (eqc l2 hyphen
                        && match rest'' with
                           | l3 :: _ => is_letter l3
                           | [] => false
                           end)
                | [] => false
                end
         | [] => false
         end
  | [] => false
  end.

(** The third alternative of [wordsep_re], a word: the shortest non-empty
    run of non-whitespace that ends after a breaking hyphen, before
    whitespace or the end of the text, or before an em-dash.  [n]
    characters have been taken and are at the head of [hist]. *)
Fixpoint word_len (hist s : str) (n : nat) : nat :=
  match s with
  | [] => n
  | c :: s' =>
      if is_whitespace c then n
      else if hyphen_break hist s then S n
      else if after_word_punct hist
              && match dashes_then_word s 0 with Some _ => true | None => false end
      then n
      else word_len (c :: hist) s' (S n)
  end.

Fixpoint whitespace_len (s : str) : nat :=
  match s with
  | c :: s' => if is_whitespace c then S (whitespace_len s') else 0
  | [] => 0
  end.

(** The length of the match of [wordsep_re] at the head of [c :: s']:
    whitespace, an em-dash between words, or a word. *)
Definition chunk_len (hist : str) (c : char) (s' : str) : nat :=
  if is_whitespace c then whitespace_len (c :: s')
  else
    match (if after_word_punct hist then dashes_then_word (c :: s') 0 else None) with
    | Some n => n
    | None => word_len (c :: hist) s' 1
    end.

(** [_split]: the successive matches of [wordsep_re].  [left] characters
    of the chunk being read, [cur] (reversed), are still to come. *)
Fixpoint split_go (hist s : str) (left : nat) (cur : str) : list str :=
  match s with
  | [] => match cur with [] => [] | _ => [rev cur] end
  | c :: s' =>
      match left with
      | S k => split_go (c :: hist) s' k (c :: cur)
      | O =>
          let rest := split_go (c :: hist) s' (chunk_len hist c s' - 1) [c] in
          match cur with
          | [] => rest
          | _ => rev cur :: rest
          end
      end
  end.

Definition split_chunks (text : str) : list str :=
  split_go [] (munge_whitespace text) 0 [].

End Split.

Definition total_len (line : list str) : nat := length (concat line).

(** The inner loop of [_wrap_chunks]: the chunks that fit on the line and
    those left over. *)
Fixpoint take_fitting (width : nat) (chunks : list str) (cur_len : nat)
  : list str * list str :=
  match chunks with
  | c :: rest =>
      if cur_len + length c <=? width then
        let (line, left) := take_fitting width rest (cur_len + length c) in
        (c :: line, left)
      else ([], chunks)
  | [] => ([], [])
  end.

(** [_handle_long_word] with [break_long_words] and [break_on_hyphens] set:
    the line gets as much of the chunk as fits, cut after the last hyphen
    in that part if one follows a non-hyphen.  The result is the line and
    what remains of the chunk. *)
Definition handle_long_word (width : nat) (cur_line : list str) (chunk : str)
  : list str * str :=
  let cur_len := total_len cur_line in
  let space_left := if width <? 1 then 1 else width - cur_len in
  let cut :=
    if space_left <? length chunk then
      let h := rfind (slice chunk 0 (Z.of_nat space_left)) [chr "-"] in
      if (0 <? h)%Z && existsb (fun c => negb (eqc c (chr "-"))) (slice chunk 0 h)
      then (h + 1)%Z
      else Z.of_nat space_left
    else Z.of_nat space_left in
  (cur_line ++ [slice chunk 0 cut], slice chunk cut (Z.of_nat (length chunk))).

(** One round of the outer loop of [_wrap_chunks]: the chunks of the next
    line and the chunks left.  [started] tells whether a line has been
    produced already. *)
Definition wrap_line (width : nat) (started : bool) (chunks : list str)
  : list str * list str :=
  let chunks1 :=
    match chunks with
    | c :: rest => if blank c && started then rest else chunks
    | [] => []
    end in
  let (cur_line, chunks2) := take_fitting width chunks1 0 in
  let (cur_line2, chunks3) :=
    match chunks2 with
    | c :: rest =>
        if width <? length c then
          let (line, c') := handle_long_word width cur_line c in
          (line, c' :: rest)
        else (cur_line, chunks2)
    | [] => (cur_line, [])
    end in
  let cur_line3 :=
    match rev cur_line2 with
    | last :: before => if blank last then rev before else cur_line2
    | [] => []
    end in
  (cur_line3, chunks3).

Definition push_line (lines cur_line : list str) : list str :=
  match cur_line with
  | [] => lines
  | _ :: _ => lines ++ [concat cur_line]
  end.

Definition started (lines : list str) : bool :=
  match lines with [] => false | _ :: _ => true end.

Definition weight (chunks : list str) : nat :=
  fold_right (fun c n => S (length c + n)) 0 chunks.

(** The outer loop of [_wrap_chunks] for a positive width [S w]: it runs
    while chunks are left, and every round uses up a chunk or a part of
    one. *)
Equations? wrap_chunks_loop (w : nat) (chunks lines : list str) : list str
  by wf (weight chunks) lt :=
  wrap_chunks_loop w [] lines := lines;
  wrap_chunks_loop w (c :: cs) lines :=
    wrap_chunks_loop w
      (snd (wrap_line (S w) (started lines) (c :: cs)))
      (push_line lines (fst (wrap_line (S w) (started lines) (c :: cs)))).
Proof.
  assert (TF : forall width chunks n,
             (fst (take_fitting width chunks n) = []
              /\ snd (take_fitting width chunks n) = chunks
              /\ match chunks with
                 | d :: _ => width < n + length d
                 | [] => True
                 end)
             \/ weight (snd (take_fitting width chunks n)) < weight chunks).
  { intros width chunks; induction chunks as [|d rest IH]; intros n; simpl.
    - left; auto.
    - destruct (n + length d <=? width) eqn:E.
      + right. specialize (IH (n + length d)).
        destruct (take_fitting width rest (n + length d)) as [line left]; simpl in *.
        destruct IH as [(_ & -> & _)|IH]; lia.
      + left; simpl. apply Nat.leb_gt in E. auto. }
  assert (SL : forall (d : str) cut,
             length (slice d cut (Z.of_nat (length d)))
             = length d - clamp (length d) cut).
  { intros d cut. unfold slice.
    rewrite length_firstn, length_skipn.
    assert (H : clamp (length d) (Z.of_nat (length d)) = length d)
      by (unfold clamp; destruct (Z.of_nat (length d) <? 0)%Z eqn:E; lia).
    rewrite H. lia. }
  assert (HA : forall W line (d : str),
             length (snd (handle_long_word W line d)) <= length d).
  { intros. unfold handle_long_word; cbn [snd]. rewrite SL. lia. }
  assert (HB : forall W (d : str), 1 <= W -> W < length d ->
             length (snd (handle_long_word W [] d)) < length d).
  { intros W d HW Hd. unfold handle_long_word; cbn [snd]. rewrite SL.
    cbn [total_len concat length].
    replace (W <? 1) with false by (symmetry; apply Nat.ltb_ge; lia).
    rewrite Nat.sub_0_r.
    replace (W <? length d) with true by (symmetry; apply Nat.ltb_lt; lia).
    match goal with
    | |- context [clamp _ ?z] =>
        assert (Hz : (1 <= z)%Z);
        [| assert (Hc : 1 <= clamp (length d) z)
             by (unfold clamp; destruct (z <? 0)%Z eqn:Ez; lia); lia]
    end.
    destruct (0 <? rfind _ _)%Z eqn:Eh; cbn [andb]; [|lia].
    apply Z.ltb_lt in Eh. destruct (existsb _ _); lia. }
  change (S (length c + weight cs)) with (weight (c :: cs)).
  unfold wrap_line.
  set (chunks1 := match c :: cs with
                  | c0 :: rest => if blank c0 && started lines then rest else c :: cs
                  | [] => []
                  end).
  assert (H1 : weight chunks1 <= weight (c :: cs)
               /\ (chunks1 = [] -> 0 < weight (c :: cs))).
  { subst chunks1. cbn iota. destruct (blank c && started lines); simpl; split;
      try lia; discriminate. }
  destruct H1 as [H1 H1'].
  specialize (TF (S w) chunks1 0).
  destruct (take_fitting (S w) chunks1 0) as [cur_line chunks2].
  cbn [fst snd] in TF.
  destruct TF as [(-> & -> & Hw)|TF].
  - destruct chunks1 as [|d rest].
    + cbn [snd]. auto.
    + simpl in Hw.
      replace (S w <? length d) with true by (symmetry; apply Nat.ltb_lt; lia).
      specialize (HB (S w) d ltac:(lia) Hw).
      destruct (handle_long_word (S w) [] d) as [line c']; cbn [snd] in *.
      simpl in *. lia.
  - destruct chunks2 as [|d rest].
    + cbn [snd]. simpl in *. lia.
    + destruct (S w <? length d).
      * specialize (HA (S w) cur_line d).
        destruct (handle_long_word (S w) cur_line d) as [line c']; cbn [snd] in *.
        simpl in *. lia.
      * cbn [snd]. lia.
Qed.

(** [wrap]: [_wrap_chunks] rejects a width that is not positive. *)
Definition wrap (alnum_hi decimal_hi : char -> bool) (text : str) (width : nat)
  : result (list str) :=
  match width with
  | O => Err ValueError
  | S w => Ok (wrap_chunks_loop w (split_chunks alnum_hi decimal_hi text) [])
  end.

(** [fill]: the lines joined by newlines. *)
Definition fill (alnum_hi decimal_hi : char -> bool) (text : str) (width : nat)
  : result str :=
  let* lines := wrap alnum_hi decimal_hi text width in
  Ok (join [10%N] lines).

End Textwrap.

(** ** The world the pipeline runs in *)

(** Whatever [str()] gives on a JSON value that is not a [str] is left open
    ([other]); on a [str] it is the string itself. *)
Definition format_value (other : value -> str) (v : value) : str :=
  match v with
  | JString s => s
  | _ => other v
  end.

(** The collaborators of the pipeline and the parts of the interpreter the
    development leaves open.  An outcome [None] of an operation means that it
    succeeded, [Some e] that it raised [e]. *)
Record Env := mkEnv {
  (** the Unicode database from code point 256 up, see [Textwrap] *)
  alnum_hi : char -> bool;
  decimal_hi : char -> bool;
  (** [str(v)] for a JSON value that is not a [str] *)
  str_other : value -> str;
  (** [int(time.time())] *)
  time_time : Z;
  (** [os.makedirs(path, exist_ok=True)] and [shutil.move(src, dst)] *)
  makedirs_outcome : str -> option exn;
  move_outcome : str -> str -> option exn;
  (** [generate_image(model, prompt, negative_prompt, title, image_index)] *)
  generate_image_outcome : str -> str -> str -> str -> nat -> result str;
  (** [Image.open(path)]; measuring and drawing the wrapped text on the
      image opened from a path; [img.save(path)] *)
  image_open_outcome : str -> option exn;
  draw_outcome : str -> str -> option exn;
  image_save_outcome : str -> option exn;
  (** the limits of the interpreter when [process_text] is called *)
  limits : Limits
}.

(** The places that log an error before raising it again. *)
Inductive site := InExtract | InAddText | InProcess.

(** What the pipeline does to the outside, in order. *)
Inductive event :=
| Logged (where_ : site) (e : exn)
| MakeDirs (path : str)
| GenerateImage (model prompt negative_prompt title : str) (image_index : nat)
| OpenImage (path : str)
| DrawText (image_path wrapped_text : str)
| SaveImage (path : str)
| Move (src dst : str).

(** The directories and files the pipeline has created, and its trace, the
    latest event first. *)
Record World := mkWorld {
  dirs : list str;
  files : list str;
  trace : list event
}.

Definition io (A : Type) : Type := World -> result A * World.

Definition ret (A : Type) (a : A) : io A := fun w => (Ok a, w).

Definition raise (A : Type) (e : exn) : io A := fun w => (Err e, w).

Arguments raise {A} e.

Definition lift (A : Type) (r : result A) : io A := fun w => (r, w).

Definition io_bind (A B : Type) (m : io A) (k : A -> io B) : io B :=
  fun w =>
    match m w with
    | (Ok a, w') => k a w'
    | (Err e, w') => (Err e, w')
    end.

Declare Scope io_scope.
Delimit Scope io_scope with io.
Notation "x <- m ;; k" := (io_bind m (fun x => k))
  (at level 61, m at next level, right associativity) : io_scope.
Notation "m ;; k" := (io_bind m (fun _ => k))
  (at level 61, right associativity) : io_scope.

Definition emit (ev : event) : io unit :=
  fun w => (Ok tt, mkWorld (dirs w) (files w) (ev :: trace w)).

(** [try: m except Exception as e: logging.error(...); raise]. *)
Definition logging_errors (A : Type) (where_ : site) (m : io A) : io A :=
  fun w =>
    match m w with
    | (Err e, w') => (Err e, mkWorld (dirs w') (files w') (Logged where_ e :: trace w'))
    | ok => ok
    end.

Definition outcome (o : option exn) : io unit :=
  match o with
  | None => ret tt
  | Some e => raise e
  end.

Definition add_dir (path : str) : io unit :=
  fun w => (Ok tt, mkWorld (path :: dirs w) (files w) (trace w)).

Definition add_file (path : str) : io unit :=
  fun w => (Ok tt, mkWorld (dirs w) (path :: files w) (trace w)).

Definition remove_file (path : str) : io unit :=
  fun w => (Ok tt, mkWorld (dirs w)
                     (filter (fun f => negb (eqs f path)) (files w)) (trace w)).

(** A [for] loop that appends one result per element. *)
Fixpoint io_map (A B : Type) (f : A -> io B) (l : list A) : io (list B) :=
  match l with
  | [] => ret []
  | x :: rest =>
      (y <- f x ;; ys <- io_map f rest ;; ret (y :: ys))%io
  end.

Fixpoint map_result (A B : Type) (f : A -> result B) (l : list A)
  : result (list B) :=
  match l with
  | [] => Ok []
  | x :: rest =>
      let* y := f x in
      let* ys := map_result f rest in
      Ok (y :: ys)
  end.

(** [enumerate(l)]. *)
Definition enumerate (A : Type) (l : list A) : list (nat * A) :=
  combine (seq 0 (length l)) l.

(** [range(start, stop, step)] for a positive [step]. *)
Definition py_range (start stop step : nat) : list nat :=
  map (fun k => start + k * step) (seq 0 ((stop - start + step - 1) / step)).

(** *** The collaborators as operations on the world *)

Section Operations.

Variable env : Env.

Definition os_makedirs (path : str) : io unit :=
  (emit (MakeDirs path) ;;
   outcome (makedirs_outcome env path) ;;
   add_dir path)%io.

Definition shutil_move (src dst : str) : io unit :=
  (emit (Move src dst) ;;
   outcome (move_outcome env src dst) ;;
   remove_file src ;;
   add_file dst)%io.

(** Modelled from the spec: the body of [generate_image] is not in the
    source, which leaves a stub in its place.  By its docstring and by the
    ImageProvider of the specification it asks the provider for an image,
    saves it and returns the path of the saved file, or fails with the
    provider's error. *)
Definition generate_image (model prompt negative_prompt title : str)
           (image_index : nat) : io str :=
  (emit (GenerateImage model prompt negative_prompt title image_index) ;;
   path <- lift (generate_image_outcome env model prompt negative_prompt
                   title image_index) ;;
   add_file path ;;
   ret path)%io.

(** [add_text_to_image]: the image is opened, the text wrapped to 40
    columns, the wrapped block measured and drawn over a box at the bottom
    of the image, and the image saved under [output_path], which is
    returned.  The geometry of the drawing is the imaging library's. *)
Definition add_text_to_image (image_path text output_path : str) : io str :=
  logging_errors InAddText
    (emit (OpenImage image_path) ;;
     outcome (image_open_outcome env image_path) ;;
     wrapped_text <- lift (Textwrap.fill (alnum_hi env) (decimal_hi env) text 40) ;;
     emit (DrawText image_path wrapped_text) ;;
     outcome (draw_outcome env image_path wrapped_text) ;;
     emit (SaveImage output_path) ;;
     outcome (image_save_outcome env output_path) ;;
     add_file output_path ;;
     ret output_path)%io.

End Operations.

(** ** [extract_story_elements] *)

(** The body of the [try]. *)
Definition story_elements (lim : Limits) (full_text : str)
  : result (value * value * value * value) :=
  let json_start := find full_text (lit "{") in
  let json_end := (rfind full_text (lit "}") + 1)%Z in
  let json_string := slice full_text json_start json_end in
  let* story_data := loads lim json_string in
  let* title := getitem_str story_data (lit "title") in
  let* story := getitem_str story_data (lit "story") in
  let* moral := getitem_str story_data (lit "moral") in
  let* image_prompts := getitem_str story_data (lit "imagePrompts") in
  Ok (title, story, moral, image_prompts).

(** The [except (json.JSONDecodeError, KeyError)] clause logs and raises
    again; any other exception passes through. *)
Definition extract_story_elements (lim : Limits) (full_text : str)
  : io (value * value * value * value) :=
  fun w =>
    match story_elements lim full_text with
    | Err (JSONDecodeError msg pos) =>
        logging_errors InExtract (raise (JSONDecodeError msg pos)) w
    | Err (KeyError key) => logging_errors InExtract (raise (KeyError key)) w
    | r => (r, w)
    end.

(** ** [process_text] *)

(** [len(v)] and [v[i]] for an integer [i], on the values a decoded document
    can hold. *)
Fixpoint dict_len (pairs : list (str * value)) : nat :=
  match pairs with
  | [] => 0
  | (k, _) :: rest =>
      (if existsb (fun kv => eqs (fst kv) k) rest then 0 else 1) + dict_len rest
  end.

Definition py_len (v : value) : result nat :=
  match v with
  | JArray items => Ok (length items)
  | JString s => Ok (length s)
  | JObject pairs => Ok (dict_len pairs)
  | _ => Err TypeError
  end.

Definition list_getitem (A : Type) (l : list A) (i : Z) : result A :=
  let k := if (i <? 0)%Z then (i + Z.of_nat (length l))%Z else i in
  if (k <? 0)%Z then Err IndexError
  else match nth_error l (Z.to_nat k) with
       | Some x => Ok x
       | None => Err IndexError
       end.

Definition getitem_int (v : value) (i : Z) : result value :=
  match v with
  | JArray items => list_getitem items i
  | JString s => let* c := list_getitem s i in Ok (JString [c])
  | JObject _ => Err (KeyErrorInt i)
  | _ => Err TypeError
  end.

(** [re.sub] and [str.split], which need a [str]. *)
Definition as_pattern_target (v : value) : result str :=
  match v with
  | JString s => Ok s
  | _ => Err TypeError
  end.

Definition split_method (v : value) (sep : str) : result (list str) :=
  match v with
  | JString s => Ok (split s sep)
  | _ => Err AttributeError
  end.

Definition IMAGE_MODELS : list str :=
  [lit "prompthero/openjourney"; lit "stabilityai/stable-diffusion-xl-base-1.0"].

(** The f-string of the enriched prompt. *)
Definition new_prompt (other : value -> str) (combined : str) (prompt : value)
  : str :=
  lit "Given the following story for context enclosed between the $ symbol: $"
  ++ combined ++ lit "$," ++ [10%N] ++ repeat 32%N 24
  ++ lit "generate a children's story book style image with the following prompt: "
  ++ format_value other prompt.

(** One round of the loop that combines the sentences three by three: the
    text of the page and its enriched prompt. *)
Definition combine_round (other : value -> str) (sentences : list str)
           (image_prompts : value) (i : nat) : result (str * str) :=
  let combined :=
    join (lit ". ") (slice sentences (Z.of_nat i) (Z.of_nat (i + 3))) in
  let* n := py_len image_prompts in
  let* prompt :=
    if i / 3 <? n
    then getitem_int image_prompts (Z.of_nat (i / 3))
    else getitem_int image_prompts (-1)%Z in
  Ok (combined, new_prompt other combined prompt).

(** The loop: [combined_sentences] and [image_prompt_new]. *)
Definition combine_sentences (other : value -> str) (sentences : list str)
           (image_prompts : value) : result (list str * list str) :=
  let* pages :=
    map_result (combine_round other sentences image_prompts)
               (py_range 0 (length sentences) 3) in
  Ok (map fst pages, map snd pages).

Definition page_file (i : nat) : str :=
  lit "image_new_" ++ str_of_int (Z.of_nat i) ++ lit ".png".

Section ProcessText.

Variable env : Env.

Definition output_dir_of (title : str) : str :=
  let folder_name :=
    replace title (lit " ") (lit "_") ++ lit "_" ++ str_of_int (time_time env) in
  path_join (path_join (lit "static") (lit "storybooks")) folder_name.

(** The first loop over the pages: one image per enriched prompt. *)
Definition generate_images (title : str) (image_prompt_new : list str)
  : io (list str) :=
  io_map (fun ip =>
            generate_image env (nth 0 IMAGE_MODELS []) (snd ip) [] title (fst ip))
         (enumerate image_prompt_new).

(** The second loop: the text is put on each image and the result moved
    into the output directory. *)
Definition compose_pages (output_dir : str) (combined_sentences : list str)
           (image_generated_paths : list str) : io (list str) :=
  io_map (fun itp =>
            let i := fst itp in
            let text := fst (snd itp) in
            let image_path := snd (snd itp) in
            (story_with_image <- add_text_to_image env image_path text (page_file i) ;;
             let output_img_path := path_join output_dir (page_file i) in
             shutil_move env story_with_image output_img_path ;;
             ret output_img_path)%io)
         (enumerate (combine combined_sentences image_generated_paths)).

Definition process_text (text : str) : io (list str * str * str) :=
  logging_errors InProcess
    (elements <- extract_story_elements (limits env) text ;;
     let '(title_raw, story, moral, image_prompts) := elements in
     title_target <- lift (as_pattern_target title_raw) ;;
     let title := replace_special_chars title_target in
     sentences <- lift (split_method story (lit ". ")) ;;
     pages <- lift (combine_sentences (str_other env) sentences image_prompts) ;;
     let '(combined_sentences, image_prompt_new) := pages in
     let output_dir := output_dir_of title in
     os_makedirs env output_dir ;;
     image_generated_paths <- generate_images title image_prompt_new ;;
     combined_story_with_images <-
       compose_pages output_dir combined_sentences image_generated_paths ;;
     ret (combined_story_with_images, output_dir, title))%io.

End ProcessText.

(** ** The pipeline as the specification describes it *)

(** The fields of a payload taken on its own. *)
Definition payload_fields (lim : Limits) (payload : str)
  : result (value * value * value * value) :=
  let* story_data := loads lim payload in
  let* title := getitem_str story_data (lit "title") in
  let* story := getitem_str story_data (lit "story") in
  let* moral := getitem_str story_data (lit "moral") in
  let* image_prompts := getitem_str story_data (lit "imagePrompts") in
  Ok (title, story, moral, image_prompts).

(** What [process_text] works out before it touches the outside: the
    sanitized title, the texts of the pages and their enriched prompts. *)
Definition storybook_plan (lim : Limits) (other : value -> str) (text : str)
  : result (str * list str * list str) :=
  let* elements := story_elements lim text in
  let '(title_raw, story, moral, image_prompts) := elements in
  let* title_target := as_pattern_target title_raw in
  let* sentences := split_method story (lit ". ") in
  let* pages := combine_sentences other sentences image_prompts in
  Ok (replace_special_chars title_target, fst pages, snd pages).

Definition first_error (steps : list (option exn)) : option exn :=
  fold_right (fun o rest => match o with Some e => Some e | None => rest end)
             None steps.

(** The pipeline of one page: its image is generated, opened, drawn on,
    saved and moved.  [None] when every step succeeds, else the first
    error. *)
Definition page_outcome (env : Env) (title output_dir : str) (i : nat)
           (text prompt : str) : option exn :=
  match generate_image_outcome env (nth 0 IMAGE_MODELS []) prompt [] title i with
  | Err e => Some e
  | Ok image_path =>
      first_error
        [ image_open_outcome env image_path;
          match Textwrap.fill (alnum_hi env) (decimal_hi env) text 40 with
          | Ok wrapped_text => draw_outcome env image_path wrapped_text
          | Err e => Some e
          end;
          image_save_outcome env (page_file i);
          move_outcome env (page_file i) (path_join output_dir (page_file i)) ]
  end.



(** ** Sample inputs *)

Definition quoted (s : str) : str := dquote :: s ++ [dquote].

Definition member (key value_text : str) : str :=
  quoted key ++ lit ":" ++ value_text.

(** A payload with a two-page story and a single prompt: the text between
    its braces, and the whole of it. *)
Definition sample_body : str :=
  member (lit "title") (quoted (lit "Cat's Big Day! #1")) ++ lit ","
  ++ member (lit "story")
       (quoted (lit "A cat woke up. It stretched. It yawned. Then it ate breakfast. It played outside."))
  ++ lit ","
  ++ member (lit "moral") (quoted (lit "Rest well")) ++ lit ","
  ++ member (lit "imagePrompts") (lit "[" ++ quoted (lit "a sleepy cat") ++ lit "]").

Definition sample_payload : str := chr "{" :: sample_body ++ [chr "}"].

Definition sample_fields : value * value * value * value :=
  (JString (lit "Cat's Big Day! #1"),
   JString (lit "A cat woke up. It stretched. It yawned. Then it ate breakfast. It played outside."),
   JString (lit "Rest well"),
   JArray [JString (lit "a sleepy cat")]).

(** The limits of an interpreter left as it is, called near the bottom of
    its stack. *)
Definition sample_limits : Limits := mkLimits 990 4300.

(** An environment in which every collaborator succeeds, and one in which
    the image provider fails on the page of a given index. *)
Definition sample_env : Env :=
  mkEnv (fun _ => false) (fun _ => false) (fun _ => lit "?") 1700000000
        (fun _ => None) (fun _ _ => None)
        (fun _ _ _ _ i => Ok (lit "generated_" ++ str_of_int (Z.of_nat i) ++ lit ".png"))
        (fun _ => None) (fun _ _ => None) (fun _ => None) sample_limits.

Definition failing_env (page : nat) : Env :=
  mkEnv (fun _ => false) (fun _ => false) (fun _ => lit "?") 1700000000
        (fun _ => None) (fun _ _ => None)
        (fun _ _ _ _ i =>
           if i =? page then Err (External 1)
           else Ok (lit "generated_" ++ str_of_int (Z.of_nat i) ++ lit ".png"))
        (fun _ => None) (fun _ _ => None) (fun _ => None) sample_limits.

Definition empty_world : World := mkWorld [] [] [].

Definition sample_text : str :=
  lit "Sure! Here it is: " ++ sample_payload ++ lit " Enjoy.".

(** What the sample text is planned into. *)
Definition sample_title : str := lit "Cat's Big Day   1".

Definition sample_pages : list str :=
  [lit "A cat woke up. It stretched. It yawned";
   lit "Then it ate breakfast. It played outside."].

Definition sample_prompts : list str :=
  map (fun page => new_prompt (fun _ => lit "?") page (JString (lit "a sleepy cat")))
      sample_pages.

Definition sample_output_dir : str :=
  lit "static/storybooks/Cat's_Big_Day___1_1700000000".

(** ** What the properties speak of

    The pieces of the pipeline that the properties name: the text handed to
    the decoder, the events of a run, the steps of compositing. *)

(** The text [extract_story_elements] hands to the decoder. *)
Definition json_string_of (full_text : str) : str :=
  slice full_text (find full_text (lit "{")) (rfind full_text (lit "}") + 1)%Z.

(** The keys [extract_story_elements] reads, in the order it reads them. *)
Definition required_keys : list str :=
  [lit "title"; lit "story"; lit "moral"; lit "imagePrompts"].

(** What [json.loads] can raise on a [str]. *)
Definition is_decode_error (e : exn) : Prop :=
  match e with
  | JSONDecodeError _ _ => True
  | RecursionError => True
  | ValueError => True
  | _ => False
  end.

(** The exceptions that the [except] clause of [extract_story_elements]
    names: a decoding error, or a [KeyError] for one of the keys read. *)
Definition caught_by_extract (e : exn) : Prop :=
  (exists msg pos, e = JSONDecodeError msg pos)
  \/ (exists key, In key required_keys /\ e = KeyError key).

(** Is [e] of a class that [except (json.JSONDecodeError, KeyError)]
    names? *)
Definition extract_catches (e : exn) : bool :=
  match e with
  | JSONDecodeError _ _ | KeyError _ | KeyErrorInt _ => true
  | _ => false
  end.

(** A document of three nested arrays, and an [int] literal of 701
    digits. *)
Definition nested_thrice : str := lit "{" ++ member (lit "title") (lit "[[1]]") ++ lit "}".

Definition long_literal : str :=
  lit "{" ++ member (lit "title") (repeat (chr "7") 701) ++ lit "}".

(** The characters that [str(n)] is made of for an [int]. *)
Definition is_digit_or_minus (c : char) : Prop :=
  c = chr "-" \/ is_digit c = true.

(** The path that the provider gives for the prompt [snd ip] of page
    [fst ip]; where it gives none, the empty path stands in. *)
Definition generated_path (env : Env) (title : str) (ip : nat * str) : str :=
  match generate_image_outcome env (nth 0 IMAGE_MODELS []) (snd ip) [] title (fst ip) with
  | Ok path => path
  | Err _ => []
  end.

(** [image_generated_paths] as the loop over the prompts leaves it. *)
Definition generated_paths (env : Env) (title : str) (prompts : list str)
  : list str :=
  map (generated_path env title) (enumerate prompts).

(** The call of [generate_image] for a page. *)
Definition generation_event (title : str) (ip : nat * str) : event :=
  GenerateImage (nth 0 IMAGE_MODELS []) (snd ip) [] title (fst ip).

(** The caption as [textwrap.fill] wraps it to 40 columns. *)
Definition wrapped_caption (env : Env) (text : str) : str :=
  match Textwrap.fill (alnum_hi env) (decimal_hi env) text 40 with
  | Ok wrapped => wrapped
  | Err _ => []
  end.

(** What compositing and moving one page does, in order. *)
Definition page_events (env : Env) (output_dir : str)
           (itp : nat * (str * str)) : list event :=
  let i := fst itp in
  let text := fst (snd itp) in
  let image_path := snd (snd itp) in
  [OpenImage image_path;
   DrawText image_path (wrapped_caption env text);
   SaveImage (page_file i);
   Move (page_file i) (path_join output_dir (page_file i))].

(** The events of a successful run, in the order they happen. *)
Definition success_events (env : Env) (title : str)
           (combined prompts : list str) : list event :=
  MakeDirs (output_dir_of env title)
  :: map (generation_event title) (enumerate prompts)
  ++ flat_map (page_events env (output_dir_of env title))
       (enumerate (combine combined (generated_paths env title prompts))).

(** The events of compositing and of moving a page. *)
Definition is_compositing (ev : event) : Prop :=
  match ev with
  | OpenImage _ | DrawText _ _ | SaveImage _ | Move _ _ => True
  | _ => False
  end.

(** The calls of the image provider. *)
Definition is_generation (ev : event) : Prop :=
  match ev with
  | GenerateImage _ _ _ _ _ => True
  | _ => False
  end.

(** The decoded values that have neither a length nor items. *)
Definition is_scalar (v : value) : bool :=
  match v with
  | JInt _ | JFloat _ | JBool _ | JNull => true
  | _ => false
  end.

(** The only white space of [s] is the blank: no tab, no line break. *)
Definition only_blanks (s : str) : bool :=
  forallb (fun c => negb (Textwrap.is_whitespace c) || (c =? 32)%N) s.

(** [s] ends in a character that [strip] removes. *)
Definition ends_in_space (s : str) : bool :=
  match rev s with
  | c :: _ => Textwrap.isspace c
  | [] => false
  end.

(** The steps of [add_text_to_image] that can fail, in order. *)
Definition compositing_steps (env : Env) (image_path text output_path : str)
  : list (option exn) :=
  [image_open_outcome env image_path;
   draw_outcome env image_path (wrapped_caption env text);
   image_save_outcome env output_path].

(** The character that page [k] takes from a string of prompts. *)
Definition prompt_char (p : str) (k : nat) : value :=
  JString [if k <? length p then nth k p 0%N else last p 0%N].

(** ** The web application

    Of [app.py] the development takes the decisions that the routes make on
    their inputs; what Flask does with a response is left to Flask. *)

(** [s.split()]: the maximal runs of characters that are no white space;
    [cur] is the run being read, in reverse. *)
Fixpoint split_whitespace_go (s cur : str) : list str :=
  match s with
  | [] => match cur with [] => [] | _ :: _ => [rev cur] end
  | c :: s' =>
      if Textwrap.isspace c then
        match cur with
        | [] => split_whitespace_go s' []
        | _ :: _ => rev cur :: split_whitespace_go s' []
        end
      else split_whitespace_go s' (c :: cur)
  end.

Definition split_whitespace (s : str) : list str := split_whitespace_go s [].

(** What [index] does with a request: it lists the storybooks, or flashes
    a message and redirects to itself, or hands the prompt to
    [generate_story]. *)
Inductive index_action : Type :=
| ListStorybooks
| RejectPrompt (message category : str)
| GenerateStory (prompt : str).

(** [index], for a request of the given method whose form holds
    [prompt]. *)
Definition index (method prompt : str) : index_action :=
  if eqs method (lit "POST") then
    if match prompt with [] => true | _ :: _ => false end
       || (length (split_whitespace prompt) <=? 1)
    then RejectPrompt (lit "Please enter a story prompt.") (lit "error")
    else GenerateStory prompt
  else ListStorybooks.

(** [d.get(key, default)], which only a [dict] has. *)
Definition get_method (v : value) (key : str) (default : value) : result value :=
  match v with
  | JObject pairs =>
      Ok match dict_get key pairs with
         | Some x => x
         | None => default
         end
  | _ => Err AttributeError
  end.

(** The keys of the [dict] built from [pairs], in the order of their first
    insertion. *)
Fixpoint dict_keys (pairs : list (str * value)) : list str :=
  match pairs with
  | [] => []
  | (k, _) :: rest => k :: filter (fun k' => negb (eqs k' k)) (dict_keys rest)
  end.

(** [for item in v]: the items that the loop goes through. *)
Definition iterate (v : value) : result (list value) :=
  match v with
  | JArray items => Ok items
  | JString s => Ok (map (fun c => JString [c]) s)
  | JObject pairs => Ok (map JString (dict_keys pairs))
  | _ => Err TypeError
  end.

(** [v == s] for a [str]. *)
Definition equals_str (v : value) (s : str) : bool :=
  match v with
  | JString t => eqs t s
  | _ => false
  end.

(** The loop of [find_dict_by_path]; [None] when it runs to its end. *)
Fixpoint find_item (items : list value) (search_value : str)
  : result (option (value * value * value)) :=
  match items with
  | [] => Ok None
  | item :: rest =>
      let* path := get_method item (lit "path") JNull in
      if equals_str path search_value then
        let* all_images := getitem_str item (lit "all_images") in
        let* title := getitem_str item (lit "title") in
        let* path := getitem_str item (lit "path") in
        Ok (Some (all_images, title, path))
      else find_item rest search_value
  end.

(** [find_dict_by_path]; [lim] are the limits of the interpreter when the
    file is decoded and [file] is what reading [storybooks.json] gives, its
    text or the error of the file system.  The function reads that file
    whatever its first argument is, which is left out here. *)
Definition find_dict_by_path (lim : Limits) (file : result str)
           (search_value : str)
  : result (option (value * value * value)) :=
  let* content := file in
  let* data := loads lim content in
  let* storybooks := get_method data (lit "storybooks") (JArray []) in
  let* items := iterate storybooks in
  find_item items search_value.

(** What [view_storybook] answers: the story template with a title and
    images, or a flashed message and a redirect after the error was
    logged. *)
Inductive view_response : Type :=
| RenderStory (template : str) (title images : value)
| FlashAndRedirect (message category : str) (logged : exn).

(** [view_storybook]: unpacking [None] is a [TypeError], and every
    exception ends in the redirect. *)
Definition view_storybook (lim : Limits) (file : result str)
           (relative_path : str)
  : view_response :=
  let failure :=
    FlashAndRedirect
      (lit "An error occurred while viewing the storybook. Please try again.")
      (lit "error") in
  match find_dict_by_path lim file relative_path with
  | Ok (Some (images, title, _)) => RenderStory (lit "story.html") title images
  | Ok None => failure TypeError
  | Err e => failure e
  end.

(** A registry with two storybooks. *)
Definition sample_registry : str :=
  lit "{" ++ member (lit "storybooks")
    (lit "[{" ++ member (lit "title") (quoted (lit "One")) ++ lit ","
               ++ member (lit "path") (quoted (lit "storybooks/One_1")) ++ lit ","
               ++ member (lit "all_images") (lit "[]") ++ lit "},{"
               ++ member (lit "title") (quoted (lit "Two")) ++ lit ","
               ++ member (lit "path") (quoted (lit "storybooks/Two_2")) ++ lit ","
               ++ member (lit "all_images")
                    (lit "[" ++ quoted (lit "static/storybooks/Two_2/image_new_0.png")
                     ++ lit "]")
               ++ lit "}]")
  ++ lit "}".





(* ===================================================================== *)
(** * Part II. Properties *)
(* ===================================================================== *)

(** ** Facts about the string operations *)

Section PyFacts.

Lemma eqc_true (a b : char) : eqc a b = true <-> a = b.
Proof. unfold eqc. apply N.eqb_eq. Qed.

Lemma eqc_refl (a : char) : eqc a a = true.
Proof. apply eqc_true; reflexivity. Qed.

Lemma startswith_single (c : char) (s : str) :
  startswith [c] s = true <-> exists s', s = c :: s'.
Proof.
  destruct s as [|d s']; simpl.
  - split; [discriminate | intros [? H]; discriminate].
  - rewrite andb_true_r, eqc_true. split.
    + intros ->. eauto.
    + intros [? H]. injection H as -> _. reflexivity.
Qed.

Lemma startswith_single_head (c d : char) (s : str) :
  startswith [c] (d :: s) = eqc c d.
Proof. simpl. apply andb_true_r. Qed.

Lemma find_from_absent (c : char) (s : str) (i : nat) :
  ~ In c s -> find_from [c] s i = (-1)%Z.
Proof.
  revert i. induction s as [|d s IH]; intros i Hn.
  - reflexivity.
  - cbn [find_from]. rewrite startswith_single_head.
    destruct (eqc c d) eqn:E.
    + apply eqc_true in E. subst. exfalso. apply Hn. left; reflexivity.
    + apply IH. intros H. apply Hn. right; exact H.
Qed.

Lemma find_from_first (c : char) (prefix rest : str) (i : nat) :
  ~ In c prefix ->
  find_from [c] (prefix ++ c :: rest) i = Z.of_nat (i + length prefix).
Proof.
  revert i. induction prefix as [|d p IH]; intros i Hn.
  - cbn [app find_from]. rewrite startswith_single_head, eqc_refl.
    simpl. f_equal. lia.
  - cbn [app find_from]. rewrite startswith_single_head.
    destruct (eqc c d) eqn:E.
    + apply eqc_true in E. subst. exfalso. apply Hn. left; reflexivity.
    + rewrite IH by (intros H; apply Hn; right; exact H).
      simpl. f_equal. lia.
Qed.

Lemma rfind_from_absent (c : char) (s : str) (i : nat) (best : Z) :
  ~ In c s -> rfind_from [c] s i best = best.
Proof.
  revert i best. induction s as [|d s IH]; intros i best Hn.
  - reflexivity.
  - cbn [rfind_from]. rewrite startswith_single_head.
    destruct (eqc c d) eqn:E.
    + apply eqc_true in E. subst. exfalso. apply Hn. left; reflexivity.
    + apply IH. intros H. apply Hn. right; exact H.
Qed.

Lemma rfind_from_last (c : char) (before suffix : str) (i : nat) (best : Z) :
  ~ In c suffix ->
  rfind_from [c] (before ++ c :: suffix) i best = Z.of_nat (i + length before).
Proof.
  revert i best. induction before as [|d p IH]; intros i best Hn.
  - cbn [app rfind_from]. rewrite startswith_single_head, eqc_refl.
    rewrite rfind_from_absent by exact Hn. simpl. f_equal. lia.
  - cbn [app rfind_from]. rewrite IH by exact Hn.
    simpl. f_equal. lia.
Qed.

(** [rfind] gives the fallback or the index of an occurrence. *)
Lemma rfind_from_spec (c : char) (s : str) (i : nat) (best : Z) :
  rfind_from [c] s i best = best
  \/ exists k, rfind_from [c] s i best = Z.of_nat (i + k)
               /\ nth_error s k = Some c.
Proof.
  revert i best. induction s as [|d s IH]; intros i best.
  - left; reflexivity.
  - cbn [rfind_from]. rewrite startswith_single_head.
    destruct (eqc c d) eqn:E.
    + apply eqc_true in E. subst d.
      destruct (IH (S i) (Z.of_nat i)) as [H|(k & H & Hk)].
      * right. exists 0. rewrite H. split; [f_equal; lia | reflexivity].
      * right. exists (S k). rewrite H. split; [f_equal; lia | exact Hk].
    + destruct (IH (S i) best) as [H|(k & H & Hk)].
      * left; exact H.
      * right. exists (S k). rewrite H. split; [f_equal; lia | exact Hk].
Qed.

Lemma clamp_nat (len k : nat) : clamp len (Z.of_nat k) = Nat.min k len.
Proof.
  unfold clamp. destruct (Z.of_nat k <? 0)%Z eqn:E; [lia|].
  rewrite Nat2Z.id. reflexivity.
Qed.

Lemma slice_nat (A : Type) (s : list A) (a b : nat) :
  a <= length s ->
  slice s (Z.of_nat a) (Z.of_nat b) = firstn (b - a) (skipn a s).
Proof.
  intros Ha. unfold slice. rewrite !clamp_nat.
  rewrite (Nat.min_l a) by exact Ha.
  destruct (Nat.le_ge_cases b (length s)) as [Hb|Hb].
  - rewrite Nat.min_l by exact Hb. reflexivity.
  - rewrite Nat.min_r by exact Hb.
    rewrite !firstn_all2; try reflexivity; rewrite length_skipn; lia.
Qed.

Lemma slice_middle (A : Type) (prefix payload suffix : list A) :
  slice (prefix ++ payload ++ suffix)
        (Z.of_nat (length prefix))
        (Z.of_nat (length prefix + length payload))
  = payload.
Proof.
  rewrite slice_nat by (rewrite length_app; lia).
  rewrite skipn_app, skipn_all, Nat.sub_diag. cbn [skipn app].
  replace (length prefix + length payload - length prefix)
    with (length payload + 0) by lia.
  rewrite firstn_app_2. cbn [firstn]. apply app_nil_r.
Qed.

(** A slice whose upper bound is zero is empty. *)
Lemma slice_to_zero (A : Type) (s : list A) (a : Z) : slice s a 0 = [].
Proof.
  unfold slice.
  replace (clamp (length s) 0) with 0 by (unfold clamp; simpl; lia).
  reflexivity.
Qed.

Lemma split_go_nonempty (sep s : str) (skip : nat) (cur : str) :
  1 <= length (split_go sep s skip cur).
Proof.
  revert skip cur. induction s as [|c s IH]; intros skip cur.
  - simpl. lia.
  - cbn [split_go]. destruct skip.
    + destruct (startswith sep (c :: s)); [simpl; lia | apply IH].
    + apply IH.
Qed.

(** [split] always yields at least one piece. *)
Lemma split_nonempty (s sep : str) : 1 <= length (split s sep).
Proof. apply split_go_nonempty. Qed.

End PyFacts.

(** ** The decoder and its budget *)

Section DecoderBudget.

Ltac break_hyp H :=
  match type of H with
  | context [match ?x with _ => _ end] => destruct x eqn:?
  | context [if ?x then _ else _] => destruct x eqn:?
  end.

Lemma scanstring_shorter (n : nat) :
  forall (s : str) idx begin acc r s' i',
    length s <= n ->
    scanstring s idx begin acc = Ok (r, (s', i')) -> length s' < length s.
Proof.
  induction n as [|n IH]; intros s idx begin acc r s' i' Hn H.
  - destruct s; [discriminate | simpl in Hn; lia].
  - destruct s as [|c s1]; [discriminate|].
    cbn [scanstring] in H.
    repeat (break_hyp H; try discriminate; subst; cbn [length] in *);
      try (injection H as <- <- <-; cbn [length]; lia);
      try (apply IH in H; cbn [length] in *; lia).
Qed.

Lemma skip_ws_length (s : str) (idx : nat) : length (fst (skip_ws s idx)) <= length s.
Proof.
  revert idx. induction s as [|c s IH]; intros idx; [simpl; lia|].
  cbn [skip_ws]. destruct (is_ws c); [|simpl; lia].
  specialize (IH (S idx)). simpl. lia.
Qed.

Lemma span_digits_length (s : str) : length (snd (span_digits s)) <= length s.
Proof.
  induction s as [|c s IH]; [simpl; lia|].
  cbn [span_digits]. destruct (is_digit c); [|simpl; lia].
  destruct (span_digits s). simpl in *. lia.
Qed.

Lemma match_frac_length (s : str) : length (snd (match_frac s)) <= length s.
Proof.
  unfold match_frac. destruct s as [|c s]; [simpl; lia|].
  destruct (eqc c (chr ".")); [|simpl; lia].
  pose proof (span_digits_length s).
  destruct (span_digits s) as [[|d ds] r]; simpl in *; lia.
Qed.

Lemma match_exp_length (s : str) : length (snd (match_exp s)) <= length s.
Proof.
  unfold match_exp. destruct s as [|c s]; [simpl; lia|].
  destruct (eqc c (chr "e") || eqc c (chr "E")); [|simpl; lia].
  destruct s as [|g s'].
  - simpl. lia.
  - destruct (eqc g (chr "-") || eqc g (chr "+")).
    + pose proof (span_digits_length s').
      destruct (span_digits s') as [[|d ds] r]; simpl in *; lia.
    + pose proof (span_digits_length (g :: s')).
      destruct (span_digits (g :: s')) as [[|d ds] r]; simpl in *; lia.
Qed.

Lemma match_integer_shorter (s : str) t r :
  match_integer s = Some (t, r) -> length r < length s.
Proof.
  assert (K : forall sign s1 t r,
             match s1 with
             | d :: s2 =>
                 if eqc d (chr "0") then Some (sign ++ [d], s2)
                 else if is_digit d then
                   let (ds, r) := span_digits s2 in Some (sign ++ d :: ds, r)
                 else None
             | [] => None
             end = Some (t, r) -> length (r : str) < length s1).
  { intros sign s1 t0 r0 K. destruct s1 as [|d s2]; [discriminate|].
    destruct (eqc d (chr "0")); [injection K as _ <-; simpl; lia|].
    destruct (is_digit d); [|discriminate].
    pose proof (span_digits_length s2).
    destruct (span_digits s2). injection K as _ <-. simpl in *. lia. }
  unfold match_integer. destruct s as [|c s']; [discriminate|].
  destruct (eqc c (chr "-")); intros H;
    [apply (K [c] s' t r) in H | apply (K [] (c :: s') t r) in H];
    simpl in *; lia.
Qed.

Lemma match_number_shorter (max_digits : nat) (s : str) v r n :
  match_number max_digits s = Some (v, (r, n)) -> length r < length s.
Proof.
  unfold match_number. intros H.
  destruct (match_integer s) as [[integer r1]|] eqn:E; [|discriminate].
  apply match_integer_shorter in E.
  pose proof (match_frac_length r1). destruct (match_frac r1) as [frac r2].
  pose proof (match_exp_length r2). destruct (match_exp r2) as [ex r3].
  cbn [snd] in *.
  destruct frac, ex; injection H as _ <- _; lia.
Qed.

Lemma literal_shorter (word : str) (v : value) (s : str) (idx : nat) r :
  word <> [] -> literal word v s idx = Some r -> length (fst (snd r)) < length s.
Proof.
  unfold literal. intros Hw H. destruct (startswith word s) eqn:E; [|discriminate].
  injection H as <-. cbn [fst snd]. rewrite length_skipn.
  destruct word as [|a word]; [contradiction|].
  destruct s as [|b s]; [discriminate|]. simpl. lia.
Qed.

Lemma scanstring_budget (n : nat) :
  forall (s : str) idx begin acc,
    length s <= n -> scanstring s idx begin acc <> Err RecursionError.
Proof.
  induction n as [|n IH]; intros s idx begin acc Hn H.
  - destruct s; [discriminate | simpl in Hn; lia].
  - destruct s as [|c s1]; [discriminate|].
    cbn [scanstring] in H.
    repeat (break_hyp H; try discriminate; subst; cbn [length] in *);
      try (apply IH in H; [exact H | cbn [length] in *; lia]).
Qed.

Ltac see_skip_ws a b :=
  match goal with
  | |- context [skip_ws ?s ?i] =>
      let L := fresh "L" in
      pose proof (skip_ws_length s i) as L;
      destruct (skip_ws s i) as [a b]; cbn [fst] in L
  end.

Ltac see_scanstring r a b :=
  match goal with
  | |- context [scanstring ?s ?i ?bg ?ac] =>
      let E := fresh "E" in
      destruct (scanstring s i bg ac) as [[r [a b]]|?] eqn:E;
      [apply (@scanstring_shorter (length s)) in E; [|apply Nat.le_refl] |];
      cbn [bind fst snd]
  end.

Ltac leaf :=
  intros;
  first [discriminate
        | match goal with
          | H : Ok _ = Ok _ |- _ =>
              injection H as ? ? ?; subst; cbn [length] in *; lia
          end].

(** Whatever the decoder reads, it leaves a shorter text. *)
Lemma decoder_shorter (fuel : nat) :
  (forall md room s idx v s' i',
      scan_once fuel md room s idx = Ok (v, (s', i')) -> length s' < length s)
  /\ (forall md room s idx acc ps s' i',
        object_members fuel md room s idx acc = Ok (ps, (s', i')) ->
        length s' < length s)
  /\ (forall md room s idx acc vs s' i',
        array_items fuel md room s idx acc = Ok (vs, (s', i')) ->
        length s' < length s).
Proof.
  induction fuel as [|fuel (IHs & IHo & IHa)].
  - repeat split; intros; discriminate.
  - split; [|split].
    + intros md room s idx. destruct s as [|c s1]; [leaf|].
      cbn [scan_once length] in *.
      destruct (eqc c dquote); [see_scanstring r sr ir; leaf|].
      destruct (eqc c (chr "{")).
      { destruct room as [|room']; [leaf|].
        see_skip_ws l n. destruct l as [|d s2]; [leaf|].
        destruct (eqc d (chr "}")); [leaf|].
        destruct (eqc d dquote); [|leaf].
        pose proof (IHo md room' s2 (S n) []) as So.
        destruct (object_members fuel md room' s2 (S n) []) as [[ps [s' i']]|e];
          cbn [bind fst snd]; [|leaf].
        specialize (So _ _ _ eq_refl). leaf. }
      destruct (eqc c (chr "[")).
      { destruct room as [|room']; [leaf|].
        see_skip_ws l n.
        pose proof (IHa md room' l n []) as Sa.
        destruct l as [|d s2].
        - destruct (array_items fuel md room' [] n []) as [[vs [s' i']]|e];
            cbn [bind fst snd]; [specialize (Sa _ _ _ eq_refl)|]; leaf.
        - destruct (eqc d (chr "]")); [leaf|].
          destruct (array_items fuel md room' (d :: s2) n []) as [[vs [s' i']]|e];
            cbn [bind fst snd]; [specialize (Sa _ _ _ eq_refl)|]; leaf. }
      repeat match goal with
             | |- context [literal ?w ?v ?s ?i] =>
                 let E := fresh "E" in
                 destruct (literal w v s i) as [[? [? ?]]|] eqn:E;
                 [apply literal_shorter in E; [cbn [fst snd] in E; leaf | discriminate]|]
             | |- context [match_number ?m ?s] =>
                 let E := fresh "E" in
                 destruct (match_number m s) as [[[?|?] [? ?]]|] eqn:E;
                 [apply match_number_shorter in E; leaf
                 |apply match_number_shorter in E; leaf|]
             end.
      leaf.
    + intros md room s idx acc. cbn [object_members].
      see_scanstring s0 sr ir; [|leaf].
      see_skip_ws l0 n0. destruct l0 as [|c s3]; [leaf|].
      destruct (eqc c (chr ":")); [|leaf].
      see_skip_ws l1 n1.
      pose proof (IHs md room l1 n1) as Ss.
      destruct (scan_once fuel md room l1 n1) as [[v [s5 i5]]|e];
        cbn [bind fst snd]; [|leaf].
      specialize (Ss _ _ _ eq_refl).
      see_skip_ws l2 n2. destruct l2 as [|d s7]; [leaf|].
      destruct (eqc d (chr "}")); [leaf|].
      destruct (eqc d (chr ",")); [|leaf].
      see_skip_ws l3 n3. destruct l3 as [|q s9]; [leaf|].
      destruct (eqc q dquote); [|leaf].
      intros ps s' i' H. apply IHo in H. cbn [length] in *. lia.
    + intros md room s idx acc. cbn [array_items].
      pose proof (IHs md room s idx) as Ss.
      destruct (scan_once fuel md room s idx) as [[v [s1 i1]]|e];
        cbn [bind fst snd]; [|leaf].
      specialize (Ss _ _ _ eq_refl).
      see_skip_ws l n. destruct l as [|d s3]; [leaf|].
      destruct (eqc d (chr "]")); [leaf|].
      destruct (eqc d (chr ",")); [|leaf].
      see_skip_ws l0 n0.
      intros vs s' i' H. apply IHa in H. cbn [length] in *. lia.
Qed.

(** With a budget of twice the length of the text and two the decoder does
    not run out of it: one more call in the budget changes nothing. *)
Lemma decoder_budget (fuel : nat) :
  (forall md room s idx,
      2 * length s + 1 <= fuel ->
      scan_once (S fuel) md room s idx = scan_once fuel md room s idx)
  /\ (forall md room s idx acc,
        2 * length s + 2 <= fuel ->
        object_members (S fuel) md room s idx acc
        = object_members fuel md room s idx acc)
  /\ (forall md room s idx acc,
        2 * length s + 2 <= fuel ->
        array_items (S fuel) md room s idx acc
        = array_items fuel md room s idx acc).
Proof.
  induction fuel as [|fuel (IHs & IHo & IHa)].
  - repeat split; intros; lia.
  - destruct (decoder_shorter fuel) as (Ss & So & Sa).
    split; [|split].
    + intros md room s idx Hf.
      set (lhs := scan_once (S (S fuel)) md room s idx).
      cbn [scan_once]. subst lhs.
      remember (S fuel) as g eqn:Eg. cbn [scan_once].
      destruct s as [|c s1]; [reflexivity|]. cbn [length] in Hf.
      destruct (eqc c dquote); [reflexivity|].
      destruct (eqc c (chr "{")).
      { destruct room as [|room']; [reflexivity|].
        see_skip_ws l n. destruct l as [|d s2]; [reflexivity|].
        destruct (eqc d (chr "}")); [reflexivity|].
        destruct (eqc d dquote); [|reflexivity].
        subst g. rewrite IHo by (cbn [length] in *; lia). reflexivity. }
      destruct (eqc c (chr "[")).
      { destruct room as [|room']; [reflexivity|].
        see_skip_ws l n. subst g.
        rewrite IHa by (cbn [length] in *; lia).
        destruct l as [|d s2]; reflexivity. }
      reflexivity.
    + intros md room s idx acc Hf.
      set (lhs := object_members (S (S fuel)) md room s idx acc).
      cbn [object_members]. subst lhs.
      remember (S fuel) as g eqn:Eg. cbn [object_members].
      see_scanstring s0 sr ir; [|reflexivity].
      see_skip_ws l0 n0. destruct l0 as [|c s3]; [reflexivity|].
      destruct (eqc c (chr ":")); [|reflexivity].
      see_skip_ws l1 n1. subst g.
      rewrite IHs by (cbn [length] in *; lia).
      pose proof (Ss md room l1 n1) as S1.
      destruct (scan_once fuel md room l1 n1) as [[v [s5 i5]]|e];
        cbn [bind fst snd]; [|reflexivity].
      specialize (S1 _ _ _ eq_refl).
      see_skip_ws l2 n2. destruct l2 as [|d s7]; [reflexivity|].
      destruct (eqc d (chr "}")); [reflexivity|].
      destruct (eqc d (chr ",")); [|reflexivity].
      see_skip_ws l3 n3. destruct l3 as [|q s9]; [reflexivity|].
      destruct (eqc q dquote); [|reflexivity].
      apply IHo. cbn [length] in *. lia.
    + intros md room s idx acc Hf.
      set (lhs := array_items (S (S fuel)) md room s idx acc).
      cbn [array_items]. subst lhs.
      remember (S fuel) as g eqn:Eg. cbn [array_items]. subst g.
      rewrite IHs by lia.
      pose proof (Ss md room s idx) as S1.
      destruct (scan_once fuel md room s idx) as [[v [s1 i1]]|e];
        cbn [bind fst snd]; [|reflexivity].
      specialize (S1 _ _ _ eq_refl).
      see_skip_ws l n. destruct l as [|d s3]; [reflexivity|].
      destruct (eqc d (chr "]")); [reflexivity|].
      destruct (eqc d (chr ",")); [|reflexivity].
      see_skip_ws l0 n0.
      apply IHa. cbn [length] in *. lia.
Qed.

(** [json.loads] never runs out of its budget: with any larger budget the
    decoder gives the same result.  A [RecursionError] is therefore always
    the interpreter's. *)
Lemma loads_within_budget (lim : Limits) (s : str) (fuel : nat) :
  2 * length s + 2 <= fuel -> decode_with fuel lim s = decode lim s.
Proof.
  unfold decode. intros H.
  replace fuel with ((fuel - (2 * length s + 2)) + (2 * length s + 2)) by lia.
  generalize (fuel - (2 * length s + 2)) as k. clear H fuel.
  induction k as [|k IH]; [reflexivity|].
  rewrite <- IH. unfold decode_with.
  pose proof (skip_ws_length s 0) as L.
  destruct (skip_ws s 0) as [l n]. cbn [fst] in L.
  destruct (decoder_budget (k + (2 * length s + 2))) as (Hs & _ & _).
  change (S k + (2 * length s + 2)) with (S (k + (2 * length s + 2))).
  rewrite Hs by lia. reflexivity.
Qed.

(** With room for as many nested calls as the text has characters the
    decoder never raises [RecursionError]. *)
Lemma decoder_room (fuel : nat) :
  (forall md room s idx,
      2 * length s + 1 <= fuel -> length s <= room ->
      scan_once fuel md room s idx <> Err RecursionError)
  /\ (forall md room s idx acc,
        2 * length s + 2 <= fuel -> length s <= room ->
        object_members fuel md room s idx acc <> Err RecursionError)
  /\ (forall md room s idx acc,
        2 * length s + 2 <= fuel -> length s <= room ->
        array_items fuel md room s idx acc <> Err RecursionError).
Proof.
  induction fuel as [|fuel (IHs & IHo & IHa)].
  - repeat split; intros; lia.
  - destruct (decoder_shorter fuel) as (Ss & So & Sa).
    split; [|split].
    + intros md room s idx Hf Hr. destruct s as [|c s1]; [discriminate|].
      cbn [scan_once length] in *.
      destruct (eqc c dquote).
      { match goal with
        | |- context [scanstring ?s ?i ?bg ?ac] =>
            pose proof (@scanstring_budget (length s) s i bg ac (Nat.le_refl _)) as N;
            destruct (scanstring s i bg ac) as [[r [a b]]|?]; cbn [bind];
            [discriminate | congruence]
        end. }
      destruct (eqc c (chr "{")).
      { destruct room as [|room']; [lia|].
        see_skip_ws l n. destruct l as [|d s2]; [discriminate|].
        destruct (eqc d (chr "}")); [discriminate|].
        destruct (eqc d dquote); [|discriminate].
        pose proof (IHo md room' s2 (S n) []) as No.
        destruct (object_members fuel md room' s2 (S n) []) as [[ps [s' i']]|e];
          cbn [bind fst snd]; [discriminate|].
        intros K. injection K as ->. apply No; [cbn [length] in *; lia .. | reflexivity]. }
      destruct (eqc c (chr "[")).
      { destruct room as [|room']; [lia|].
        see_skip_ws l n.
        pose proof (IHa md room' l n []) as Na.
        assert (Ha : array_items fuel md room' l n [] <> Err RecursionError)
          by (apply Na; cbn [length] in *; lia).
        destruct l as [|d s2].
        - destruct (array_items fuel md room' [] n []) as [[vs [s' i']]|e];
            cbn [bind fst snd];
            [discriminate | intros K; injection K as ->; apply Ha; reflexivity].
        - destruct (eqc d (chr "]")); [discriminate|].
          destruct (array_items fuel md room' (d :: s2) n []) as [[vs [s' i']]|e];
            cbn [bind fst snd];
            [discriminate | intros K; injection K as ->; apply Ha; reflexivity]. }
      destruct (literal (lit "null") _ _ _) as [[? [? ?]]|]; [discriminate|].
      destruct (literal (lit "true") _ _ _) as [[? [? ?]]|]; [discriminate|].
      destruct (literal (lit "false") _ _ _) as [[? [? ?]]|]; [discriminate|].
      assert (Hn : forall r,
                 match_number md (c :: s1) = Some r -> fst r <> Err RecursionError).
      { unfold match_number. intros r.
        destruct (match_integer (c :: s1)) as [[integer r1]|]; [|discriminate].
        destruct (match_frac r1) as [frac r2]. destruct (match_exp r2) as [ex r3].
        destruct frac, ex; intros K; injection K as <-; cbn [fst];
          try discriminate.
        destruct (int_too_long md integer); discriminate. }
      destruct (match_number md (c :: s1)) as [[[v|e] [r n]]|].
      { discriminate. }
      { specialize (Hn _ eq_refl). cbn [fst] in Hn.
        intros K. injection K as ->. apply Hn. reflexivity. }
      repeat match goal with
             | |- context [literal ?w ?v ?s ?i] =>
                 destruct (literal w v s i) as [[? [? ?]]|]; [discriminate|]
             end.
      discriminate.
    + intros md room s idx acc Hf Hr. cbn [object_members].
      match goal with
      | |- context [scanstring ?s ?i ?bg ?ac] =>
          pose proof (@scanstring_budget (length s) s i bg ac (Nat.le_refl _)) as N
      end.
      see_scanstring s0 sr ir; [|congruence].
      see_skip_ws l0 n0. destruct l0 as [|c s3]; [discriminate|].
      destruct (eqc c (chr ":")); [|discriminate].
      see_skip_ws l1 n1.
      pose proof (IHs md room l1 n1) as Ns.
      pose proof (Ss md room l1 n1) as S1.
      destruct (scan_once fuel md room l1 n1) as [[v [s5 i5]]|e];
        cbn [bind fst snd];
        [|intros K; injection K as ->; apply Ns;
          [cbn [length] in *; lia .. | reflexivity]].
      specialize (S1 _ _ _ eq_refl).
      see_skip_ws l2 n2. destruct l2 as [|d s7]; [discriminate|].
      destruct (eqc d (chr "}")); [discriminate|].
      destruct (eqc d (chr ",")); [|discriminate].
      see_skip_ws l3 n3. destruct l3 as [|q s9]; [discriminate|].
      destruct (eqc q dquote); [|discriminate].
      apply IHo; cbn [length] in *; lia.
    + intros md room s idx acc Hf Hr. cbn [array_items].
      pose proof (IHs md room s idx) as Ns.
      pose proof (Ss md room s idx) as S1.
      destruct (scan_once fuel md room s idx) as [[v [s1 i1]]|e];
        cbn [bind fst snd];
        [|intros K; injection K as ->; apply Ns; [lia .. | reflexivity]].
      specialize (S1 _ _ _ eq_refl).
      see_skip_ws l n. destruct l as [|d s3]; [discriminate|].
      destruct (eqc d (chr "]")); [discriminate|].
      destruct (eqc d (chr ",")); [|discriminate].
      see_skip_ws l0 n0.
      apply IHa; cbn [length] in *; lia.
Qed.

Lemma loads_with_room (lim : Limits) (s : str) :
  length s <= recursion_room lim -> loads lim s <> Err RecursionError.
Proof.
  intros Hr.
  assert (D : decode lim s <> Err RecursionError).
  { unfold decode, decode_with.
    pose proof (skip_ws_length s 0) as L.
    destruct (skip_ws s 0) as [l n]. cbn [fst] in L.
    destruct (decoder_room (2 * length s + 2)) as (Hs & _ & _).
    pose proof (Hs (int_max_str_digits lim) (recursion_room lim) l n) as Ns.
    destruct (scan_once (2 * length s + 2) (int_max_str_digits lim)
                (recursion_room lim) l n) as [[v [s1 i1]]|e];
      cbn [bind fst snd].
    - destruct (skip_ws s1 i1) as [[|x s2] i2]; discriminate.
    - intros K. injection K as ->. apply Ns; [lia | lia | reflexivity]. }
  unfold loads. destruct s as [|c s']; [exact D|].
  destruct (c =? 65279)%N; [discriminate | exact D].
Qed.

End DecoderBudget.

(** ** Extraction of the story elements *)

Lemma firstn_one_skipn (A : Type) (s : list A) (k : nat) (x : A) :
  nth_error s k = Some x -> firstn 1 (skipn k s) = [x].
Proof.
  revert k. induction s as [|y s IH]; intros [|k] H; simpl in *;
    try discriminate.
  - injection H as ->. reflexivity.
  - apply IH. exact H.
Qed.

(** Between a prefix without opening brace and a suffix without closing
    brace, the text cut out is the payload. *)
Lemma story_elements_embedded (lim : Limits) (prefix body suffix : str) :
  ~ In (chr "{") prefix ->
  ~ In (chr "}") suffix ->
  story_elements lim (prefix ++ (chr "{" :: body ++ [chr "}"]) ++ suffix)
  = payload_fields lim (chr "{" :: body ++ [chr "}"]).
Proof.
  intros Hp Hs. unfold story_elements, payload_fields, find, rfind.
  change (lit "{") with [chr "{"]. change (lit "}") with [chr "}"].
  assert (E1 : find_from [chr "{"]
                 (prefix ++ (chr "{" :: body ++ [chr "}"]) ++ suffix) 0
               = Z.of_nat (length prefix)).
  { cbn [app]. rewrite find_from_first by exact Hp. reflexivity. }
  assert (E2 : rfind_from [chr "}"]
                 (prefix ++ (chr "{" :: body ++ [chr "}"]) ++ suffix) 0 (-1)%Z
               = Z.of_nat (length prefix + length body + 1)).
  { replace (prefix ++ (chr "{" :: body ++ [chr "}"]) ++ suffix)
      with ((prefix ++ chr "{" :: body) ++ chr "}" :: suffix)
      by (cbn [app]; rewrite <- !app_assoc; reflexivity).
    rewrite rfind_from_last by exact Hs.
    rewrite length_app. cbn [length]. f_equal. lia. }
  rewrite E1, E2.
  replace (Z.of_nat (length prefix + length body + 1) + 1)%Z
    with (Z.of_nat (length prefix + length (chr "{" :: body ++ [chr "}"])))
    by (cbn [length]; rewrite length_app; cbn [length]; lia).
  rewrite slice_middle. reflexivity.
Qed.

(** C1 (as amended): for every well-formed payload, a JSON object text from
    its opening to its closing brace, embedded in a text whose prefix holds
    no opening brace and whose suffix holds no closing brace,
    [extract_story_elements] returns exactly the payload's fields title,
    story, moral and imagePrompts, and logs nothing. *)
Theorem C1_extract_between_braces :
  forall (lim : Limits) (prefix body suffix : str) fields (w : World),
    ~ In (chr "{") prefix ->
    ~ In (chr "}") suffix ->
    payload_fields lim (chr "{" :: body ++ [chr "}"]) = Ok fields ->
    extract_story_elements lim
      (prefix ++ (chr "{" :: body ++ [chr "}"]) ++ suffix) w
    = (Ok fields, w).
Proof.
  intros lim prefix body suffix fields w Hp Hs Hf.
  unfold extract_story_elements.
  rewrite story_elements_embedded by assumption.
  rewrite Hf. reflexivity.
Qed.

Lemma C1_extract_between_braces_witness :
  extract_story_elements sample_limits
    (lit "Sure! Here it is: " ++ (chr "{" :: sample_body ++ [chr "}"])
     ++ lit " Enjoy.") empty_world
  = (Ok sample_fields, empty_world).
Proof.
  apply (@C1_extract_between_braces sample_limits
           (lit "Sure! Here it is: ") sample_body
           (lit " Enjoy.") sample_fields empty_world).
  - vm_compute. intuition discriminate.
  - vm_compute. intuition discriminate.
  - vm_compute. reflexivity.
Defined.

(** C1, the claim as stated fails: with an opening brace in the prefix the
    text cut out starts too early, and the payload's fields are not
    returned. *)
Lemma C1_counterexample :
  payload_fields sample_limits sample_payload = Ok sample_fields
  /\ fst (extract_story_elements sample_limits
            (lit "Note {draft}: " ++ sample_payload ++ lit " The end.")
            empty_world)
     = Err (JSONDecodeError ExpectingPropertyName 1)
  /\ fst (extract_story_elements sample_limits
            (lit "Note {draft}: " ++ sample_payload ++ lit " The end.")
            empty_world)
     <> Ok sample_fields.
Proof.
  split; [vm_compute; reflexivity|].
  split; [vm_compute; reflexivity|].
  vm_compute. discriminate.
Qed.

(** Without an opening or without a closing brace the text cut out is empty
    or a lone closing brace, and the decoder expects a value at index 0. *)
Lemma story_elements_no_braces (lim : Limits) (text : str) :
  ~ In (chr "{") text \/ ~ In (chr "}") text ->
  story_elements lim text = Err (JSONDecodeError ExpectingValue 0).
Proof.
  intros H.
  assert (Hcut : slice text (find text (lit "{")) (rfind text (lit "}") + 1)%Z = []
                 \/ slice text (find text (lit "{")) (rfind text (lit "}") + 1)%Z
                    = [chr "}"]).
  { unfold find, rfind.
    change (lit "{") with [chr "{"]. change (lit "}") with [chr "}"].
    destruct (rfind_from_spec (chr "}") text 0 (-1)%Z) as [E|(k & E & Hk)].
    - rewrite E. left. apply slice_to_zero.
    - destruct H as [H|H].
      + rewrite find_from_absent by exact H. rewrite E.
        assert (Hlen : k < length text) by (apply nth_error_Some; congruence).
        replace (Z.of_nat (0 + k) + 1)%Z with (Z.of_nat (S k)) by lia.
        unfold slice. rewrite clamp_nat.
        replace (clamp (length text) (-1)) with (length text - 1)
          by (unfold clamp; cbn [Z.ltb Z.compare]; lia).
        rewrite (Nat.min_l (S k)) by lia.
        destruct (Nat.eq_dec (S k) (length text)) as [Ek|Ek].
        * right. replace (S k - (length text - 1)) with 1 by lia.
          replace (length text - 1) with k by lia.
          apply firstn_one_skipn. exact Hk.
        * left. replace (S k - (length text - 1)) with 0 by lia. reflexivity.
      + exfalso. apply H. eapply nth_error_In. exact Hk. }
  unfold story_elements. destruct Hcut as [-> | ->]; reflexivity.
Qed.

(** C9: a text without opening brace or without closing brace makes the
    parse fail, with the decoder's error for a missing payload;
    [process_text] then fails with that error after logging it twice, and
    nothing else happens: no directory is made and [generate_image] is never
    called. *)
Theorem C9_no_payload_no_generation :
  forall (env : Env) (text : str) (w : World),
    ~ In (chr "{") text \/ ~ In (chr "}") text ->
    extract_story_elements (limits env) text w
    = (Err (JSONDecodeError ExpectingValue 0),
       mkWorld (dirs w) (files w)
         (Logged InExtract (JSONDecodeError ExpectingValue 0) :: trace w))
    /\ process_text env text w
       = (Err (JSONDecodeError ExpectingValue 0),
          mkWorld (dirs w) (files w)
            (Logged InProcess (JSONDecodeError ExpectingValue 0)
             :: Logged InExtract (JSONDecodeError ExpectingValue 0)
             :: trace w))
    /\ forall model prompt negative title i,
         In (GenerateImage model prompt negative title i)
            (trace (snd (process_text env text w))) ->
         In (GenerateImage model prompt negative title i) (trace w).
Proof.
  intros env text w H.
  assert (E : extract_story_elements (limits env) text w
              = (Err (JSONDecodeError ExpectingValue 0),
                 mkWorld (dirs w) (files w)
                   (Logged InExtract (JSONDecodeError ExpectingValue 0) :: trace w))).
  { unfold extract_story_elements.
    rewrite (story_elements_no_braces (limits env) _ H). reflexivity. }
  assert (P : process_text env text w
              = (Err (JSONDecodeError ExpectingValue 0),
                 mkWorld (dirs w) (files w)
                   (Logged InProcess (JSONDecodeError ExpectingValue 0)
                    :: Logged InExtract (JSONDecodeError ExpectingValue 0)
                    :: trace w))).
  { unfold process_text, logging_errors, io_bind. rewrite E. reflexivity. }
  split; [exact E|]. split; [exact P|].
  intros model prompt negative title i. rewrite P. cbn [snd trace].
  intros [Hin|[Hin|Hin]]; [discriminate | discriminate | exact Hin].
Qed.

Lemma C9_no_payload_no_generation_witness :
  process_text sample_env (lit "Once upon a time there was no payload.") empty_world
  = (Err (JSONDecodeError ExpectingValue 0),
     mkWorld [] []
       [Logged InProcess (JSONDecodeError ExpectingValue 0);
        Logged InExtract (JSONDecodeError ExpectingValue 0)]).
Proof.
  apply (@C9_no_payload_no_generation sample_env
           (lit "Once upon a time there was no payload.") empty_world).
  left. vm_compute. intuition discriminate.
Defined.

(** ** Title sanitization *)

Lemma sub_unaffected (cls : char -> bool) (repl s : str) (b : bool) :
  Forall (fun c => cls c = false) s -> re_sub_class_plus cls repl s b = s.
Proof.
  revert b. induction s as [|c s IH]; intros b H.
  - reflexivity.
  - inversion H as [|? ? Hc Hs]; subst. cbn [re_sub_class_plus].
    rewrite Hc, IH by exact Hs. reflexivity.
Qed.

Lemma sub_after_run (cls : char -> bool) (repl v : str) :
  match v with c :: _ => cls c = false | [] => True end ->
  re_sub_class_plus cls repl v true = re_sub_class_plus cls repl v false.
Proof.
  destruct v as [|c v]; [reflexivity|]. intros Hc.
  cbn [re_sub_class_plus]. rewrite Hc. reflexivity.
Qed.

Lemma sub_inside_run (cls : char -> bool) (repl r v : str) :
  Forall (fun c => cls c = true) r ->
  re_sub_class_plus cls repl (r ++ v) true = re_sub_class_plus cls repl v true.
Proof.
  induction r as [|c r IH]; intros H.
  - reflexivity.
  - inversion H as [|? ? Hc Hr]; subst. cbn [app re_sub_class_plus].
    rewrite Hc. cbn [app]. apply IH. exact Hr.
Qed.

Lemma sub_run (cls : char -> bool) (repl u r v : str) :
  Forall (fun c => cls c = false) u ->
  r <> [] ->
  Forall (fun c => cls c = true) r ->
  match v with c :: _ => cls c = false | [] => True end ->
  re_sub_class_plus cls repl (u ++ r ++ v) false
  = u ++ repl ++ re_sub_class_plus cls repl v false.
Proof.
  intros Hu Hne Hr Hv. induction u as [|c u IH].
  - destruct r as [|c r]; [contradiction|].
    inversion Hr as [|? ? Hc Hr']; subst.
    cbn [app re_sub_class_plus]. rewrite Hc.
    rewrite sub_inside_run by exact Hr'.
    rewrite sub_after_run by exact Hv. reflexivity.
  - inversion Hu as [|? ? Hc Hu']; subst. cbn [app re_sub_class_plus].
    rewrite Hc. f_equal. apply IH. exact Hu'.
Qed.

(** C4 (as amended): the sanitization replaces every maximal run of
    characters of the set ? ; : % # @ * & ^ $ ! < > , \ / by a single space
    and leaves every other character, the apostrophe among them, as it is;
    the title [Cat's Big Day! #1] becomes [Cat's Big Day   1], with three
    spaces before the 1. *)
Theorem C4_sanitize_runs :
  (forall c, is_special c = true <-> In c (lit "?;:%#@*&^$!<>,\/"))
  /\ is_special (chr "'") = false
  /\ (forall s, Forall (fun c => is_special c = false) s ->
                replace_special_chars s = s)
  /\ (forall u r v,
         Forall (fun c => is_special c = false) u ->
         r <> [] ->
         Forall (fun c => is_special c = true) r ->
         match v with c :: _ => is_special c = false | [] => True end ->
         replace_special_chars (u ++ r ++ v)
         = u ++ lit " " ++ replace_special_chars v)
  /\ replace_special_chars (lit "Cat's Big Day! #1") = lit "Cat's Big Day   1".
Proof.
  split; [|split; [|split; [|split]]].
  - intros c. unfold is_special, mem, special_chars. rewrite existsb_exists.
    split.
    + intros (x & Hin & E). apply eqc_true in E. subst. exact Hin.
    + intros Hin. exists c. split; [exact Hin | apply eqc_refl].
  - reflexivity.
  - intros s H. apply sub_unaffected. exact H.
  - intros u r v Hu Hne Hr Hv. apply sub_run; assumption.
  - reflexivity.
Qed.

Lemma C4_sanitize_runs_witness :
  replace_special_chars (lit "Big Day" ++ lit "!#" ++ lit " 1")
  = lit "Big Day" ++ lit " " ++ replace_special_chars (lit " 1").
Proof.
  apply (proj1 (proj2 (proj2 (proj2 C4_sanitize_runs)))).
  - repeat constructor.
  - discriminate.
  - repeat constructor.
  - reflexivity.
Defined.

(** C4, the claim as stated fails: the sample title does not become
    [Cats Big Day  1] (the apostrophe stays and three spaces result), and two
    special characters in a row give one space, not one each. *)
Lemma C4_counterexample :
  replace_special_chars (lit "Cat's Big Day! #1") <> lit "Cats Big Day  1"
  /\ replace_special_chars (lit "Wow!! Cats")
     <> replace_each_special_char (lit "Wow!! Cats").
Proof.
  split; vm_compute; discriminate.
Qed.

(** ** Segmentation into pages *)

Section Segmentation.

Variable other : value -> str.

(** The text of page [k]: sentences [3k], [3k+1], [3k+2], as far as they
    exist. *)
Let group (sentences : list str) (k : nat) : list str :=
  firstn 3 (skipn (3 * k) sentences).

(** The prompt of page [k]: its own, or the last one. *)
Let prompt_at (prompts : list value) (k : nat) : value :=
  if k <? length prompts then nth k prompts JNull else last prompts JNull.

Lemma map_result_ok (A B : Type) (f : A -> result B) (g : A -> B)
      (l : list A) :
  (forall x, In x l -> f x = Ok (g x)) -> map_result f l = Ok (map g l).
Proof.
  induction l as [|x l IH]; intros H.
  - reflexivity.
  - cbn [map_result map]. rewrite (H x) by (left; reflexivity).
    cbn [bind]. rewrite IH by (intros y Hy; apply H; right; exact Hy).
    reflexivity.
Qed.

Lemma nth_map_seq (B : Type) (f : nat -> B) (n k : nat) (d : B) :
  k < n -> nth k (map f (seq 0 n)) d = f k.
Proof.
  intros H. rewrite (nth_indep _ d (f 0)) by (rewrite length_map, length_seq; exact H).
  rewrite map_nth, seq_nth by exact H. reflexivity.
Qed.

Lemma range_by_three (n : nat) :
  py_range 0 n 3 = map (fun k => k * 3) (seq 0 ((n + 2) / 3)).
Proof.
  unfold py_range. rewrite Nat.sub_0_r.
  replace (n + 3 - 1) with (n + 2) by lia. reflexivity.
Qed.

Lemma pages_bound (n k : nat) : k < (n + 2) / 3 -> 3 * k < n.
Proof.
  intros H. pose proof (Nat.div_mod_eq (n + 2) 3) as E.
  pose proof (Nat.mod_upper_bound (n + 2) 3 ltac:(lia)). lia.
Qed.

Lemma pages_ceiling (n : nat) :
  n <= 3 * ((n + 2) / 3) < n + 3.
Proof.
  pose proof (Nat.div_mod_eq (n + 2) 3) as E.
  pose proof (Nat.mod_upper_bound (n + 2) 3 ltac:(lia)). lia.
Qed.

Lemma list_getitem_nat (A : Type) (l : list A) (k : nat) (d : A) :
  k < length l -> list_getitem l (Z.of_nat k) = Ok (nth k l d).
Proof.
  intros H. unfold list_getitem.
  destruct (Z.of_nat k <? 0)%Z eqn:E0; [apply Z.ltb_lt in E0; lia|].
  rewrite E0, Nat2Z.id.
  destruct (nth_error l k) eqn:E.
  - rewrite (nth_error_nth _ _ d E). reflexivity.
  - apply nth_error_None in E. lia.
Qed.

Lemma list_getitem_last (A : Type) (l : list A) (d : A) :
  l <> [] -> list_getitem l (-1) = Ok (last l d).
Proof.
  intros H. destruct (exists_last H) as (l' & x & ->).
  unfold list_getitem. cbn [Z.ltb Z.compare].
  rewrite length_app. cbn [length].
  replace (-1 + Z.of_nat (length l' + 1) <? 0)%Z with false
    by (symmetry; apply Z.ltb_ge; lia).
  replace (Z.to_nat (-1 + Z.of_nat (length l' + 1))) with (length l' + 0) by lia.
  rewrite nth_error_app2, Nat.add_0_r, Nat.sub_diag by lia.
  rewrite last_last. reflexivity.
Qed.

Lemma list_getitem_empty (A : Type) (i : Z) :
  list_getitem (@nil A) i = Err IndexError.
Proof.
  unfold list_getitem. cbn [length].
  destruct (i <? 0)%Z eqn:E.
  - replace (i + Z.of_nat 0 <? 0)%Z with true
      by (symmetry; apply Z.ltb_lt; apply Z.ltb_lt in E; lia).
    reflexivity.
  - rewrite E. destruct (Z.to_nat i); reflexivity.
Qed.

(** A round of the loop on a list of prompts that is not empty. *)
Lemma combine_round_ok (sentences : list str) (prompts : list value) (k : nat) :
  prompts <> [] ->
  3 * k < length sentences ->
  combine_round other sentences (JArray prompts) (k * 3)
  = Ok (join (lit ". ") (group sentences k),
        new_prompt other (join (lit ". ") (group sentences k))
                   (prompt_at prompts k)).
Proof.
  intros Hp Hk. unfold combine_round, group, prompt_at.
  rewrite slice_nat by lia.
  replace (k * 3 + 3 - k * 3) with 3 by lia.
  cbn [py_len bind getitem_int]. rewrite Nat.div_mul by lia.
  replace (k * 3) with (3 * k) by lia.
  destruct (k <? length prompts) eqn:E.
  - apply Nat.ltb_lt in E.
    rewrite (list_getitem_nat _ JNull E). reflexivity.
  - rewrite (list_getitem_last JNull Hp). reflexivity.
Qed.

(** The loop on a list of prompts that is not empty: page [k] holds the
    sentences of group [k] and the prompt [prompt_at k]. *)
Lemma combine_sentences_ok (sentences : list str) (prompts : list value) :
  prompts <> [] ->
  combine_sentences other sentences (JArray prompts)
  = Ok (map (fun k => join (lit ". ") (group sentences k))
            (seq 0 ((length sentences + 2) / 3)),
        map (fun k => new_prompt other (join (lit ". ") (group sentences k))
                        (prompt_at prompts k))
            (seq 0 ((length sentences + 2) / 3))).
Proof.
  intros Hp. unfold combine_sentences. rewrite range_by_three.
  rewrite (@map_result_ok _ _ _
             (fun i => (join (lit ". ") (group sentences (i / 3)),
                        new_prompt other (join (lit ". ") (group sentences (i / 3)))
                                   (prompt_at prompts (i / 3))))).
  - cbn [bind]. rewrite !map_map. f_equal. f_equal.
    + apply map_ext. intros k. cbn [fst]. rewrite Nat.div_mul by lia. reflexivity.
    + apply map_ext. intros k. cbn [snd]. rewrite Nat.div_mul by lia. reflexivity.
  - intros x Hx. apply in_map_iff in Hx. destruct Hx as (k & <- & Hk).
    apply in_seq in Hk. rewrite Nat.div_mul by lia.
    apply combine_round_ok; [exact Hp|]. apply pages_bound. lia.
Qed.

(** Cutting a list into groups of three loses nothing. *)
Lemma groups_concat (A : Type) (n : nat) (l : list A) :
  length l <= 3 * n ->
  concat (map (fun k => firstn 3 (skipn (3 * k) l)) (seq 0 n)) = l.
Proof.
  revert l. induction n as [|n IH]; intros l H.
  - destruct l; [reflexivity | simpl in H; lia].
  - cbn [seq map concat]. rewrite <- seq_shift, map_map.
    replace (3 * 0) with 0 by lia. cbn [skipn].
    transitivity (firstn 3 l ++ skipn 3 l); [|apply firstn_skipn].
    f_equal.
    etransitivity; [|apply (IH (skipn 3 l)); rewrite length_skipn; lia].
    f_equal. apply map_ext. intros k.
    rewrite skipn_skipn. f_equal. f_equal. lia.
Qed.

Lemma group_size (A : Type) (l : list A) (k : nat) :
  3 * k < length l ->
  1 <= length (firstn 3 (skipn (3 * k) l)) <= 3.
Proof.
  intros H. rewrite length_firstn, length_skipn. lia.
Qed.

(** The page texts and enriched prompts of a story with a list of prompts
    that is not empty. *)
Lemma segmentation (story : str) (prompts : list value) :
  prompts <> [] ->
  exists combined enriched,
    combine_sentences other (split story (lit ". ")) (JArray prompts)
    = Ok (combined, enriched)
    /\ length combined = (length (split story (lit ". ")) + 2) / 3
    /\ length enriched = length combined
    /\ (forall k, k < length combined ->
          nth k combined []
          = join (lit ". ") (firstn 3 (skipn (3 * k) (split story (lit ". ")))))
    /\ (forall k, k < length combined ->
          nth k enriched []
          = new_prompt other (nth k combined [])
              (if k <? length prompts then nth k prompts JNull
               else last prompts JNull)).
Proof.
  intros Hp. eexists. eexists. split; [apply combine_sentences_ok; exact Hp|].
  rewrite !length_map, !length_seq.
  split; [reflexivity|]. split; [reflexivity|]. split.
  - intros k Hk. rewrite nth_map_seq by exact Hk. reflexivity.
  - intros k Hk. rewrite !nth_map_seq by exact Hk. reflexivity.
Qed.

End Segmentation.

(** C2: a narrative always has S >= 1 sentences, and with a usable list of
    prompts (at least one entry) the segmentation yields exactly ceil(S/3)
    pages; page k is made of the at most three consecutive sentences 3k,
    3k+1, 3k+2, so that the pages, in order, run through the sentences in
    their original order. *)
Theorem C2_pages_of_three_sentences :
  forall (other : value -> str) (story : str) (prompts : list value),
    prompts <> [] ->
    exists combined enriched,
      combine_sentences other (split story (lit ". ")) (JArray prompts)
      = Ok (combined, enriched)
      /\ 1 <= length (split story (lit ". "))
      /\ length combined = (length (split story (lit ". ")) + 2) / 3
      /\ length (split story (lit ". ")) <= 3 * length combined
         < length (split story (lit ". ")) + 3
      /\ (forall k, k < length combined ->
            nth k combined []
            = join (lit ". ") (firstn 3 (skipn (3 * k) (split story (lit ". "))))
            /\ 1 <= length (firstn 3 (skipn (3 * k) (split story (lit ". ")))) <= 3)
      /\ concat (map (fun k => firstn 3 (skipn (3 * k) (split story (lit ". "))))
                     (seq 0 (length combined)))
         = split story (lit ". ").
Proof.
  intros other story prompts Hp.
  destruct (segmentation other story Hp) as (combined & enriched & E & Hn & _ & Hc & _).
  exists combined, enriched.
  split; [exact E|]. split; [apply split_nonempty|]. split; [exact Hn|].
  split; [rewrite Hn; apply pages_ceiling|]. split.
  - intros k Hk. split; [apply Hc; exact Hk|].
    apply group_size. apply pages_bound. rewrite <- Hn. exact Hk.
  - apply groups_concat. rewrite Hn.
    pose proof (pages_ceiling (length (split story (lit ". ")))). lia.
Qed.

Lemma C2_pages_of_three_sentences_witness :
  exists combined enriched,
    combine_sentences (fun _ => lit "?")
      (split (lit "A cat woke up. It stretched. It yawned. Then it ate breakfast. It played outside.")
             (lit ". "))
      (JArray [JString (lit "a sleepy cat"); JString (lit "a cat eating")])
    = Ok (combined, enriched)
    /\ length combined = 2.
Proof.
  destruct (@C2_pages_of_three_sentences (fun _ => lit "?")
              (lit "A cat woke up. It stretched. It yawned. Then it ate breakfast. It played outside.")
              [JString (lit "a sleepy cat"); JString (lit "a cat eating")])
    as (combined & enriched & E & _ & Hn & _).
  - discriminate.
  - exists combined, enriched. split; [exact E|]. rewrite Hn. reflexivity.
Defined.

(** C3 (as amended): when the list of prompts has fewer entries than there
    are pages and at least one entry, segmentation does not fail; a page
    whose index has a prompt gets that prompt, and every page beyond gets the
    last prompt of the list, never one from its start.  When the list has
    no entry at all there is no last prompt: segmentation fails with
    [IndexError]. *)
Theorem C3_shortfall_reuses_last_prompt :
  forall (other : value -> str) (story : str) (prompts : list value),
    length prompts < (length (split story (lit ". ")) + 2) / 3 ->
    (prompts <> [] ->
     exists combined enriched,
       combine_sentences other (split story (lit ". ")) (JArray prompts)
       = Ok (combined, enriched)
       /\ length combined = (length (split story (lit ". ")) + 2) / 3
       /\ length enriched = length combined
       /\ (forall k, k < length prompts ->
             nth k enriched []
             = new_prompt other (nth k combined []) (nth k prompts JNull))
       /\ (forall k, length prompts <= k < length combined ->
             nth k enriched []
             = new_prompt other (nth k combined []) (last prompts JNull)))
    /\ (prompts = [] ->
        combine_sentences other (split story (lit ". ")) (JArray prompts)
        = Err IndexError).
Proof.
  intros other story prompts Hlt. split.
  - intros Hp.
    destruct (segmentation other story Hp)
      as (combined & enriched & E & Hn & He & _ & Hq).
    exists combined, enriched.
    split; [exact E|]. split; [exact Hn|]. split; [exact He|]. split.
    + intros k Hk. rewrite Hq by lia.
      replace (k <? length prompts) with true by (symmetry; apply Nat.ltb_lt; lia).
      reflexivity.
    + intros k Hk. rewrite Hq by lia.
      replace (k <? length prompts) with false by (symmetry; apply Nat.ltb_ge; lia).
      reflexivity.
  - intros ->. unfold combine_sentences. rewrite range_by_three.
    destruct ((length (split story (lit ". ")) + 2) / 3) as [|n];
      [cbn [length] in Hlt; lia|].
    reflexivity.
Qed.

Lemma C3_shortfall_reuses_last_prompt_witness :
  exists combined enriched,
    combine_sentences (fun _ => lit "?")
      (split (lit "A cat woke up. It stretched. It yawned. Then it ate breakfast. It played outside.")
             (lit ". "))
      (JArray [JString (lit "a sleepy cat")])
    = Ok (combined, enriched)
    /\ nth 1 enriched []
       = new_prompt (fun _ => lit "?") (nth 1 combined [])
           (JString (lit "a sleepy cat")).
Proof.
  destruct (@C3_shortfall_reuses_last_prompt (fun _ => lit "?")
              (lit "A cat woke up. It stretched. It yawned. Then it ate breakfast. It played outside.")
              [JString (lit "a sleepy cat")])
    as [Hreuse _].
  - vm_compute. lia.
  - destruct Hreuse as (combined & enriched & E & Hn & _ & _ & Hlast);
      [discriminate|].
    exists combined, enriched. split; [exact E|].
    apply Hlast. rewrite Hn. vm_compute. lia.
Defined.

(** C3, the claim as stated fails: a document of one page with an empty
    list of prompts has fewer prompts than pages, and its segmentation
    crashes instead of pairing the page with a prompt. *)
Lemma C3_counterexample :
  length (@nil value) < (length (split (lit "A cat woke up") (lit ". ")) + 2) / 3
  /\ combine_sentences (fun _ => lit "?")
       (split (lit "A cat woke up") (lit ". ")) (JArray [])
     = Err IndexError
  /\ forall pages,
       combine_sentences (fun _ => lit "?")
         (split (lit "A cat woke up") (lit ". ")) (JArray [])
       <> Ok pages.
Proof.
  split; [vm_compute; lia|]. split; [vm_compute; reflexivity|].
  intros pages. vm_compute. discriminate.
Qed.

(** C6 (as amended): an empty narrative is not refused.  Splitting it gives
    one empty sentence, and with at least one prompt the segmentation
    succeeds with exactly one page, whose text is empty and whose prompt is
    the first of the list. *)
Theorem C6_empty_narrative_one_page :
  forall (other : value -> str) (p : value) (rest : list value),
    split [] (lit ". ") = [[]]
    /\ combine_sentences other (split [] (lit ". ")) (JArray (p :: rest))
       = Ok ([[]], [new_prompt other [] p]).
Proof.
  intros other p rest. split; reflexivity.
Qed.

(** C6, the claim as stated fails: on the empty narrative the segmentation
    returns a page instead of failing. *)
Lemma C6_counterexample :
  combine_sentences (fun _ => lit "?") (split (lit "") (lit ". "))
    (JArray [JString (lit "a sleepy cat")])
  = Ok ([lit ""],
        [new_prompt (fun _ => lit "?") (lit "") (JString (lit "a sleepy cat"))])
  /\ forall e,
       combine_sentences (fun _ => lit "?") (split (lit "") (lit ". "))
         (JArray [JString (lit "a sleepy cat")])
       <> Err e.
Proof.
  split; [reflexivity|]. intros e. vm_compute. discriminate.
Qed.

(** C10: with an empty list of prompts the very first round of the loop
    takes the fallback branch and indexes the last element of the empty
    list, so the segmentation of any narrative, a non-empty one included,
    fails with an index error; the segmentation succeeds exactly when the
    list of prompts has at least one entry. *)
Theorem C10_empty_prompts_index_error :
  forall (other : value -> str) (story : str),
    (story <> [] ->
     combine_round other (split story (lit ". ")) (JArray []) 0 = Err IndexError
     /\ combine_sentences other (split story (lit ". ")) (JArray [])
        = Err IndexError)
    /\ (forall prompts,
          (exists pages,
              combine_sentences other (split story (lit ". ")) (JArray prompts)
              = Ok pages)
          <-> prompts <> []).
Proof.
  intros other story.
  assert (R : combine_round other (split story (lit ". ")) (JArray []) 0
              = Err IndexError) by reflexivity.
  assert (F : combine_sentences other (split story (lit ". ")) (JArray [])
              = Err IndexError).
  { unfold combine_sentences. rewrite range_by_three.
    pose proof (split_nonempty story (lit ". ")) as Hs.
    pose proof (pages_ceiling (length (split story (lit ". ")))) as Hc.
    destruct ((length (split story (lit ". ")) + 2) / 3) as [|n] eqn:En; [lia|].
    cbn [seq map map_result]. change (0 * 3) with 0. rewrite R. reflexivity. }
  split; [intros _; split; assumption|].
  intros prompts. split.
  - intros (pages & E) ->. rewrite F in E. discriminate.
  - intros Hp. destruct (segmentation other story Hp) as (c & e & E & _).
    exists (c, e). exact E.
Qed.

Lemma C10_empty_prompts_index_error_witness :
  combine_sentences (fun _ => lit "?")
    (split (lit "A cat woke up. It stretched.") (lit ". ")) (JArray [])
  = Err IndexError.
Proof.
  apply (proj1 (@C10_empty_prompts_index_error (fun _ => lit "?")
                  (lit "A cat woke up. It stretched."))).
  discriminate.
Defined.

(** ** Text wrapping *)

Section Wrapping.

Import Textwrap.









(** The chunks are a partition of the text. *)
Lemma split_go_concat (alnum_hi decimal_hi : char -> bool)
      (hist s : str) (left : nat) (cur : str) :
  concat (split_go alnum_hi decimal_hi hist s left cur) = rev cur ++ s.
Proof.
  revert hist left cur. induction s as [|c s IH]; intros hist left cur.
  - cbn [split_go]. destruct cur; [reflexivity|].
    cbn [concat]. rewrite !app_nil_r. reflexivity.
  - cbn [split_go]. destruct left as [|k].
    + destruct cur as [|d cur].
      * rewrite IH. reflexivity.
      * cbn [concat]. rewrite IH. reflexivity.
    + rewrite IH. cbn [rev]. rewrite <- app_assoc. reflexivity.
Qed.

Lemma split_chunks_concat (alnum_hi decimal_hi : char -> bool) (text : str) :
  concat (split_chunks alnum_hi decimal_hi text) = munge_whitespace text.
Proof. unfold split_chunks. apply split_go_concat. Qed.








Lemma expandtabs_no_tab (tabsize : nat) (s : str) (col : nat) :
  ~ In 9%N s -> expandtabs tabsize s col = s.
Proof.
  revert col. induction s as [|c s IH]; intros col H; [reflexivity|].
  cbn [expandtabs]. destruct (c =? 9)%N eqn:E.
  - apply N.eqb_eq in E. subst c. exfalso. apply H. left. reflexivity.
  - assert (K : ~ In 9%N s) by (intros K; apply H; right; exact K).
    destruct ((c =? 10)%N || (c =? 13)%N); rewrite IH by exact K; reflexivity.
Qed.

(** A text whose only white space is the blank is left as it is. *)
Lemma munge_plain (text : str) :
  (forall c, In c text -> is_whitespace c = true -> c = 32%N) ->
  munge_whitespace text = text.
Proof.
  intros H. unfold munge_whitespace. rewrite expandtabs_no_tab.
  - induction text as [|c s IH]; [reflexivity|].
    cbn [map]. rewrite IH by (intros d Hd; apply H; right; exact Hd).
    destruct (is_whitespace c) eqn:E; [|reflexivity].
    rewrite (H c (or_introl eq_refl) E). reflexivity.
  - intros K. specialize (H _ K eq_refl). discriminate.
Qed.


End Wrapping.

(** *** Whole words and cut words *)

Section PlainWords.

Import Textwrap.

Variable alnum_hi decimal_hi : char -> bool.











End PlainWords.

Section GreedyLines.

Import Textwrap.















End GreedyLines.





(** ** The assembly of the storybook *)

Section Assembly.

Variable env : Env.

Lemma io_bind_ok (A B : Type) (m : io A) (k : A -> io B) (w w' : World) (b : B) :
  io_bind m k w = (Ok b, w') ->
  exists a w1, m w = (Ok a, w1) /\ k a w1 = (Ok b, w').
Proof.
  unfold io_bind. destruct (m w) as [[a|e] w1]; intros H.
  - exists a, w1. split; [reflexivity | exact H].
  - discriminate.
Qed.

Lemma io_map_ok (A B : Type) (f : A -> io B) (l : list A) (w w' : World)
      (ys : list B) :
  io_map f l w = (Ok ys, w') ->
  Forall2 (fun x y => exists w1 w2, f x w1 = (Ok y, w2)) l ys.
Proof.
  revert w ys. induction l as [|x l IH]; intros w ys H.
  - cbn in H. injection H as <- _. constructor.
  - cbn [io_map] in H.
    apply io_bind_ok in H. destruct H as (y & w1 & Hy & H).
    apply io_bind_ok in H. destruct H as (ys' & w2 & Hys & H).
    cbn in H. injection H as <- <-.
    constructor; [exists w, w1; exact Hy | eapply IH; exact Hys].
Qed.

Lemma Forall2_nth_both (A B : Type) (R : A -> B -> Prop) (l : list A)
      (ys : list B) (i : nat) (da : A) (db : B) :
  Forall2 R l ys -> i < length l -> R (nth i l da) (nth i ys db).
Proof.
  intros H. revert i. induction H as [|x y l ys Hxy _ IH]; intros i Hi.
  - cbn in Hi. lia.
  - destruct i as [|i]; [exact Hxy|]. cbn in *. apply IH. lia.
Qed.

Lemma nth_enumerate (A : Type) (l : list A) (i : nat) (d : A) :
  i < length l -> nth i (enumerate l) (0, d) = (i, nth i l d).
Proof.
  intros H. unfold enumerate.
  rewrite combine_nth by (rewrite length_seq; reflexivity).
  rewrite seq_nth by exact H. reflexivity.
Qed.

Lemma length_enumerate (A : Type) (l : list A) : length (enumerate l) = length l.
Proof.
  unfold enumerate. rewrite length_combine, length_seq. apply Nat.min_id.
Qed.

(** *** What a successful step says about the collaborators *)

Lemma outcome_ok (o : option exn) (w w' : World) (u : unit) :
  outcome o w = (Ok u, w') -> o = None /\ w' = w.
Proof.
  destruct o as [e|]; cbn; intros H; [discriminate|].
  injection H as _ <-. split; reflexivity.
Qed.

Lemma generate_image_ok (model prompt negative title : str) (i : nat)
      (w w' : World) (path : str) :
  generate_image env model prompt negative title i w = (Ok path, w') ->
  generate_image_outcome env model prompt negative title i = Ok path.
Proof.
  unfold generate_image. intros H.
  apply io_bind_ok in H. destruct H as (_ & w1 & _ & H).
  apply io_bind_ok in H. destruct H as (p & w2 & Hp & H).
  apply io_bind_ok in H. destruct H as (_ & w3 & _ & H).
  cbn in H. injection H as <- _.
  unfold lift in Hp. apply (f_equal fst) in Hp. exact Hp.
Qed.

Lemma logging_errors_ok (A : Type) (where_ : site) (m : io A) (w w' : World) (a : A) :
  logging_errors where_ m w = (Ok a, w') -> m w = (Ok a, w').
Proof.
  unfold logging_errors. destruct (m w) as [[x|e] w1]; intros H;
    [exact H | discriminate].
Qed.

Lemma add_text_to_image_ok (image_path text output_path : str)
      (w w' : World) (r : str) :
  add_text_to_image env image_path text output_path w = (Ok r, w') ->
  r = output_path
  /\ image_open_outcome env image_path = None
  /\ (exists wrapped,
         Textwrap.fill (alnum_hi env) (decimal_hi env) text 40 = Ok wrapped
         /\ draw_outcome env image_path wrapped = None)
  /\ image_save_outcome env output_path = None.
Proof.
  unfold add_text_to_image. intros H. apply logging_errors_ok in H.
  apply io_bind_ok in H. destruct H as (_ & w1 & _ & H).
  apply io_bind_ok in H. destruct H as (u1 & w2 & H1 & H).
  apply outcome_ok in H1. destruct H1 as [H1 _].
  apply io_bind_ok in H. destruct H as (wrapped & w3 & Hw & H).
  unfold lift in Hw. apply (f_equal fst) in Hw. cbn [fst] in Hw.
  apply io_bind_ok in H. destruct H as (_ & w4 & _ & H).
  apply io_bind_ok in H. destruct H as (u2 & w5 & H2 & H).
  apply outcome_ok in H2. destruct H2 as [H2 _].
  apply io_bind_ok in H. destruct H as (_ & w6 & _ & H).
  apply io_bind_ok in H. destruct H as (u3 & w7 & H3 & H).
  apply outcome_ok in H3. destruct H3 as [H3 _].
  apply io_bind_ok in H. destruct H as (_ & w8 & _ & H).
  cbn in H. injection H as <- _.
  split; [reflexivity|]. split; [exact H1|]. split; [|exact H3].
  exists wrapped. split; [exact Hw | exact H2].
Qed.

Lemma shutil_move_ok (src dst : str) (w w' : World) (u : unit) :
  shutil_move env src dst w = (Ok u, w') -> move_outcome env src dst = None.
Proof.
  unfold shutil_move. intros H.
  apply io_bind_ok in H. destruct H as (_ & w1 & _ & H).
  apply io_bind_ok in H. destruct H as (u1 & w2 & H1 & H).
  apply outcome_ok in H1. destruct H1 as [H1 _]. exact H1.
Qed.

(** *** What the steps do to the directories *)

Lemma io_bind_dirs (A B : Type) (m : io A) (k : A -> io B) (w : World) :
  dirs (snd (m w)) = dirs w ->
  (forall a w1, dirs (snd (k a w1)) = dirs w1) ->
  dirs (snd (io_bind m k w)) = dirs w.
Proof.
  intros Hm Hk. unfold io_bind. destruct (m w) as [[a|e] w1]; cbn [snd] in *.
  - rewrite Hk. exact Hm.
  - exact Hm.
Qed.

Lemma outcome_dirs (o : option exn) (w : World) : dirs (snd (outcome o w)) = dirs w.
Proof. destruct o; reflexivity. Qed.

Lemma logging_errors_dirs (A : Type) (where_ : site) (m : io A) (w : World) :
  dirs (snd (logging_errors where_ m w)) = dirs (snd (m w)).
Proof. unfold logging_errors. destruct (m w) as [[a|e] w1]; reflexivity. Qed.

Lemma io_map_dirs (A B : Type) (f : A -> io B) (l : list A) (w : World) :
  (forall x w1, dirs (snd (f x w1)) = dirs w1) ->
  dirs (snd (io_map f l w)) = dirs w.
Proof.
  intros Hf. revert w. induction l as [|x l IH]; intros w.
  - reflexivity.
  - cbn [io_map]. apply io_bind_dirs; [apply Hf|].
    intros y w1. apply io_bind_dirs; [apply IH|]. reflexivity.
Qed.

Lemma generate_image_dirs (model prompt negative title : str) (i : nat) (w : World) :
  dirs (snd (generate_image env model prompt negative title i w)) = dirs w.
Proof.
  unfold generate_image.
  apply io_bind_dirs; [reflexivity|]. intros _ w1.
  apply io_bind_dirs; [reflexivity|]. intros p w2.
  apply io_bind_dirs; reflexivity.
Qed.

Lemma add_text_to_image_dirs (image_path text output_path : str) (w : World) :
  dirs (snd (add_text_to_image env image_path text output_path w)) = dirs w.
Proof.
  unfold add_text_to_image. rewrite logging_errors_dirs.
  apply io_bind_dirs; [reflexivity|]. intros _ w1.
  apply io_bind_dirs; [apply outcome_dirs|]. intros _ w2.
  apply io_bind_dirs; [reflexivity|]. intros t w3.
  apply io_bind_dirs; [reflexivity|]. intros _ w4.
  apply io_bind_dirs; [apply outcome_dirs|]. intros _ w5.
  apply io_bind_dirs; [reflexivity|]. intros _ w6.
  apply io_bind_dirs; [apply outcome_dirs|]. intros _ w7.
  apply io_bind_dirs; reflexivity.
Qed.

Lemma shutil_move_dirs (src dst : str) (w : World) :
  dirs (snd (shutil_move env src dst w)) = dirs w.
Proof.
  unfold shutil_move.
  apply io_bind_dirs; [reflexivity|]. intros _ w1.
  apply io_bind_dirs; [apply outcome_dirs|]. intros _ w2.
  apply io_bind_dirs; reflexivity.
Qed.

Lemma generate_images_dirs (title : str) (prompts : list str) (w : World) :
  dirs (snd (generate_images env title prompts w)) = dirs w.
Proof.
  unfold generate_images. apply io_map_dirs.
  intros x w1. apply generate_image_dirs.
Qed.

Lemma compose_pages_dirs (out : str) (combined paths : list str) (w : World) :
  dirs (snd (compose_pages env out combined paths w)) = dirs w.
Proof.
  unfold compose_pages. apply io_map_dirs. intros x w1.
  apply io_bind_dirs; [apply add_text_to_image_dirs|]. intros r w2.
  apply io_bind_dirs; [apply shutil_move_dirs|]. reflexivity.
Qed.

(** *** [process_text] after its planning part *)

(** The part of [process_text] that touches the outside. *)
Let assemble (title : str) (combined prompts : list str)
  : io (list str * str * str) :=
  (os_makedirs env (output_dir_of env title) ;;
   image_generated_paths <- generate_images env title prompts ;;
   combined_story_with_images <-
     compose_pages env (output_dir_of env title) combined image_generated_paths ;;
   ret (combined_story_with_images, output_dir_of env title, title))%io.

Lemma process_text_planned (text : str) (w : World)
      (title : str) (combined prompts : list str) :
  storybook_plan (limits env) (str_other env) text = Ok (title, combined, prompts) ->
  process_text env text w
  = logging_errors InProcess (assemble title combined prompts) w.
Proof.
  unfold storybook_plan, process_text, extract_story_elements. intros H.
  destruct (story_elements (limits env) text) as [[[[title_raw story] moral] image_prompts]|e];
    [|discriminate].
  cbn [bind] in H. unfold logging_errors, io_bind, lift, assemble.
  destruct (as_pattern_target title_raw) as [target|e]; [|discriminate].
  cbn [bind] in H.
  destruct (split_method story (lit ". ")) as [sentences|e]; [|discriminate].
  cbn [bind] in H.
  destruct (combine_sentences (str_other env) sentences image_prompts)
    as [[c p]|e]; [|discriminate].
  cbn [bind fst snd] in H. injection H as <- <- <-. reflexivity.
Qed.

Lemma process_text_unplanned (text : str) (w : World) (e : exn) :
  storybook_plan (limits env) (str_other env) text = Err e ->
  fst (process_text env text w) = Err e.
Proof.
  unfold storybook_plan, process_text, extract_story_elements. intros H.
  unfold logging_errors, io_bind, lift, raise.
  destruct (story_elements (limits env) text) as [[[[title_raw story] moral] image_prompts]|e0].
  - cbn [bind] in H.
    destruct (as_pattern_target title_raw) as [target|e1];
      [|cbn in *; congruence].
    cbn [bind] in H.
    destruct (split_method story (lit ". ")) as [sentences|e1];
      [|cbn in *; congruence].
    cbn [bind] in H.
    destruct (combine_sentences (str_other env) sentences image_prompts)
      as [[c p]|e1]; [discriminate | cbn in *; congruence].
  - cbn [bind] in H. injection H as ->. destruct e; reflexivity.
Qed.

Lemma plan_lengths (lim : Limits) (other : value -> str) (text title : str)
      (combined prompts : list str) :
  storybook_plan lim other text = Ok (title, combined, prompts) ->
  length prompts = length combined.
Proof.
  unfold storybook_plan. intros H.
  destruct (story_elements lim text) as [[[[title_raw story] moral] image_prompts]|e];
    [|discriminate].
  cbn [bind] in H.
  destruct (as_pattern_target title_raw) as [target|e]; [|discriminate].
  cbn [bind] in H.
  destruct (split_method story (lit ". ")) as [sentences|e]; [|discriminate].
  cbn [bind] in H. unfold combine_sentences in H.
  destruct (map_result _ _) as [pages|e]; [|discriminate].
  cbn [bind fst snd] in H. injection H as _ <- <-.
  rewrite !length_map. reflexivity.
Qed.

(** A successful assembly: every page went through its whole pipeline, and
    the pages returned are the files of the pages, in order. *)
Lemma assemble_ok (title : str) (combined prompts : list str) (w w' : World)
      (pages : list str) (out title' : str) :
  length prompts = length combined ->
  assemble title combined prompts w = (Ok (pages, out, title'), w') ->
  out = output_dir_of env title
  /\ title' = title
  /\ length pages = length combined
  /\ (forall i, i < length combined ->
        nth i pages [] = path_join out (page_file i)
        /\ page_outcome env title out i (nth i combined []) (nth i prompts [])
           = None).
Proof.
  intros Hlen H. unfold assemble in H.
  apply io_bind_ok in H. destruct H as (_ & w1 & _ & H).
  apply io_bind_ok in H. destruct H as (gen & w2 & Hgen & H).
  apply io_bind_ok in H. destruct H as (res & w3 & Hres & H).
  cbn in H. injection H as <- <- <- _.
  unfold generate_images in Hgen. apply io_map_ok in Hgen.
  unfold compose_pages in Hres. apply io_map_ok in Hres.
  pose proof (Forall2_length Hgen) as Lgen. rewrite length_enumerate in Lgen.
  pose proof (Forall2_length Hres) as Lres.
  rewrite length_enumerate, length_combine, <- Lgen, Hlen, Nat.min_id in Lres.
  split; [reflexivity|]. split; [reflexivity|]. split; [symmetry; exact Lres|].
  intros i Hi.
  pose proof (@Forall2_nth_both _ _ _ _ _ i (0, []) [] Hgen
                ltac:(rewrite length_enumerate; lia)) as Gi.
  cbv beta in Gi.
  rewrite nth_enumerate in Gi by (unfold str in *; lia). cbn [fst snd] in Gi.
  destruct Gi as (wa & wb & Gi). apply generate_image_ok in Gi.
  pose proof (@Forall2_nth_both _ _ _ _ _ i (0, ([], [])) [] Hres
                ltac:(rewrite length_enumerate, length_combine; lia)) as Ri.
  cbv beta in Ri.
  rewrite nth_enumerate in Ri by (rewrite length_combine; unfold str in *; lia).
  rewrite combine_nth in Ri by (unfold str in *; lia). cbn [fst snd] in Ri.
  destruct Ri as (wc & wd & Ri).
  apply io_bind_ok in Ri. destruct Ri as (r & we & Ha & Ri).
  apply io_bind_ok in Ri. destruct Ri as (u & wf & Hm & Ri).
  unfold ret in Ri. injection Ri as Ri _.
  apply add_text_to_image_ok in Ha.
  destruct Ha as (-> & Ho & (wrapped & Hw & Hd) & Hs).
  apply shutil_move_ok in Hm.
  split; [symmetry; exact Ri|].
  unfold page_outcome. unfold str, char in *.
  rewrite Gi. cbn [first_error fold_right].
  rewrite Ho, Hw, Hd, Hs, Hm. reflexivity.
Qed.

(** The directories after [process_text], whatever its result. *)
Lemma assemble_dirs (title : str) (combined prompts : list str) (w : World) :
  dirs (snd (assemble title combined prompts w))
  = match makedirs_outcome env (output_dir_of env title) with
    | None => output_dir_of env title :: dirs w
    | Some _ => dirs w
    end.
Proof.
  unfold assemble, os_makedirs.
  unfold io_bind at 1. unfold io_bind at 1. unfold emit at 1.
  unfold io_bind at 1.
  destruct (makedirs_outcome env (output_dir_of env title)) as [e|]; cbn [outcome].
  - reflexivity.
  - unfold ret at 1, add_dir at 1. cbn [dirs files trace].
    set (w1 := mkWorld _ _ _).
    change (output_dir_of env title :: dirs w) with (dirs w1).
    apply io_bind_dirs; [apply generate_images_dirs|]. intros gen w2.
    apply io_bind_dirs; [apply compose_pages_dirs|]. reflexivity.
Qed.

End Assembly.

(** C7 (as amended): whenever the pipeline of any single page (image
    generation, compositing, or the move into the output directory) fails,
    the whole call fails, so that no partial storybook is reported as
    success; nothing is cleaned up: once the output directory has been
    made it is still there when the call ends, whether the call succeeded or
    failed. *)
Theorem C7_page_failure_fails_all :
  forall (env : Env) (text : str) (w : World)
         (title : str) (combined prompts : list str),
    storybook_plan (limits env) (str_other env) text = Ok (title, combined, prompts) ->
    (forall i,
        i < length combined ->
        page_outcome env title (output_dir_of env title) i
                     (nth i combined []) (nth i prompts []) <> None ->
        exists e, fst (process_text env text w) = Err e)
    /\ (makedirs_outcome env (output_dir_of env title) = None ->
        dirs (snd (process_text env text w)) = output_dir_of env title :: dirs w).
Proof.
  intros env text w title combined prompts Hplan. split.
  - intros i Hi Hfail.
    destruct (process_text env text w) as [[[[pages out] title']|e] w'] eqn:E.
    + exfalso. apply Hfail.
      rewrite (process_text_planned env text w Hplan) in E.
      apply logging_errors_ok in E.
      apply assemble_ok in E; [|eapply plan_lengths; exact Hplan].
      destruct E as (-> & _ & _ & Hall). apply (Hall i Hi).
    + exists e. reflexivity.
  - intros Hmk.
    rewrite (process_text_planned env text w Hplan).
    rewrite logging_errors_dirs, assemble_dirs, Hmk. reflexivity.
Qed.

Lemma C7_page_failure_fails_all_witness :
  exists e, fst (process_text (failing_env 1) sample_text empty_world) = Err e.
Proof.
  apply (proj1 (@C7_page_failure_fails_all (failing_env 1) sample_text empty_world
                  sample_title sample_pages sample_prompts
                  ltac:(vm_compute; reflexivity)) 1).
  - vm_compute. lia.
  - vm_compute. discriminate.
Defined.

(** C7, the claim as stated fails: when the provider fails on the second
    page, the call fails, and the output directory and the image generated
    for the first page are still there. *)
Lemma C7_counterexample :
  fst (process_text (failing_env 1) sample_text empty_world) = Err (External 1)
  /\ dirs (snd (process_text (failing_env 1) sample_text empty_world))
     = [sample_output_dir]
  /\ files (snd (process_text (failing_env 1) sample_text empty_world))
     = [lit "generated_0.png"].
Proof.
  split; [|split]; vm_compute; reflexivity.
Qed.

(** C8: when [process_text] succeeds, its list of pages has one entry per
    segmented page, and entry i is the file of page i in the output
    directory, so that the pages come in strictly increasing page index. *)
Theorem C8_manifest_in_page_order :
  forall (env : Env) (text : str) (w w' : World)
         (pages : list str) (out title : str),
    process_text env text w = (Ok (pages, out, title), w') ->
    exists combined prompts,
      storybook_plan (limits env) (str_other env) text = Ok (title, combined, prompts)
      /\ out = output_dir_of env title
      /\ length pages = length combined
      /\ forall i, i < length pages ->
           nth i pages [] = path_join out (page_file i).
Proof.
  intros env text w w' pages out title H.
  destruct (storybook_plan (limits env) (str_other env) text) as [[[t c] p]|e] eqn:Hplan.
  - rewrite (process_text_planned env text w Hplan) in H.
    apply logging_errors_ok in H.
    apply assemble_ok in H; [|eapply plan_lengths; exact Hplan].
    destruct H as (-> & -> & Hlen & Hall).
    exists c, p. split; [reflexivity|]. split; [reflexivity|].
    split; [exact Hlen|].
    intros i Hi. apply (Hall i). rewrite <- Hlen. exact Hi.
  - pose proof (process_text_unplanned env text w Hplan) as F.
    rewrite H in F. discriminate.
Qed.

Lemma C8_manifest_in_page_order_witness :
  exists pages,
    fst (process_text sample_env sample_text empty_world)
    = Ok (pages, sample_output_dir, sample_title)
    /\ length pages = 2
    /\ nth 1 pages [] = path_join sample_output_dir (page_file 1).
Proof.
  pose proof (surjective_pairing (process_text sample_env sample_text empty_world)) as E.
  assert (F : fst (process_text sample_env sample_text empty_world)
              = Ok (map (fun i => path_join sample_output_dir (page_file i)) [0; 1],
                    sample_output_dir, sample_title))
    by (vm_compute; reflexivity).
  rewrite F in E.
  destruct (C8_manifest_in_page_order _ _ _ E) as (combined & prompts & P & O & L & N).
  exists (map (fun i => path_join sample_output_dir (page_file i)) [0; 1]).
  split; [exact F|]. split; [reflexivity|].
  apply N. vm_compute. lia.
Defined.

(** ** Further properties: the extraction, a run of the pipeline, the routes *)

(** *** What the decoder can raise, and where the braces are *)

Section ExtractionFacts.

Ltac break_in H :=
  match type of H with
  | context [match ?x with _ => _ end] => destruct x eqn:?
  | context [if ?x then _ else _] => destruct x eqn:?
  end.

Lemma scanstring_errors (n : nat) :
  forall (s : str) idx begin acc e,
    length s <= n ->
    scanstring s idx begin acc = Err e -> is_decode_error e.
Proof.
  induction n as [|n IH]; intros s idx begin acc e Hn H.
  - destruct s; [injection H as <-; exact I | simpl in Hn; lia].
  - destruct s as [|c s1]; [injection H as <-; exact I|].
    cbn [scanstring] in H.
    repeat (break_in H; try discriminate; subst; cbn [length] in *);
      try (injection H as <-; exact I);
      try (apply IH in H; [exact H | cbn [length] in *; lia]).
Qed.

Ltac err_leaf :=
  intros;
  first [discriminate
        | match goal with
          | H : Err _ = Err _ |- _ => injection H as <-; exact I
          end
        | match goal with
          | H : Ok _ = Err _ |- _ => discriminate H
          end].

Lemma decoder_errors (fuel : nat) :
  (forall md room s idx e,
      scan_once fuel md room s idx = Err e -> is_decode_error e)
  /\ (forall md room s idx acc e,
        object_members fuel md room s idx acc = Err e -> is_decode_error e)
  /\ (forall md room s idx acc e,
        array_items fuel md room s idx acc = Err e -> is_decode_error e).
Proof.
  induction fuel as [|fuel (IHs & IHo & IHa)].
  - repeat split; intros; cbn in *; err_leaf.
  - split; [|split].
    + intros md room s idx e H. destruct s as [|c s1]; [cbn in H; err_leaf|].
      cbn [scan_once] in H.
      destruct (eqc c dquote).
      { destruct (scanstring s1 (S idx) idx []) as [[r [sr ir]]|e0] eqn:E;
          cbn [bind] in H; [discriminate|].
        injection H as <-.
        eapply scanstring_errors; [apply Nat.le_refl | exact E]. }
      destruct (eqc c (chr "{")).
      { destruct room as [|room']; [err_leaf|].
        destruct (skip_ws s1 (S idx)) as [l n]. destruct l as [|d s2]; [err_leaf|].
        destruct (eqc d (chr "}")); [err_leaf|].
        destruct (eqc d dquote); [|err_leaf].
        destruct (object_members fuel md room' s2 (S n) []) as [[ps [s' i']]|e0] eqn:E;
          cbn [bind] in H; [discriminate|].
        injection H as <-. eapply IHo. exact E. }
      destruct (eqc c (chr "[")).
      { destruct room as [|room']; [err_leaf|].
        destruct (skip_ws s1 (S idx)) as [l n].
        assert (K : forall r, (let* items_rest := array_items fuel md room' l n [] in
                               Ok (JArray (fst items_rest), snd items_rest)) = Err r ->
                              is_decode_error r).
        { intros r K. destruct (array_items fuel md room' l n []) as [[vs [s' i']]|e0] eqn:E;
            cbn [bind] in K; [discriminate|].
          injection K as <-. eapply IHa. exact E. }
        destruct l as [|d s2]; [apply K; exact H|].
        destruct (eqc d (chr "]")); [err_leaf | apply K; exact H]. }
      destruct (literal (lit "null") _ _ _) as [[? [? ?]]|]; [discriminate|].
      destruct (literal (lit "true") _ _ _) as [[? [? ?]]|]; [discriminate|].
      destruct (literal (lit "false") _ _ _) as [[? [? ?]]|]; [discriminate|].
      assert (Hn : forall r,
                 match_number md (c :: s1) = Some r ->
                 match fst r with Err e0 => is_decode_error e0 | Ok _ => True end).
      { unfold match_number. intros r.
        destruct (match_integer (c :: s1)) as [[integer r1]|]; [|discriminate].
        destruct (match_frac r1) as [frac r2]. destruct (match_exp r2) as [ex r3].
        destruct frac, ex; intros K; injection K as <-; cbn [fst];
          try exact I.
        destruct (int_too_long md integer); exact I. }
      destruct (match_number md (c :: s1)) as [[[v|e0] [r n]]|].
      { discriminate. }
      { specialize (Hn _ eq_refl). cbn [fst] in Hn. injection H as <-. exact Hn. }
      repeat match type of H with
             | context [literal ?w ?v ?s ?i] =>
                 destruct (literal w v s i) as [[? [? ?]]|]; [discriminate|]
             end.
      err_leaf.
    + intros md room s idx acc e H. cbn [object_members] in H.
      destruct (scanstring s idx (idx - 1) []) as [[key [s1 i1]]|e0] eqn:E;
        cbn [bind] in H;
        [|injection H as <-; eapply scanstring_errors; [apply Nat.le_refl | exact E]].
      destruct (skip_ws s1 i1) as [l0 n0]. destruct l0 as [|c s3]; [err_leaf|].
      destruct (eqc c (chr ":")); [|err_leaf].
      destruct (skip_ws s3 (S n0)) as [l1 n1].
      destruct (scan_once fuel md room l1 n1) as [[v [s5 i5]]|e0] eqn:E2;
        cbn [bind] in H;
        [|injection H as <-; eapply IHs; exact E2].
      destruct (skip_ws s5 i5) as [l2 n2]. destruct l2 as [|d s7]; [err_leaf|].
      destruct (eqc d (chr "}")); [err_leaf|].
      destruct (eqc d (chr ",")); [|err_leaf].
      destruct (skip_ws s7 (S n2)) as [l3 n3]. destruct l3 as [|q s9]; [err_leaf|].
      destruct (eqc q dquote); [|err_leaf].
      eapply IHo. exact H.
    + intros md room s idx acc e H. cbn [array_items] in H.
      destruct (scan_once fuel md room s idx) as [[v [s1 i1]]|e0] eqn:E;
        cbn [bind] in H;
        [|injection H as <-; eapply IHs; exact E].
      destruct (skip_ws s1 i1) as [l n]. destruct l as [|d s3]; [err_leaf|].
      destruct (eqc d (chr "]")); [err_leaf|].
      destruct (eqc d (chr ",")); [|err_leaf].
      destruct (skip_ws s3 (S n)) as [l0 n0].
      eapply IHa. exact H.
Qed.

(** Whatever [json.loads] raises is a [JSONDecodeError], or the
    [RecursionError] of a document nested too deep, or the [ValueError] of
    an [int] literal with too many digits. *)
Lemma loads_errors (lim : Limits) (s : str) (e : exn) :
  loads lim s = Err e ->
  (exists msg pos, e = JSONDecodeError msg pos)
  \/ e = RecursionError \/ e = ValueError.
Proof.
  intros H.
  assert (D : is_decode_error e).
  { unfold loads in H.
    assert (K : decode lim s = Err e -> is_decode_error e).
    { unfold decode, decode_with. destruct (skip_ws s 0) as [l n].
      destruct (scan_once (2 * length s + 2) (int_max_str_digits lim)
                  (recursion_room lim) l n) as [[v [s1 i1]]|e0] eqn:E;
        cbn [bind].
      - destruct (skip_ws s1 i1) as [[|x s2] i2]; intros K;
          [discriminate | injection K as <-; exact I].
      - intros K. injection K as <-.
        eapply (proj1 (decoder_errors _)). exact E. }
    destruct s as [|c s']; [apply K; exact H|].
    destruct (c =? 65279)%N; [injection H as <-; exact I | apply K; exact H]. }
  destruct e; try contradiction; eauto.
Qed.

(** A text that starts with an opening brace decodes to an object, if it
    decodes at all. *)
Lemma loads_object (lim : Limits) (rest : str) (v : value) :
  loads lim (chr "{" :: rest) = Ok v -> exists pairs, v = JObject pairs.
Proof.
  unfold loads. change (chr "{" =? 65279)%N with false. cbv iota.
  unfold decode, decode_with. cbn [skip_ws].
  change (is_ws (chr "{")) with false. cbv iota.
  replace (2 * length (chr "{" :: rest) + 2) with (S (2 * length rest + 3))
    by (cbn [length]; lia).
  cbn [scan_once].
  change (eqc (chr "{") dquote) with false.
  change (eqc (chr "{") (chr "{")) with true. cbv iota.
  destruct (recursion_room lim) as [|room']; [discriminate|].
  destruct (skip_ws rest 1) as [l n].
  intros H.
  destruct l as [|d s2]; [discriminate|].
  destruct (eqc d (chr "}")).
  - cbn [bind] in H. destruct (skip_ws s2 (S n)) as [[|x s3] i3]; [|discriminate].
    injection H as <-. eauto.
  - destruct (eqc d dquote); [|discriminate].
    destruct (object_members (2 * length rest + 3) (int_max_str_digits lim) room'
                s2 (S n) []) as [[ps [s' i']]|e];
      cbn [bind fst snd] in H; [|discriminate].
    destruct (skip_ws s' i') as [[|x s3] i3]; [|discriminate].
    injection H as <-. eauto.
Qed.

Lemma eqs_true (a b : str) : eqs a b = true <-> a = b.
Proof.
  revert b. induction a as [|x a IH]; intros [|y b]; cbn [eqs];
    try (split; [discriminate | discriminate]); [tauto|].
  rewrite andb_true_iff, eqc_true, IH. split.
  - intros [-> ->]. reflexivity.
  - intros H. injection H as -> ->. split; reflexivity.
Qed.

Lemma dict_get_absent (key : str) (pairs : list (str * value)) :
  dict_get key pairs = None <-> forall v, ~ In (key, v) pairs.
Proof.
  induction pairs as [|[k v] rest IH]; cbn [dict_get].
  - split; [intros _ v H; exact H | reflexivity].
  - destruct (dict_get key rest) as [v'|] eqn:E.
    + split; [discriminate|]. intros H. exfalso.
      assert (N : Some v' = None) by (apply IH; intros v0 H0; apply (H v0); right; exact H0).
      discriminate.
    + destruct (eqs k key) eqn:Ek.
      * split; [discriminate|]. intros H. exfalso.
        apply eqs_true in Ek. subst k. apply (H v). left; reflexivity.
      * split; [|reflexivity]. intros _ v0 [H|H].
        -- injection H as -> _.
           assert (T : eqs key key = true) by (apply eqs_true; reflexivity).
           congruence.
        -- revert H. apply (proj1 IH eq_refl).
Qed.

Lemma first_occurrence (c : char) (s : str) :
  In c s -> exists pre post, s = pre ++ c :: post /\ ~ In c pre.
Proof.
  induction s as [|d s IH]; intros H; [contradiction|].
  destruct (N.eq_dec d c) as [->|Hd].
  - exists [], s. split; [reflexivity | intros []].
  - destruct H as [H|H]; [contradiction|].
    destruct (IH H) as (pre & post & -> & Hn).
    exists (d :: pre), post. split; [reflexivity|].
    intros [E|E]; [contradiction | exact (Hn E)].
Qed.

Lemma last_occurrence (c : char) (s : str) :
  In c s -> exists pre post, s = pre ++ c :: post /\ ~ In c post.
Proof.
  induction s as [|d s IH]; intros H; [contradiction|].
  destruct (in_dec N.eq_dec c s) as [Hs|Hs].
  - destruct (IH Hs) as (pre & post & -> & Hn).
    exists (d :: pre), post. split; [reflexivity | exact Hn].
  - destruct H as [H|H]; [|contradiction]. subst d.
    exists [], s. split; [reflexivity | exact Hs].
Qed.

(** The text handed to the decoder when the payload lies between a prefix
    without opening brace and a suffix without closing brace. *)
Lemma json_string_embedded (pre mid post : str) :
  ~ In (chr "{") pre ->
  ~ In (chr "}") post ->
  json_string_of (pre ++ (chr "{" :: mid ++ [chr "}"]) ++ post)
  = chr "{" :: mid ++ [chr "}"].
Proof.
  intros Hp Hs. unfold json_string_of, find, rfind.
  change (lit "{") with [chr "{"]. change (lit "}") with [chr "}"].
  assert (E1 : find_from [chr "{"]
                 (pre ++ (chr "{" :: mid ++ [chr "}"]) ++ post) 0
               = Z.of_nat (length pre)).
  { cbn [app]. rewrite find_from_first by exact Hp. reflexivity. }
  assert (E2 : rfind_from [chr "}"]
                 (pre ++ (chr "{" :: mid ++ [chr "}"]) ++ post) 0 (-1)%Z
               = Z.of_nat (length pre + length mid + 1)).
  { replace (pre ++ (chr "{" :: mid ++ [chr "}"]) ++ post)
      with ((pre ++ chr "{" :: mid) ++ chr "}" :: post)
      by (cbn [app]; rewrite <- !app_assoc; reflexivity).
    rewrite rfind_from_last by exact Hs.
    rewrite length_app. cbn [length]. f_equal. lia. }
  rewrite E1, E2.
  replace (Z.of_nat (length pre + length mid + 1) + 1)%Z
    with (Z.of_nat (length pre + length (chr "{" :: mid ++ [chr "}"])))
    by (cbn [length]; rewrite length_app; cbn [length]; lia).
  apply slice_middle.
Qed.

(** What is handed to the decoder: nothing, a lone closing brace, or the
    span from the first opening brace to the last closing brace. *)
Lemma json_string_cases (text : str) :
  json_string_of text = []
  \/ json_string_of text = [chr "}"]
  \/ exists pre mid post,
       text = pre ++ (chr "{" :: mid ++ [chr "}"]) ++ post
       /\ ~ In (chr "{") pre
       /\ ~ In (chr "}") post
       /\ json_string_of text = chr "{" :: mid ++ [chr "}"].
Proof.
  destruct (in_dec N.eq_dec (chr "}") text) as [Hc|Hc].
  2:{ left. unfold json_string_of, rfind. change (lit "}") with [chr "}"].
      rewrite rfind_from_absent by exact Hc. apply slice_to_zero. }
  destruct (last_occurrence _ _ Hc) as (bef & post & Eb & Hpost).
  destruct (in_dec N.eq_dec (chr "{") text) as [Ho|Ho].
  - destruct (first_occurrence _ _ Ho) as (pre & aft & Ea & Hpre).
    destruct (Nat.lt_ge_cases (length pre) (length bef)) as [L|L].
    + right; right.
      assert (S : exists mid, bef = pre ++ chr "{" :: mid).
      { rewrite Ea in Eb. apply app_eq_app in Eb.
        destruct Eb as (l & [[E1 E2]|[E1 E2]]).
        - apply (f_equal (@length char)) in E1. rewrite length_app in E1. lia.
        - destruct l as [|x l].
          + rewrite app_nil_r in E1. subst bef. lia.
          + cbn [app] in E2. injection E2 as <- _. exists l. exact E1. }
      destruct S as (mid & ->).
      exists pre, mid, post.
      assert (T : text = pre ++ (chr "{" :: mid ++ [chr "}"]) ++ post).
      { rewrite Eb. cbn [app]. rewrite <- !app_assoc. reflexivity. }
      split; [exact T|]. split; [exact Hpre|]. split; [exact Hpost|].
      rewrite T. apply json_string_embedded; assumption.
    + left.
      assert (Ne : length pre <> length bef).
      { intros E. rewrite Ea in Eb. apply app_eq_app in Eb.
        destruct Eb as (l & [[E1 E2]|[E1 E2]]);
          apply (f_equal (@length char)) in E1; rewrite length_app in E1;
          destruct l; cbn [length] in E1; try lia;
          cbn [app] in E2; discriminate. }
      assert (F : find text (lit "{") = Z.of_nat (length pre)).
      { unfold find. change (lit "{") with [chr "{"]. rewrite Ea.
        rewrite find_from_first by exact Hpre. reflexivity. }
      assert (R : rfind text (lit "}") = Z.of_nat (length bef)).
      { unfold rfind. change (lit "}") with [chr "}"]. rewrite Eb.
        rewrite rfind_from_last by exact Hpost. reflexivity. }
      unfold json_string_of. rewrite F, R. unfold slice.
      replace (Z.of_nat (length bef) + 1)%Z with (Z.of_nat (S (length bef))) by lia.
      rewrite !clamp_nat.
      replace (Nat.min (S (length bef)) (length text) - Nat.min (length pre) (length text))
        with 0 by lia.
      reflexivity.
  - assert (Hcut : json_string_of text = [] \/ json_string_of text = [chr "}"]).
    { assert (F : find text (lit "{") = (-1)%Z).
      { unfold find. change (lit "{") with [chr "{"].
        apply find_from_absent. exact Ho. }
      assert (R : rfind text (lit "}") = Z.of_nat (length bef)).
      { unfold rfind. change (lit "}") with [chr "}"]. rewrite Eb.
        rewrite rfind_from_last by exact Hpost. reflexivity. }
      unfold json_string_of. rewrite F, R.
      replace (Z.of_nat (length bef) + 1)%Z with (Z.of_nat (S (length bef))) by lia.
      assert (Hlen : length text = length bef + S (length post))
        by (rewrite Eb, length_app; reflexivity).
      unfold slice. rewrite clamp_nat.
      replace (clamp (length text) (-1)) with (length text - 1)
        by (unfold clamp; cbn [Z.ltb Z.compare]; lia).
      rewrite (Nat.min_l (S (length bef))) by lia.
      destruct post as [|x post].
      - right. replace (S (length bef) - (length text - 1)) with 1
          by (cbn [length] in Hlen; lia).
        replace (length text - 1) with (length bef) by (cbn [length] in Hlen; lia).
        apply firstn_one_skipn. rewrite Eb.
        rewrite nth_error_app2, Nat.sub_diag by lia. reflexivity.
      - left. replace (S (length bef) - (length text - 1)) with 0
          by (cbn [length] in Hlen; lia).
        reflexivity. }
    destruct Hcut as [H|H]; [left | right; left]; exact H.
Qed.

Lemma story_elements_of_json_string (lim : Limits) (text : str) :
  story_elements lim text = payload_fields lim (json_string_of text).
Proof. reflexivity. Qed.

End ExtractionFacts.

(** *** [extract_story_elements] *)

Section ExtractionProperties.

Lemma object_fields_kinds (pairs : list (str * value)) :
  match
    (let* title := getitem_str (JObject pairs) (lit "title") in
     let* story := getitem_str (JObject pairs) (lit "story") in
     let* moral := getitem_str (JObject pairs) (lit "moral") in
     let* image_prompts := getitem_str (JObject pairs) (lit "imagePrompts") in
     Ok (title, story, moral, image_prompts))
  with
  | Ok _ => True
  | Err e => exists key, In key required_keys /\ e = KeyError key
  end.
Proof.
  cbn [getitem_str].
  destruct (dict_get (lit "title") pairs); cbn [bind];
    [|exists (lit "title"); split; [cbn; tauto | reflexivity]].
  destruct (dict_get (lit "story") pairs); cbn [bind];
    [|exists (lit "story"); split; [cbn; tauto | reflexivity]].
  destruct (dict_get (lit "moral") pairs); cbn [bind];
    [|exists (lit "moral"); split; [cbn; tauto | reflexivity]].
  destruct (dict_get (lit "imagePrompts") pairs); cbn [bind];
    [exact I | exists (lit "imagePrompts"); split; [cbn; tauto | reflexivity]].
Qed.

Lemma story_elements_kinds (lim : Limits) (text : str) :
  match story_elements lim text with
  | Ok _ => True
  | Err e => caught_by_extract e \/ e = RecursionError \/ e = ValueError
  end.
Proof.
  rewrite story_elements_of_json_string.
  destruct (json_string_cases text) as [E|[E|(pre & mid & post & _ & _ & _ & E)]];
    rewrite E.
  - left. left. eexists. eexists. reflexivity.
  - left. left. eexists. eexists. reflexivity.
  - unfold payload_fields.
    destruct (loads lim (chr "{" :: mid ++ [chr "}"])) as [v|e] eqn:L; cbn [bind].
    + destruct (loads_object _ _ L) as (pairs & ->).
      pose proof (object_fields_kinds pairs) as K.
      destruct (let* title := getitem_str (JObject pairs) (lit "title") in _);
        [exact I | left; right; exact K].
    + destruct (loads_errors _ _ L) as [K|K]; [left; left; exact K | right; exact K].
Qed.

(** What [extract_story_elements] does with the outcome of its body. *)
Lemma extract_run (lim : Limits) (text : str) (w : World) :
  extract_story_elements lim text w
  = match story_elements lim text with
    | Ok fields => (Ok fields, w)
    | Err e =>
        (Err e,
         if extract_catches e
         then mkWorld (dirs w) (files w) (Logged InExtract e :: trace w)
         else w)
    end.
Proof.
  pose proof (story_elements_kinds lim text) as K.
  unfold extract_story_elements.
  destruct (story_elements lim text) as [fields|e]; [reflexivity|].
  destruct K as [[(msg & pos & ->)|(key & _ & ->)]|[->| ->]]; reflexivity.
Qed.

(** X1: whatever [extract_story_elements] raises is a [JSONDecodeError], a
    [KeyError] for one of the four keys, or one of the two errors with which
    [json.loads] gives up on a document that is too much for the
    interpreter: [RecursionError] (nested too deep) and [ValueError] (an
    [int] literal of too many digits).  The first two are caught by the
    [except] clause and logged exactly once; the last two are not named by
    it and pass through without a log entry.  A success logs nothing.  A
    [TypeError] cannot arise, since a text cut at an opening brace decodes
    to an object or not at all. *)
Theorem X1_extract_failures_are_logged :
  forall (lim : Limits) (text : str) (w : World),
    match story_elements lim text with
    | Ok fields => extract_story_elements lim text w = (Ok fields, w)
    | Err e =>
        (caught_by_extract e
         /\ extract_story_elements lim text w
            = (Err e, mkWorld (dirs w) (files w) (Logged InExtract e :: trace w)))
        \/ ((e = RecursionError \/ e = ValueError)
            /\ extract_story_elements lim text w = (Err e, w))
    end.
Proof.
  intros lim text w. pose proof (story_elements_kinds lim text) as K.
  rewrite extract_run.
  destruct (story_elements lim text) as [fields|e]; [reflexivity|].
  destruct K as [K|K].
  - left. split; [exact K|].
    destruct K as [(msg & pos & ->)|(key & _ & ->)]; reflexivity.
  - right. split; [exact K|]. destruct K as [->| ->]; reflexivity.
Qed.

(** Both limits can be hit: with room for two nested calls a document of
    three nested containers raises [RecursionError], and with the limit at
    700 digits a literal of 701 digits raises [ValueError]; neither is
    logged by [extract_story_elements]. *)
Lemma extract_hits_the_limits :
  extract_story_elements (mkLimits 2 4300) nested_thrice empty_world
  = (Err RecursionError, empty_world)
  /\ extract_story_elements (mkLimits 990 700) long_literal empty_world
     = (Err ValueError, empty_world).
Proof. split; vm_compute; reflexivity. Qed.

Lemma dict_get_present (key : str) (pairs : list (str * value)) (v : value) :
  In (key, v) pairs -> exists v', dict_get key pairs = Some v'.
Proof.
  intros H. destruct (dict_get key pairs) as [v'|] eqn:E; [eauto|].
  exfalso. exact (proj1 (dict_get_absent key pairs) E v H).
Qed.

(** X2: when the decoded object lacks one of the four keys, extraction
    raises [KeyError] for the first key, in the order title, story, moral,
    imagePrompts, that the object lacks, and logs it. *)
Theorem X2_missing_key_is_reported :
  forall (lim : Limits) (text : str) (pairs : list (str * value))
         (before : list str) (key : str) (after : list str) (w : World),
    loads lim (json_string_of text) = Ok (JObject pairs) ->
    required_keys = before ++ key :: after ->
    (forall k, In k before -> exists v, In (k, v) pairs) ->
    (forall v, ~ In (key, v) pairs) ->
    extract_story_elements lim text w
    = (Err (KeyError key),
       mkWorld (dirs w) (files w) (Logged InExtract (KeyError key) :: trace w)).
Proof.
  intros lim text pairs before key after w L R Hb Hk.
  assert (S : story_elements lim text = Err (KeyError key)).
  { rewrite story_elements_of_json_string. unfold payload_fields.
    rewrite L. cbn [bind getitem_str].
    apply dict_get_absent in Hk.
    assert (P : forall k, In k before -> exists v, dict_get k pairs = Some v).
    { intros k Hin. destruct (Hb k Hin) as (v & Hv).
      eapply dict_get_present. exact Hv. }
    unfold required_keys in R.
    destruct before as [|b1 [|b2 [|b3 [|b4 more]]]]; cbn [app] in R.
    - injection R as <- _. rewrite Hk. reflexivity.
    - injection R as <- <- _.
      destruct (P (lit "title") ltac:(cbn; tauto)) as (v1 & ->).
      cbn [bind]. rewrite Hk. reflexivity.
    - injection R as <- <- <- _.
      destruct (P (lit "title") ltac:(cbn; tauto)) as (v1 & ->).
      destruct (P (lit "story") ltac:(cbn; tauto)) as (v2 & ->).
      cbn [bind]. rewrite Hk. reflexivity.
    - injection R as <- <- <- <- _.
      destruct (P (lit "title") ltac:(cbn; tauto)) as (v1 & ->).
      destruct (P (lit "story") ltac:(cbn; tauto)) as (v2 & ->).
      destruct (P (lit "moral") ltac:(cbn; tauto)) as (v3 & ->).
      cbn [bind]. rewrite Hk. reflexivity.
    - exfalso. injection R as _ _ _ _ R. destruct more; discriminate. }
  unfold extract_story_elements. rewrite S. reflexivity.
Qed.

Lemma X2_missing_key_is_reported_witness :
  fst (extract_story_elements sample_limits
         (lit "{" ++ member (lit "title") (quoted (lit "T")) ++ lit "}")
         empty_world)
  = Err (KeyError (lit "story")).
Proof.
  rewrite (@X2_missing_key_is_reported sample_limits
             (lit "{" ++ member (lit "title") (quoted (lit "T")) ++ lit "}")
             [(lit "title", JString (lit "T"))]
             [lit "title"] (lit "story") [lit "moral"; lit "imagePrompts"]
             empty_world).
  - reflexivity.
  - vm_compute. reflexivity.
  - reflexivity.
  - intros k [<-|[]]. exists (JString (lit "T")). left. reflexivity.
  - intros v [H|[]]. vm_compute in H. discriminate.
Defined.

(** X3: extraction succeeds only on a text with an opening brace and, after
    it, a closing brace; what it returns are the fields of the object that
    spans from the first opening brace to the last closing brace. *)
Theorem X3_success_decodes_the_brace_span :
  forall (lim : Limits) (text : str) (fields : value * value * value * value),
    story_elements lim text = Ok fields ->
    exists pre mid post pairs,
      text = pre ++ (chr "{" :: mid ++ [chr "}"]) ++ post
      /\ ~ In (chr "{") pre
      /\ ~ In (chr "}") post
      /\ loads lim (chr "{" :: mid ++ [chr "}"]) = Ok (JObject pairs)
      /\ payload_fields lim (chr "{" :: mid ++ [chr "}"]) = Ok fields.
Proof.
  intros lim text fields H. rewrite story_elements_of_json_string in H.
  destruct (json_string_cases text) as [E|[E|(pre & mid & post & T & Hp & Hs & E)]];
    rewrite E in H; [discriminate | discriminate |].
  exists pre, mid, post.
  destruct (loads lim (chr "{" :: mid ++ [chr "}"])) as [v|e] eqn:L.
  - destruct (loads_object _ _ L) as (pairs & ->).
    exists pairs. repeat split; assumption.
  - unfold payload_fields in H. rewrite L in H. discriminate.
Qed.

Lemma X3_success_decodes_the_brace_span_witness :
  exists pre mid post,
    sample_text = pre ++ (chr "{" :: mid ++ [chr "}"]) ++ post
    /\ payload_fields sample_limits (chr "{" :: mid ++ [chr "}"]) = Ok sample_fields.
Proof.
  destruct (@X3_success_decodes_the_brace_span sample_limits sample_text
              sample_fields)
    as (pre & mid & post & pairs & T & _ & _ & _ & P).
  - vm_compute. reflexivity.
  - exists pre, mid, post. split; assumption.
Defined.

End ExtractionProperties.

(** *** The sanitized title *)

Section SanitizationProperties.

Lemma sub_clean (cls : char -> bool) (repl s : str) (b : bool) :
  Forall (fun c => cls c = false) repl ->
  Forall (fun c => cls c = false) (re_sub_class_plus cls repl s b).
Proof.
  intros Hr. revert b. induction s as [|c s IH]; intros b.
  - constructor.
  - cbn [re_sub_class_plus]. destruct (cls c) eqn:E.
    + apply Forall_app. split; [destruct b; [constructor | exact Hr] | apply IH].
    + constructor; [exact E | apply IH].
Qed.

Lemma sub_length (cls : char -> bool) (repl s : str) (b : bool) :
  length repl <= 1 ->
  length (re_sub_class_plus cls repl s b) <= length s.
Proof.
  intros Hr. revert b. induction s as [|c s IH]; intros b.
  - cbn. lia.
  - cbn [re_sub_class_plus]. destruct (cls c).
    + rewrite length_app. specialize (IH true).
      destruct b; cbn [length]; lia.
    + cbn [length]. specialize (IH false). lia.
Qed.

(** X4: the sanitized title holds none of the characters of the set, is
    never longer than the title, and sanitizing it again changes nothing. *)
Theorem X4_sanitized_title_is_clean :
  forall (s : str),
    Forall (fun c => is_special c = false) (replace_special_chars s)
    /\ length (replace_special_chars s) <= length s
    /\ replace_special_chars (replace_special_chars s) = replace_special_chars s.
Proof.
  intros s.
  assert (C : Forall (fun c => is_special c = false) (replace_special_chars s)).
  { apply sub_clean. repeat constructor. }
  split; [exact C|]. split.
  - apply sub_length. cbn. lia.
  - apply sub_unaffected. exact C.
Qed.

End SanitizationProperties.

(** *** Page files and the output directory *)

Section PathProperties.

Lemma lit_cons (a : ascii) (s : string) :
  lit (String a s) = N_of_ascii a :: lit s.
Proof. reflexivity. Qed.

Lemma lit_injective (a b : string) : lit a = lit b -> a = b.
Proof.
  revert b. induction a as [|x a IH]; intros [|y b] H; try discriminate.
  - reflexivity.
  - rewrite !lit_cons in H. injection H as Hx Hs.
    apply (f_equal ascii_of_N) in Hx. rewrite !ascii_N_embedding in Hx.
    subst y. f_equal. apply IH. exact Hs.
Qed.

Lemma uint_chars (d : Decimal.uint) :
  Forall is_digit_or_minus (lit (NilEmpty.string_of_uint d)).
Proof.
  induction d; cbn [NilEmpty.string_of_uint];
    [constructor
    | rewrite lit_cons; constructor; [right; reflexivity | assumption] ..].
Qed.

(** [str(n)] is made of digits, after a minus sign if [n] is negative. *)
Lemma str_of_int_chars (z : Z) : Forall is_digit_or_minus (str_of_int z).
Proof.
  unfold str_of_int, NilZero.string_of_int, NilZero.string_of_uint.
  destruct (Z.to_int z) as [d|d].
  - destruct d; try apply uint_chars.
    constructor; [right; reflexivity | constructor].
  - rewrite lit_cons. constructor; [left; reflexivity|].
    destruct d; try apply uint_chars.
    constructor; [right; reflexivity | constructor].
Qed.

Lemma to_int_normal (z : Z) : Z.to_int z = Decimal.norm (Z.to_int z).
Proof.
  rewrite <- (DecimalZ.to_of (Z.to_int z)), DecimalZ.of_to. reflexivity.
Qed.

Lemma str_of_int_injective (a b : Z) : str_of_int a = str_of_int b -> a = b.
Proof.
  unfold str_of_int. intros H. apply lit_injective in H.
  assert (N : forall z, Z.to_int z <> Decimal.Pos Decimal.Nil
                        /\ Z.to_int z <> Decimal.Neg Decimal.Nil).
  { intros z. pose proof (to_int_normal z) as E.
    split; intros K; rewrite K in E; discriminate. }
  apply (f_equal NilZero.int_of_string) in H.
  rewrite !NilZero.isi in H by apply N.
  injection H as H.
  rewrite <- (DecimalZ.of_to a), <- (DecimalZ.of_to b), H. reflexivity.
Qed.

Lemma page_file_injective (i j : nat) : page_file i = page_file j -> i = j.
Proof.
  unfold page_file. intros H.
  apply app_inv_head in H. apply app_inv_tail in H.
  apply str_of_int_injective in H. lia.
Qed.

Lemma page_file_relative (i : nat) : startswith (lit "/") (page_file i) = false.
Proof. reflexivity. Qed.

Lemma path_join_page_injective (out : str) (i j : nat) :
  path_join out (page_file i) = path_join out (page_file j) -> i = j.
Proof.
  unfold path_join. rewrite !page_file_relative.
  destruct (rev out) as [|c r].
  - apply page_file_injective.
  - destruct (eqc c (chr "/")); intros H.
    + apply app_inv_head in H. apply page_file_injective. exact H.
    + apply app_inv_head in H. apply app_inv_head in H.
      apply page_file_injective. exact H.
Qed.

Lemma replace_single (o n : char) (s : str) :
  replace s [o] [n] = map (fun c => if eqc o c then n else c) s.
Proof.
  unfold replace. induction s as [|c s IH]; [reflexivity|].
  cbn [replace_go map]. rewrite startswith_single_head.
  cbn [length Nat.sub]. destruct (eqc o c); cbn [app]; rewrite IH; reflexivity.
Qed.

(** The folder of a sanitized title holds neither a slash nor a space, and
    the output directory is that folder inside static/storybooks. *)
Lemma output_dir_shape (env : Env) (title_raw : str) :
  exists folder,
    folder = replace (replace_special_chars title_raw) (lit " ") (lit "_")
             ++ lit "_" ++ str_of_int (time_time env)
    /\ output_dir_of env (replace_special_chars title_raw)
       = lit "static/storybooks/" ++ folder
    /\ ~ In (chr "/") folder
    /\ ~ In (chr " ") folder.
Proof.
  eexists. split; [reflexivity|].
  set (title := replace_special_chars title_raw).
  assert (C : Forall (fun c => is_special c = false) title)
    by (apply sub_clean; repeat constructor).
  assert (F : Forall (fun c => c <> chr "/" /\ c <> chr " ")
                (replace title (lit " ") (lit "_") ++ lit "_"
                 ++ str_of_int (time_time env))).
  { apply Forall_app. split; [|apply Forall_app; split].
    - change (lit " ") with [chr " "]. change (lit "_") with [chr "_"].
      rewrite replace_single. apply Forall_map.
      eapply Forall_impl; [|exact C]. intros c Hc. cbv beta.
      destruct (eqc (chr " ") c) eqn:E.
      + split; discriminate.
      + split.
        * intros ->. discriminate Hc.
        * intros ->. discriminate E.
    - repeat constructor; discriminate.
    - eapply Forall_impl; [|apply str_of_int_chars].
      intros c [->|Hd]; split; try discriminate; intros ->; discriminate Hd. }
  split; [|split].
  - unfold output_dir_of. fold title.
    set (folder := replace title (lit " ") (lit "_") ++ lit "_"
                   ++ str_of_int (time_time env)) in *.
    change (path_join (lit "static") (lit "storybooks")) with (lit "static/storybooks").
    unfold path_join.
    assert (S : startswith (lit "/") folder = false).
    { destruct folder as [|c f]; [reflexivity|].
      inversion F as [|? ? [Hc _] _]; subst.
      change (lit "/") with [chr "/"]. rewrite startswith_single_head.
      destruct (eqc (chr "/") c) eqn:E; [|reflexivity].
      apply eqc_true in E. congruence. }
    rewrite S. reflexivity.
  - intros H. rewrite Forall_forall in F. destruct (F _ H) as [K _]. congruence.
  - intros H. rewrite Forall_forall in F. destruct (F _ H) as [_ K]. congruence.
Qed.

End PathProperties.

Section Runs.

Variable env : Env.

(** *** The collaborators, run *)

Lemma os_makedirs_run (path : str) (w : World) :
  os_makedirs env path w
  = match makedirs_outcome env path with
    | None => (Ok tt, mkWorld (path :: dirs w) (files w) (MakeDirs path :: trace w))
    | Some e => (Err e, mkWorld (dirs w) (files w) (MakeDirs path :: trace w))
    end.
Proof.
  unfold os_makedirs, io_bind, emit, outcome, add_dir.
  destruct (makedirs_outcome env path); reflexivity.
Qed.

Lemma generate_image_run (model prompt negative title : str) (i : nat) (w : World) :
  generate_image env model prompt negative title i w
  = match generate_image_outcome env model prompt negative title i with
    | Ok path =>
        (Ok path,
         mkWorld (dirs w) (path :: files w)
           (GenerateImage model prompt negative title i :: trace w))
    | Err e =>
        (Err e,
         mkWorld (dirs w) (files w)
           (GenerateImage model prompt negative title i :: trace w))
    end.
Proof.
  unfold generate_image, io_bind, emit, lift, add_file, ret.
  destruct (generate_image_outcome env model prompt negative title i); reflexivity.
Qed.

Lemma fill_forty (a d : char -> bool) (text : str) :
  exists wrapped, Textwrap.fill a d text 40 = Ok wrapped.
Proof. eexists. reflexivity. Qed.

Lemma add_text_to_image_run (image_path text output_path : str) (w : World) :
  add_text_to_image env image_path text output_path w
  = match image_open_outcome env image_path with
    | Some e =>
        (Err e, mkWorld (dirs w) (files w)
                  (Logged InAddText e :: OpenImage image_path :: trace w))
    | None =>
        match draw_outcome env image_path (wrapped_caption env text) with
        | Some e =>
            (Err e, mkWorld (dirs w) (files w)
                      (Logged InAddText e
                       :: DrawText image_path (wrapped_caption env text)
                       :: OpenImage image_path :: trace w))
        | None =>
            match image_save_outcome env output_path with
            | Some e =>
                (Err e, mkWorld (dirs w) (files w)
                          (Logged InAddText e :: SaveImage output_path
                           :: DrawText image_path (wrapped_caption env text)
                           :: OpenImage image_path :: trace w))
            | None =>
                (Ok output_path,
                 mkWorld (dirs w) (output_path :: files w)
                   (SaveImage output_path
                    :: DrawText image_path (wrapped_caption env text)
                    :: OpenImage image_path :: trace w))
            end
        end
    end.
Proof.
  unfold add_text_to_image, logging_errors, io_bind, emit, outcome, lift,
    add_file, ret, raise, wrapped_caption.
  destruct (fill_forty (alnum_hi env) (decimal_hi env) text) as (wrapped & ->).
  cbn [dirs files trace].
  destruct (image_open_outcome env image_path); [reflexivity|].
  destruct (draw_outcome env image_path wrapped); [reflexivity|].
  destruct (image_save_outcome env output_path); reflexivity.
Qed.

Lemma shutil_move_run (src dst : str) (w : World) :
  shutil_move env src dst w
  = match move_outcome env src dst with
    | None =>
        (Ok tt,
         mkWorld (dirs w)
           (dst :: filter (fun f => negb (eqs f src)) (files w))
           (Move src dst :: trace w))
    | Some e => (Err e, mkWorld (dirs w) (files w) (Move src dst :: trace w))
    end.
Proof.
  unfold shutil_move, io_bind, emit, outcome, remove_file, add_file.
  destruct (move_outcome env src dst); reflexivity.
Qed.

End Runs.

(** *** The loops over the pages *)

Section Loops.

Lemma io_map_trace (A B : Type) (f : A -> io B) (ev : A -> list event)
      (g : A -> B) (l : list A) :
  (forall x w1 y w2, f x w1 = (Ok y, w2) ->
                     trace w2 = rev (ev x) ++ trace w1 /\ y = g x) ->
  forall w ys w',
    io_map f l w = (Ok ys, w') ->
    trace w' = rev (flat_map ev l) ++ trace w /\ ys = map g l.
Proof.
  intros Hf. induction l as [|x l IH]; intros w ys w' H.
  - cbn in H. injection H as <- <-. split; reflexivity.
  - cbn [io_map] in H.
    apply io_bind_ok in H. destruct H as (y & w1 & Hy & H).
    apply io_bind_ok in H. destruct H as (ys' & w2 & Hys & H).
    cbn in H. injection H as <- <-.
    destruct (Hf _ _ _ _ Hy) as [T1 ->].
    destruct (IH _ _ _ Hys) as [T2 ->].
    split; [|reflexivity].
    cbn [flat_map]. rewrite rev_app_distr, <- app_assoc, T2, T1. reflexivity.
Qed.

Lemma io_map_frame (A B : Type) (f : A -> io B) (P : event -> Prop) (l : list A) :
  (forall x w1, exists added,
      trace (snd (f x w1)) = added ++ trace w1 /\ Forall P added) ->
  forall w, exists added,
    trace (snd (io_map f l w)) = added ++ trace w /\ Forall P added.
Proof.
  intros Hf. induction l as [|x l IH]; intros w.
  - exists []. split; [reflexivity | constructor].
  - cbn [io_map]. unfold io_bind at 1.
    destruct (Hf x w) as (a1 & T1 & P1).
    destruct (f x w) as [[y|e] w1]; cbn [snd] in T1.
    + unfold io_bind, ret. destruct (IH w1) as (a2 & T2 & P2).
      destruct (io_map f l w1) as [[ys|e] w2]; cbn [snd] in *.
      * exists (a2 ++ a1). rewrite T2, T1, app_assoc.
        split; [reflexivity | apply Forall_app; split; assumption].
      * exists (a2 ++ a1). rewrite T2, T1, app_assoc.
        split; [reflexivity | apply Forall_app; split; assumption].
    + exists a1. split; assumption.
Qed.

Lemma io_map_complete (A B : Type) (f : A -> io B) (g : A -> B) (l : list A) :
  (forall x, In x l -> forall w1, exists w2, f x w1 = (Ok (g x), w2)) ->
  forall w, exists w', io_map f l w = (Ok (map g l), w').
Proof.
  induction l as [|x l IH]; intros Hf w.
  - exists w. reflexivity.
  - cbn [io_map map]. unfold io_bind.
    destruct (Hf x (or_introl eq_refl) w) as (w1 & ->).
    destruct (IH (fun y Hy => Hf y (or_intror Hy)) w1) as (w2 & ->).
    exists w2. reflexivity.
Qed.

Lemma io_map_fails (A B : Type) (f : A -> io B) (l : list A) (x : A) :
  In x l ->
  (forall w1, exists e w2, f x w1 = (Err e, w2)) ->
  forall w, exists e w', io_map f l w = (Err e, w').
Proof.
  intros Hin Hx. induction l as [|y l IH]; [contradiction|]. intros w.
  cbn [io_map]. unfold io_bind at 1.
  destruct (f y w) as [[b|e] w1] eqn:E; [|eauto].
  destruct Hin as [->|Hin].
  - destruct (Hx w) as (e & w2 & K). congruence.
  - unfold io_bind. destruct (IH Hin w1) as (e & w2 & ->). eauto.
Qed.

Lemma flat_map_singleton (A B : Type) (g : A -> B) (l : list A) :
  flat_map (fun x => [g x]) l = map g l.
Proof. induction l as [|x l IH]; [reflexivity | cbn; rewrite IH; reflexivity]. Qed.

Lemma in_enumerate (A : Type) (l : list A) (x : nat * A) (d : A) :
  In x (enumerate l) -> exists i, i < length l /\ x = (i, nth i l d).
Proof.
  intros H. destruct (In_nth _ _ (0, d) H) as (i & Hi & E).
  rewrite length_enumerate in Hi. exists i. split; [exact Hi|].
  rewrite nth_enumerate in E by exact Hi. symmetry. exact E.
Qed.

Lemma map_fst_enumerate (A B : Type) (F : nat -> B) (l : list A) :
  map (fun x => F (fst x)) (enumerate l) = map F (seq 0 (length l)).
Proof.
  unfold enumerate. generalize 0 as a.
  induction l as [|x l IH]; intros a; [reflexivity|].
  cbn [length seq combine map fst]. f_equal. apply IH.
Qed.

End Loops.

(** *** A run of [process_text] *)

Section ProcessProperties.

Variable env : Env.

(** One round of the second loop, run. *)
Lemma compose_round_run (out : str) (itp : nat * (str * str)) (w : World)
      (y : str) (w' : World) :
  (story_with_image <- add_text_to_image env (snd (snd itp)) (fst (snd itp))
                         (page_file (fst itp)) ;;
   shutil_move env story_with_image (path_join out (page_file (fst itp))) ;;
   ret (path_join out (page_file (fst itp))))%io w = (Ok y, w') ->
  trace w' = rev (page_events env out itp) ++ trace w
  /\ y = path_join out (page_file (fst itp)).
Proof.
  unfold io_bind. rewrite add_text_to_image_run.
  destruct (image_open_outcome env (snd (snd itp))); [discriminate|].
  destruct (draw_outcome env (snd (snd itp)) (wrapped_caption env (fst (snd itp))));
    [discriminate|].
  destruct (image_save_outcome env (page_file (fst itp))); [discriminate|].
  rewrite shutil_move_run.
  destruct (move_outcome env (page_file (fst itp)) (path_join out (page_file (fst itp))));
    [discriminate|].
  unfold ret. intros H. injection H as <- <-. split; reflexivity.
Qed.

Lemma plan_title (lim : Limits) (other : value -> str) (text title : str)
      (combined prompts : list str) :
  storybook_plan lim other text = Ok (title, combined, prompts) ->
  exists title_raw, title = replace_special_chars title_raw.
Proof.
  unfold storybook_plan. intros H.
  destruct (story_elements lim text) as [[[[title_raw story] moral] image_prompts]|e];
    [|discriminate].
  cbn [bind] in H.
  destruct (as_pattern_target title_raw) as [target|e]; [|discriminate].
  cbn [bind] in H.
  destruct (split_method story (lit ". ")) as [sentences|e]; [|discriminate].
  cbn [bind] in H.
  destruct (combine_sentences other sentences image_prompts) as [[c p]|e];
    [|discriminate].
  cbn [bind] in H. injection H as <- _ _. eauto.
Qed.

(** A successful run: its plan, its pages and its trace. *)
Lemma process_text_success (text : str) (w w' : World)
      (pages : list str) (out title : str) :
  process_text env text w = (Ok (pages, out, title), w') ->
  exists combined prompts,
    storybook_plan (limits env) (str_other env) text = Ok (title, combined, prompts)
    /\ length prompts = length combined
    /\ out = output_dir_of env title
    /\ pages = map (fun i => path_join out (page_file i)) (seq 0 (length combined))
    /\ trace w' = rev (success_events env title combined prompts) ++ trace w.
Proof.
  intros H.
  destruct (storybook_plan (limits env) (str_other env) text) as [[[t c] p]|e] eqn:Hplan.
  2:{ pose proof (process_text_unplanned env text w Hplan) as F.
      rewrite H in F. discriminate. }
  rewrite (process_text_planned env text w Hplan) in H.
  apply logging_errors_ok in H.
  assert (Hlen : length p = length c) by (eapply plan_lengths; exact Hplan).
  apply io_bind_ok in H. destruct H as (u & w1 & Hmk & H).
  apply io_bind_ok in H. destruct H as (gen & w2 & Hgen & H).
  apply io_bind_ok in H. destruct H as (res & w3 & Hres & H).
  unfold ret in H. injection H as <- <- <- <-.
  rewrite os_makedirs_run in Hmk.
  destruct (makedirs_outcome env (output_dir_of env t)); [discriminate|].
  injection Hmk as _ <-.
  unfold generate_images in Hgen.
  apply (@io_map_trace _ _ _ (fun ip => [generation_event t ip])
           (generated_path env t)) in Hgen.
  2:{ intros x wa y wb K. rewrite generate_image_run in K.
      unfold generated_path, generation_event.
      destruct (generate_image_outcome env (nth 0 IMAGE_MODELS []) (snd x) [] t (fst x));
        [|discriminate].
      injection K as <- <-. split; reflexivity. }
  destruct Hgen as [Tgen ->].
  unfold compose_pages in Hres.
  apply (@io_map_trace _ _ _ (page_events env (output_dir_of env t))
           (fun itp => path_join (output_dir_of env t) (page_file (fst itp)))) in Hres.
  2:{ intros x wa y wb K. apply compose_round_run. exact K. }
  destruct Hres as [Tres ->].
  exists c, p. split; [reflexivity|]. split; [exact Hlen|]. split; [reflexivity|].
  split.
  - rewrite (map_fst_enumerate
               (fun i => path_join (output_dir_of env t) (page_file i))).
    rewrite length_combine.
    unfold generated_paths. rewrite length_map, length_enumerate.
    unfold str in *. rewrite Hlen, Nat.min_id. reflexivity.
  - rewrite Tres, Tgen. unfold success_events. cbn [trace rev].
    rewrite flat_map_singleton, rev_app_distr, <- !app_assoc. reflexivity.
Qed.

End ProcessProperties.

Section ProcessTheorems.

(** X5: when the planning part of [process_text] fails (the text does not
    decode, a field is missing or of the wrong type, the prompts run out),
    the call fails with that error and has touched nothing: no directory, no
    file, no call of a collaborator; it has only logged the error: once,
    and once more before that if the error came from the extraction and is
    one that [extract_story_elements] catches. *)
Theorem X5_failed_plan_touches_nothing :
  forall (env : Env) (text : str) (w : World) (e : exn),
    storybook_plan (limits env) (str_other env) text = Err e ->
    process_text env text w
    = (Err e,
       mkWorld (dirs w) (files w)
         (Logged InProcess e
          :: match story_elements (limits env) text with
             | Err e' => if extract_catches e' then [Logged InExtract e'] else []
             | Ok _ => []
             end ++ trace w)).
Proof.
  intros env text w e H.
  unfold process_text, logging_errors, io_bind. rewrite extract_run.
  unfold storybook_plan in H.
  destruct (story_elements (limits env) text)
    as [[[[title_raw story] moral] image_prompts]|e0];
    cbn [bind] in H.
  - unfold lift.
    destruct (as_pattern_target title_raw) as [target|e1]; cbn [bind] in H;
      [|injection H as ->; reflexivity].
    destruct (split_method story (lit ". ")) as [sentences|e1]; cbn [bind] in H;
      [|injection H as ->; reflexivity].
    destruct (combine_sentences (str_other env) sentences image_prompts)
      as [[c p]|e1]; cbn [bind] in H; [discriminate|].
    injection H as ->. reflexivity.
  - injection H as ->. destruct (extract_catches e); reflexivity.
Qed.

Lemma X5_failed_plan_touches_nothing_witness :
  process_text sample_env
    (lit "{" ++ member (lit "title") (quoted (lit "T")) ++ lit "}") empty_world
  = (Err (KeyError (lit "story")),
     mkWorld [] []
       [Logged InProcess (KeyError (lit "story"));
        Logged InExtract (KeyError (lit "story"))]).
Proof.
  rewrite (@X5_failed_plan_touches_nothing sample_env
             (lit "{" ++ member (lit "title") (quoted (lit "T")) ++ lit "}")
             empty_world (KeyError (lit "story"))).
  - reflexivity.
  - vm_compute. reflexivity.
Defined.

Lemma first_round_fails (other : value -> str) (sentences : list str)
      (image_prompts : value) (e : exn) :
  1 <= length sentences ->
  combine_round other sentences image_prompts 0 = Err e ->
  combine_sentences other sentences image_prompts = Err e.
Proof.
  intros Hs H. unfold combine_sentences. rewrite range_by_three.
  pose proof (pages_ceiling (length sentences)) as Hc.
  destruct ((length sentences + 2) / 3) as [|n]; [lia|].
  cbn [seq map map_result]. change (0 * 3) with 0. rewrite H. reflexivity.
Qed.

(** X6: a payload whose fields have the wrong JSON type fails before
    anything is made: a title that is not a string gives [TypeError]; with a
    string title, a story that is not a string gives [AttributeError]; with
    both strings, prompts that are a number, a boolean or null give
    [TypeError], prompts that are an object give [KeyError] for the index 0
    (for -1 when the object is empty), and an empty string of prompts gives
    [IndexError]. *)
Theorem X6_ill_typed_fields_fail :
  forall (lim : Limits) (other : value -> str) (text : str)
         (title_raw story moral image_prompts : value),
    story_elements lim text = Ok (title_raw, story, moral, image_prompts) ->
    ((forall s, title_raw <> JString s) ->
     storybook_plan lim other text = Err TypeError)
    /\ (forall t, title_raw = JString t ->
                  (forall s, story <> JString s) ->
                  storybook_plan lim other text = Err AttributeError)
    /\ (forall t s, title_raw = JString t -> story = JString s ->
          (is_scalar image_prompts = true ->
           storybook_plan lim other text = Err TypeError)
          /\ (forall pairs, image_prompts = JObject pairs ->
                storybook_plan lim other text
                = Err (KeyErrorInt (if 0 <? dict_len pairs then 0 else -1)))
          /\ (image_prompts = JString [] ->
                storybook_plan lim other text = Err IndexError)).
Proof.
  intros lim other text title_raw story moral image_prompts H.
  unfold storybook_plan. rewrite H. cbn [bind]. split; [|split].
  - intros Ht. destruct title_raw; try reflexivity. exfalso. eapply Ht. reflexivity.
  - intros t -> Hs. cbn [as_pattern_target bind].
    destruct story; try reflexivity. exfalso. eapply Hs. reflexivity.
  - intros t s -> ->. cbn [as_pattern_target split_method bind].
    pose proof (split_nonempty s (lit ". ")) as Hn.
    split; [|split].
    + intros Hk.
      rewrite (@first_round_fails other (split s (lit ". ")) image_prompts
                 TypeError Hn); [reflexivity|].
      destruct image_prompts; try discriminate Hk; reflexivity.
    + intros pairs ->.
      rewrite (@first_round_fails other (split s (lit ". ")) (JObject pairs)
                 (KeyErrorInt (if 0 <? dict_len pairs then 0 else -1)) Hn);
        [reflexivity|].
      unfold combine_round. cbn [py_len bind]. change (0 / 3) with 0.
      destruct (0 <? dict_len pairs); reflexivity.
    + intros ->.
      rewrite (@first_round_fails other (split s (lit ". ")) (JString [])
                 IndexError Hn); reflexivity.
Qed.

Lemma X6_ill_typed_fields_fail_witness :
  storybook_plan sample_limits (fun _ => lit "?")
    (lit "{" ++ member (lit "title") (lit "1") ++ lit ","
     ++ member (lit "story") (lit "2") ++ lit ","
     ++ member (lit "moral") (lit "3") ++ lit ","
     ++ member (lit "imagePrompts") (lit "4") ++ lit "}")
  = Err TypeError.
Proof.
  apply (proj1 (@X6_ill_typed_fields_fail sample_limits (fun _ => lit "?")
                  (lit "{" ++ member (lit "title") (lit "1") ++ lit ","
                   ++ member (lit "story") (lit "2") ++ lit ","
                   ++ member (lit "moral") (lit "3") ++ lit ","
                   ++ member (lit "imagePrompts") (lit "4") ++ lit "}")
                  (JInt 1) (JInt 2) (JInt 3) (JInt 4)
                  ltac:(vm_compute; reflexivity))).
  intros s. discriminate.
Defined.

(** X7: the trace of a successful run is exactly this: the output directory
    is made, then one image is generated for every page in page order, and
    only then is each page, in page order, opened, drawn on, saved and
    moved; nothing is logged. *)
Theorem X7_trace_of_a_successful_run :
  forall (env : Env) (text : str) (w w' : World)
         (pages : list str) (out title : str),
    process_text env text w = (Ok (pages, out, title), w') ->
    exists combined prompts,
      storybook_plan (limits env) (str_other env) text = Ok (title, combined, prompts)
      /\ trace w' = rev (success_events env title combined prompts) ++ trace w.
Proof.
  intros env text w w' pages out title H.
  destruct (process_text_success _ _ _ H) as (c & p & P & _ & _ & _ & T).
  exists c, p. split; assumption.
Qed.

Lemma X7_trace_of_a_successful_run_witness :
  trace (snd (process_text sample_env sample_text empty_world))
  = rev (success_events sample_env sample_title sample_pages sample_prompts).
Proof.
  pose proof (surjective_pairing (process_text sample_env sample_text empty_world)) as E.
  assert (F : fst (process_text sample_env sample_text empty_world)
              = Ok (map (fun i => path_join sample_output_dir (page_file i)) [0; 1],
                    sample_output_dir, sample_title))
    by (vm_compute; reflexivity).
  rewrite F in E.
  destruct (X7_trace_of_a_successful_run _ _ _ E) as (c & p & P & T).
  assert (Q : storybook_plan (limits sample_env) (str_other sample_env) sample_text
              = Ok (sample_title, sample_pages, sample_prompts))
    by (vm_compute; reflexivity).
  rewrite Q in P. injection P as <- <-.
  rewrite T. apply app_nil_r.
Defined.

(** X8: when the provider fails on the image of any page, [process_text]
    fails and no page has been opened, drawn on, saved or moved: all the
    images are generated before the first one is composited. *)
Theorem X8_provider_failure_precedes_compositing :
  forall (env : Env) (text : str) (w : World)
         (title : str) (combined prompts : list str) (i : nat) (e : exn),
    storybook_plan (limits env) (str_other env) text = Ok (title, combined, prompts) ->
    i < length prompts ->
    generate_image_outcome env (nth 0 IMAGE_MODELS []) (nth i prompts []) []
      title i = Err e ->
    exists e' w',
      process_text env text w = (Err e', w')
      /\ forall ev, In ev (trace w') -> is_compositing ev -> In ev (trace w).
Proof.
  intros env text w title combined prompts i e Hplan Hi He.
  rewrite (process_text_planned env text w Hplan).
  unfold logging_errors. unfold io_bind at 1. rewrite os_makedirs_run.
  destruct (makedirs_outcome env (output_dir_of env title)) as [e0|].
  - eexists _, _. split; [reflexivity|]. cbn [trace].
    intros ev [<-|[<-|H]] C; try contradiction. exact H.
  - set (w1 := mkWorld _ _ _). unfold io_bind at 1.
    destruct (@io_map_fails _ _
                (fun ip => generate_image env (nth 0 IMAGE_MODELS []) (snd ip) []
                             title (fst ip))
                (enumerate prompts) (i, nth i prompts [])) with (w := w1)
      as (e' & w2 & G).
    + rewrite <- (nth_enumerate prompts [] Hi). apply nth_In.
      rewrite length_enumerate. exact Hi.
    + intros wa. rewrite generate_image_run. cbn [fst snd]. rewrite He. eauto.
    + destruct (@io_map_frame _ _
                  (fun ip => generate_image env (nth 0 IMAGE_MODELS []) (snd ip) []
                               title (fst ip))
                  is_generation (enumerate prompts)) with (w := w1)
        as (added & T & P).
      { intros x wa. rewrite generate_image_run.
        destruct (generate_image_outcome env (nth 0 IMAGE_MODELS []) (snd x) []
                    title (fst x));
          (eexists [_]; split; [reflexivity | repeat constructor]). }
      unfold generate_images. unfold generate_images in T.
      rewrite G in T |- *. cbn [fst snd trace] in *.
      eexists _, _. split; [reflexivity|]. cbn [trace].
      intros ev [<-|H] C; [contradiction|].
      rewrite T in H. apply in_app_or in H. destruct H as [H|H].
      * rewrite Forall_forall in P. specialize (P _ H).
        destruct ev; contradiction.
      * subst w1. cbn [trace] in H. destruct H as [<-|H]; [contradiction | exact H].
Qed.

Lemma X8_provider_failure_precedes_compositing_witness :
  exists e' w',
    process_text (failing_env 1) sample_text empty_world = (Err e', w')
    /\ forall ev, In ev (trace w') -> is_compositing ev -> In ev [].
Proof.
  apply (@X8_provider_failure_precedes_compositing (failing_env 1)
           sample_text empty_world sample_title sample_pages sample_prompts
           1 (External 1)).
  - vm_compute. reflexivity.
  - vm_compute. lia.
  - vm_compute. reflexivity.
Defined.

Lemma page_outcome_none (env : Env) (title out : str) (i : nat)
      (text prompt : str) :
  page_outcome env title out i text prompt = None ->
  exists path,
    generate_image_outcome env (nth 0 IMAGE_MODELS []) prompt [] title i = Ok path
    /\ image_open_outcome env path = None
    /\ draw_outcome env path (wrapped_caption env text) = None
    /\ image_save_outcome env (page_file i) = None
    /\ move_outcome env (page_file i) (path_join out (page_file i)) = None.
Proof.
  unfold page_outcome, wrapped_caption.
  destruct (fill_forty (alnum_hi env) (decimal_hi env) text) as (wrapped & ->).
  destruct (generate_image_outcome env (nth 0 IMAGE_MODELS []) prompt [] title i)
    as [path|e]; [|discriminate].
  cbn [first_error fold_right].
  destruct (image_open_outcome env path) eqn:Ho; [discriminate|].
  destruct (draw_outcome env path wrapped) eqn:Hd; [discriminate|].
  destruct (image_save_outcome env (page_file i)) eqn:Hs; [discriminate|].
  destruct (move_outcome env (page_file i) (path_join out (page_file i))) eqn:Hm;
    [discriminate|].
  intros _. exists path. repeat split; assumption || reflexivity.
Qed.

(** X9: the converse of the failure cases.  When the text is planned, the
    output directory can be made and every step of every page succeeds, then
    [process_text] succeeds, and it returns the files of all the pages in
    the output directory, that directory, and the sanitized title. *)
Theorem X9_all_steps_succeed_gives_storybook :
  forall (env : Env) (text : str) (w : World)
         (title : str) (combined prompts : list str),
    storybook_plan (limits env) (str_other env) text = Ok (title, combined, prompts) ->
    makedirs_outcome env (output_dir_of env title) = None ->
    (forall i, i < length combined ->
               page_outcome env title (output_dir_of env title) i
                 (nth i combined []) (nth i prompts []) = None) ->
    exists w',
      process_text env text w
      = (Ok (map (fun i => path_join (output_dir_of env title) (page_file i))
               (seq 0 (length combined)),
             output_dir_of env title, title), w').
Proof.
  intros env text w title combined prompts Hplan Hmk Hall.
  assert (Hlen : length prompts = length combined)
    by (eapply plan_lengths; exact Hplan).
  rewrite (process_text_planned env text w Hplan).
  unfold logging_errors. unfold io_bind at 1. rewrite os_makedirs_run, Hmk.
  set (w1 := mkWorld _ _ _). unfold io_bind at 1. unfold generate_images.
  destruct (@io_map_complete _ _
              (fun ip => generate_image env (nth 0 IMAGE_MODELS []) (snd ip) []
                           title (fst ip))
              (generated_path env title) (enumerate prompts)) with (w := w1)
    as (w2 & ->).
  { intros x Hx wa. destruct (in_enumerate _ _ [] Hx) as (i & Hi & ->).
    cbn [fst snd]. rewrite generate_image_run. unfold generated_path. cbn [fst snd].
    destruct (@page_outcome_none env title (output_dir_of env title) i
                (nth i combined []) (nth i prompts [])) as (path & G & _).
    { apply Hall. unfold str in *. lia. }
    unfold str, char in *. rewrite G. eauto. }
  unfold io_bind at 1. unfold compose_pages.
  destruct (@io_map_complete _ _
              (fun itp =>
                 (story_with_image <- add_text_to_image env (snd (snd itp))
                                        (fst (snd itp)) (page_file (fst itp)) ;;
                  shutil_move env story_with_image
                    (path_join (output_dir_of env title) (page_file (fst itp))) ;;
                  ret (path_join (output_dir_of env title) (page_file (fst itp))))%io)
              (fun itp => path_join (output_dir_of env title) (page_file (fst itp)))
              (enumerate (combine combined
                            (map (generated_path env title) (enumerate prompts)))))
    with (w := w2) as (w3 & ->).
  { intros x Hx wa. destruct (in_enumerate _ _ ([], []) Hx) as (i & Hi & ->).
    rewrite length_combine, length_map, length_enumerate in Hi.
    assert (Hc : i < length combined) by (unfold str in *; lia).
    assert (Hp : i < length prompts) by (unfold str in *; lia).
    rewrite combine_nth by (rewrite length_map, length_enumerate; symmetry; exact Hlen).
    rewrite (nth_indep (map (generated_path env title) (enumerate prompts)) []
               (generated_path env title (0, [])))
      by (rewrite length_map, length_enumerate; exact Hp).
    rewrite map_nth. pose proof (nth_enumerate prompts [] Hp) as Ne.
    unfold str, char in *. rewrite Ne.
    cbn [fst snd]. unfold generated_path. cbn [fst snd].
    destruct (@page_outcome_none env title (output_dir_of env title) i
                (nth i combined []) (nth i prompts []) (Hall i Hc))
      as (path & G & Ho & Hd & Hs & Hm).
    unfold str, char in *. rewrite G.
    unfold io_bind. rewrite add_text_to_image_run, Ho, Hd, Hs.
    rewrite shutil_move_run, Hm. unfold ret. eauto. }
  unfold ret. exists w3.
  rewrite (map_fst_enumerate
             (fun i => path_join (output_dir_of env title) (page_file i))).
  rewrite length_combine, length_map, length_enumerate.
  unfold str in *. rewrite Hlen, Nat.min_id. reflexivity.
Qed.

Lemma X9_all_steps_succeed_gives_storybook_witness :
  exists w',
    process_text sample_env sample_text empty_world
    = (Ok (map (fun i => path_join (output_dir_of sample_env sample_title)
                           (page_file i))
             (seq 0 (length sample_pages)),
           output_dir_of sample_env sample_title, sample_title), w').
Proof.
  apply (@X9_all_steps_succeed_gives_storybook sample_env sample_text
           empty_world sample_title sample_pages sample_prompts).
  - vm_compute. reflexivity.
  - vm_compute. reflexivity.
  - intros i Hi. change (length sample_pages) with 2 in Hi.
    destruct i as [|[|i]]; [vm_compute; reflexivity .. | lia].
Defined.

(** X10: on success the output directory is [static/storybooks/] followed
    by one folder name, made of the returned title with its blanks turned
    into underscores, an underscore and the time in seconds; the folder name
    holds no slash and no blank, and the returned title holds none of the
    special characters. *)
Theorem X10_output_directory_of_a_success :
  forall (env : Env) (text : str) (w w' : World)
         (pages : list str) (out title : str),
    process_text env text w = (Ok (pages, out, title), w') ->
    exists folder,
      folder = replace title (lit " ") (lit "_") ++ lit "_"
               ++ str_of_int (time_time env)
      /\ out = lit "static/storybooks/" ++ folder
      /\ ~ In (chr "/") folder
      /\ ~ In (chr " ") folder
      /\ Forall (fun c => is_special c = false) title.
Proof.
  intros env text w w' pages out title H.
  destruct (process_text_success _ _ _ H) as (c & p & P & _ & -> & _).
  destruct (plan_title _ _ _ P) as (title_raw & ->).
  destruct (output_dir_shape env title_raw) as (folder & F & O & S & B).
  exists folder. repeat split; try assumption.
  apply sub_clean. repeat constructor.
Qed.

Lemma X10_output_directory_of_a_success_witness :
  exists folder,
    folder = replace sample_title (lit " ") (lit "_") ++ lit "_"
             ++ str_of_int (time_time sample_env)
    /\ sample_output_dir = lit "static/storybooks/" ++ folder
    /\ ~ In (chr "/") folder
    /\ ~ In (chr " ") folder
    /\ Forall (fun c => is_special c = false) sample_title.
Proof.
  apply (@X10_output_directory_of_a_success sample_env sample_text empty_world
           (snd (process_text sample_env sample_text empty_world))
           (map (fun i => path_join sample_output_dir (page_file i)) [0; 1])).
  vm_compute. reflexivity.
Defined.

(** X11: the page files that a successful call returns are pairwise
    distinct, so no page overwrites another in the output directory. *)
Theorem X11_returned_pages_are_distinct :
  forall (env : Env) (text : str) (w w' : World)
         (pages : list str) (out title : str),
    process_text env text w = (Ok (pages, out, title), w') ->
    NoDup pages.
Proof.
  intros env text w w' pages out title H.
  destruct (process_text_success _ _ _ H) as (c & p & _ & _ & _ & -> & _).
  apply Injective_map_NoDup; [|apply seq_NoDup].
  intros i j E. eapply path_join_page_injective. exact E.
Qed.

Lemma X11_returned_pages_are_distinct_witness :
  NoDup (map (fun i => path_join sample_output_dir (page_file i)) [0; 1]).
Proof.
  apply (@X11_returned_pages_are_distinct sample_env sample_text empty_world
           (snd (process_text sample_env sample_text empty_world))
           (map (fun i => path_join sample_output_dir (page_file i)) [0; 1])
           sample_output_dir sample_title).
  vm_compute. reflexivity.
Defined.

End ProcessTheorems.

(** *** Splitting and joining *)

Section Rejoining.

Lemma startswith_prefix (p s : str) :
  startswith p s = true <-> exists rest, s = p ++ rest.
Proof.
  revert s. induction p as [|a p IH]; intros s.
  - split; [intros _; exists s; reflexivity | reflexivity].
  - destruct s as [|b s]; cbn [startswith].
    + split; [discriminate | intros [rest H]; discriminate].
    + rewrite andb_true_iff, eqc_true, IH. split.
      * intros [-> [rest ->]]. exists rest. reflexivity.
      * intros [rest H]. injection H as -> ->. split; [reflexivity | eauto].
Qed.

(** The characters of a matched separator are passed over. *)
Lemma split_go_skip (sep pre rest cur : str) :
  split_go sep (pre ++ rest) (length pre) cur = split_go sep rest 0 cur.
Proof.
  induction pre as [|c pre IH]; [reflexivity|]. exact IH.
Qed.

Lemma join_cons (sep p : str) (parts : list str) :
  1 <= length parts -> join sep (p :: parts) = p ++ sep ++ join sep parts.
Proof. destruct parts; [simpl; lia | reflexivity]. Qed.

Lemma join_split_go (sep : str) (n : nat) :
  1 <= length sep ->
  forall s cur, length s <= n ->
                join sep (split_go sep s 0 cur) = rev cur ++ s.
Proof.
  intros Hsep. induction n as [|n IH]; intros s cur Hn.
  - destruct s; [|simpl in Hn; lia]. cbn. symmetry. apply app_nil_r.
  - destruct s as [|c s]; [cbn; symmetry; apply app_nil_r|].
    cbn [split_go].
    destruct (startswith sep (c :: s)) eqn:E.
    + apply startswith_prefix in E. destruct E as [rest E].
      destruct sep as [|a sep]; [simpl in Hsep; lia|].
      injection E as -> ->.
      cbn [length]. rewrite Nat.sub_succ, Nat.sub_0_r, split_go_skip.
      rewrite join_cons by apply split_go_nonempty.
      rewrite IH by (cbn [length] in Hn; rewrite length_app in Hn; lia).
      reflexivity.
    + rewrite IH by (cbn [length] in Hn; lia).
      cbn [rev]. rewrite <- app_assoc. reflexivity.
Qed.

(** [sep.join(s.split(sep))] is [s]. *)
Lemma join_split (s sep : str) :
  1 <= length sep -> join sep (split s sep) = s.
Proof.
  intros H. unfold split. rewrite (@join_split_go sep (length s) H s [] (le_n _)).
  reflexivity.
Qed.

Lemma join_app (sep : str) (l1 l2 : list str) :
  1 <= length l1 -> 1 <= length l2 ->
  join sep (l1 ++ l2) = join sep l1 ++ sep ++ join sep l2.
Proof.
  intros H1 H2. induction l1 as [|p l1 IH]; [simpl in H1; lia|].
  destruct l1 as [|q l1].
  - cbn [app]. apply join_cons. exact H2.
  - change ((p :: q :: l1) ++ l2) with (p :: ((q :: l1) ++ l2)).
    rewrite join_cons by (rewrite length_app; simpl; lia).
    rewrite IH by (simpl; lia).
    rewrite (@join_cons sep p (q :: l1)) by (simpl; lia).
    rewrite <- !app_assoc. reflexivity.
Qed.

(** Joining the joined groups is joining all the pieces. *)
Lemma join_concat (sep : str) (groups : list (list str)) :
  Forall (fun g => 1 <= length g) groups ->
  join sep (map (join sep) groups) = join sep (concat groups).
Proof.
  induction 1 as [|g groups Hg Hall IH]; [reflexivity|].
  destruct groups as [|g' groups].
  - cbn. symmetry. rewrite app_nil_r. reflexivity.
  - cbn [map] in *. rewrite join_cons by (simpl; lia). rewrite IH.
    change (concat (g :: g' :: groups)) with (g ++ concat (g' :: groups)).
    rewrite join_app; [reflexivity | exact Hg |].
    inversion Hall as [|? ? Hg' _]. cbn [concat]. rewrite length_app. lia.
Qed.

(** The page texts of the first loop, whatever the prompts are. *)
Lemma combine_sentences_texts (other : value -> str) (sentences : list str)
      (image_prompts : value) (combined prompts : list str) :
  combine_sentences other sentences image_prompts = Ok (combined, prompts) ->
  combined
  = map (fun k => join (lit ". ") (firstn 3 (skipn (3 * k) sentences)))
        (seq 0 ((length sentences + 2) / 3)).
Proof.
  unfold combine_sentences. rewrite range_by_three. intros H.
  destruct (map_result _ _) as [pages|e] eqn:E; [|discriminate].
  cbn [bind] in H. injection H as <- _.
  revert pages E.
  assert (B : Forall (fun k => 3 * k < length sentences)
                (seq 0 ((length sentences + 2) / 3))).
  { apply Forall_forall. intros k Hk. apply in_seq in Hk.
    apply pages_bound. lia. }
  induction B as [|k l Hk _ IH]; intros pages E.
  - cbn in E. injection E as <-. reflexivity.
  - cbn [map map_result] in E.
    destruct (combine_round other sentences image_prompts (k * 3))
      as [[text prompt]|e] eqn:R; [|discriminate].
    cbn [bind] in E.
    destruct (map_result _ _) as [rest|e] eqn:E'; [|discriminate].
    cbn [bind] in E. injection E as <-.
    cbn [map fst]. f_equal; [|apply IH; reflexivity].
    unfold combine_round in R.
    destruct (py_len image_prompts); [|discriminate]. cbn [bind] in R.
    destruct (if k * 3 / 3 <? _ then _ else _); [|discriminate].
    cbn [bind] in R. injection R as <- _.
    rewrite slice_nat by lia.
    replace (k * 3 + 3 - k * 3) with 3 by lia.
    replace (k * 3) with (3 * k) by lia. reflexivity.
Qed.

End Rejoining.

(** X12: the pages keep the whole narrative: on a successful plan the title
    and the story of the payload are strings, the title returned is the
    sanitized title, and the page texts joined by a full stop and a blank
    give back the story, character for character. *)
Theorem X12_pages_rejoin_to_the_narrative :
  forall (lim : Limits) (other : value -> str) (text title : str) (combined prompts : list str),
    storybook_plan lim other text = Ok (title, combined, prompts) ->
    exists title_raw story moral image_prompts,
      story_elements lim text
      = Ok (JString title_raw, JString story, moral, image_prompts)
      /\ title = replace_special_chars title_raw
      /\ join (lit ". ") combined = story.
Proof.
  intros lim other text title combined prompts H. unfold storybook_plan in H.
  destruct (story_elements lim text) as [[[[title_raw story] moral] image_prompts]|e];
    [|discriminate].
  cbn [bind] in H.
  destruct title_raw as [| |t| | | |]; try discriminate. cbn [as_pattern_target bind] in H.
  destruct story as [| |s| | | |]; try discriminate. cbn [split_method bind] in H.
  destruct (combine_sentences other (split s (lit ". ")) image_prompts)
    as [[c p]|e] eqn:E; [|discriminate].
  cbn [bind fst snd] in H. injection H as <- <- <-.
  exists t, s, moral, image_prompts. split; [reflexivity|]. split; [reflexivity|].
  rewrite (combine_sentences_texts _ _ _ E).
  rewrite <- (map_map (fun k => firstn 3 (skipn (3 * k) (split s (lit ". "))))
                (join (lit ". "))).
  rewrite join_concat.
  - rewrite groups_concat by apply pages_ceiling.
    apply join_split. simpl. lia.
  - apply Forall_forall. intros g Hg. apply in_map_iff in Hg.
    destruct Hg as (k & <- & Hk). apply in_seq in Hk.
    pose proof (@pages_bound (length (split s (lit ". "))) k ltac:(lia)).
    rewrite length_firstn, length_skipn. lia.
Qed.

Lemma X12_pages_rejoin_to_the_narrative_witness :
  exists title_raw story moral image_prompts,
    story_elements sample_limits sample_text
    = Ok (JString title_raw, JString story, moral, image_prompts)
    /\ sample_title = replace_special_chars title_raw
    /\ join (lit ". ") sample_pages = story.
Proof.
  apply (@X12_pages_rejoin_to_the_narrative (limits sample_env)
           (str_other sample_env) sample_text
           sample_title sample_pages sample_prompts).
  vm_compute. reflexivity.
Defined.

(** *** Captions that fit on one line *)

Section ShortCaptions.

Import Textwrap.

Lemma take_fitting_all (width : nat) (chunks : list str) (n : nat) :
  n + total_len chunks <= width ->
  take_fitting width chunks n = (chunks, []).
Proof.
  revert n. induction chunks as [|c rest IH]; intros n H; [reflexivity|].
  unfold total_len in H. cbn [concat] in H. rewrite length_app in H.
  cbn [take_fitting].
  destruct (n + length c <=? width) eqn:E; [|apply Nat.leb_gt in E; lia].
  rewrite IH by (unfold total_len; lia). reflexivity.
Qed.

(** Chunks that fit on one line make one line, which loses at most an empty
    chunk at its end when the text does not end in white space. *)
Lemma wrap_line_all (width : nat) (chunks : list str) :
  total_len chunks <= width ->
  (forall before c, concat chunks = before ++ [c] -> isspace c = false) ->
  snd (wrap_line width false chunks) = []
  /\ concat (fst (wrap_line width false chunks)) = concat chunks.
Proof.
  intros Hfit Hend. unfold wrap_line.
  assert (E1 : match chunks with
               | c :: rest => if blank c && false then rest else chunks
               | [] => []
               end = chunks)
    by (destruct chunks; [reflexivity | rewrite andb_false_r; reflexivity]).
  rewrite E1, take_fitting_all by exact Hfit. cbn [fst snd].
  split; [reflexivity|].
  destruct (rev chunks) as [|last before] eqn:R; [|destruct (blank last) eqn:B].
  - apply (f_equal (@rev str)) in R. rewrite rev_involutive in R. subst. reflexivity.
  - apply (f_equal (@rev str)) in R. rewrite rev_involutive in R. subst chunks.
    cbn [rev] in *. rewrite concat_app in *. cbn [concat] in *.
    rewrite app_nil_r in *.
    destruct (rev last) as [|c l] eqn:L.
    + apply (f_equal (@rev char)) in L. rewrite rev_involutive in L. subst last.
      rewrite app_nil_r. reflexivity.
    + apply (f_equal (@rev char)) in L. rewrite rev_involutive in L. subst last.
      cbn [rev] in *. unfold blank in B. rewrite forallb_app in B.
      apply andb_true_iff in B. destruct B as [_ B]. cbn in B.
      rewrite (Hend (concat (rev before) ++ rev l) c) in B; [discriminate|].
      rewrite app_assoc. reflexivity.
  - reflexivity.
Qed.

Lemma wrap_chunks_one_line (w : nat) (chunks : list str) :
  total_len chunks <= S w ->
  (forall before c, concat chunks = before ++ [c] -> isspace c = false) ->
  join [10%N] (wrap_chunks_loop w chunks []) = concat chunks.
Proof.
  intros Hfit Hend. destruct chunks as [|c cs]; [reflexivity|].
  rewrite wrap_chunks_loop_equation_2.
  destruct (wrap_line_all (c :: cs) Hfit Hend) as [S C].
  cbn [started]. rewrite S, wrap_chunks_loop_equation_1, <- C.
  destruct (fst (wrap_line (Datatypes.S w) false (c :: cs))); reflexivity.
Qed.

End ShortCaptions.

(** X13: a caption of at most 40 characters whose only white space is the
    blank and which does not end in a space character is wrapped into
    itself: [textwrap.fill] gives it back unchanged, so [add_text_to_image]
    draws it as it is. *)
Theorem X13_short_caption_is_unchanged :
  forall (alnum_hi decimal_hi : char -> bool) (text : str),
    length text <= 40 ->
    only_blanks text = true ->
    ends_in_space text = false ->
    Textwrap.fill alnum_hi decimal_hi text 40 = Ok text.
Proof.
  intros a d text Hlen Hws Hend.
  assert (Hws' : forall c, In c text -> Textwrap.is_whitespace c = true -> c = 32%N).
  { intros c Hc Hw. unfold only_blanks in Hws. rewrite forallb_forall in Hws.
    specialize (Hws c Hc). rewrite Hw in Hws. apply N.eqb_eq. exact Hws. }
  assert (Hend' : forall before c, text = before ++ [c] -> Textwrap.isspace c = false).
  { intros before c E. unfold ends_in_space in Hend.
    rewrite E, rev_app_distr in Hend. exact Hend. }
  unfold Textwrap.fill, Textwrap.wrap. cbn [bind].
  pose proof (split_chunks_concat a d text) as C.
  rewrite (munge_plain _ Hws') in C.
  rewrite wrap_chunks_one_line.
  - rewrite C. reflexivity.
  - unfold Textwrap.total_len. rewrite C. exact Hlen.
  - rewrite C. exact Hend'.
Qed.

Lemma X13_short_caption_is_unchanged_witness :
  Textwrap.fill (fun _ => false) (fun _ => false)
    (lit "A well-fed cat  sat on the mat.") 40
  = Ok (lit "A well-fed cat  sat on the mat.").
Proof.
  apply X13_short_caption_is_unchanged.
  - vm_compute. lia.
  - vm_compute. reflexivity.
  - vm_compute. reflexivity.
Defined.

(** X14: [add_text_to_image] opens the image, draws the wrapped caption and
    saves, in this order, and stops at the first step that fails.  When all
    three succeed it returns [output_path] and that file is new; when one
    fails it fails with the error of the first failing step and writes no
    file.  It logs an error exactly when it fails, and that error; it never
    makes a directory. *)
Theorem X14_add_text_to_image_outcomes :
  forall (env : Env) (image_path text output_path : str) (w : World),
    let run := add_text_to_image env image_path text output_path w in
    let failure := first_error (compositing_steps env image_path text output_path) in
    fst run = match failure with
              | None => Ok output_path
              | Some e => Err e
              end
    /\ dirs (snd run) = dirs w
    /\ files (snd run) = match failure with
                         | None => output_path :: files w
                         | Some _ => files w
                         end
    /\ exists added,
         trace (snd run) = added ++ trace w
         /\ forall e, In (Logged InAddText e) added <-> failure = Some e.
Proof.
  intros env image_path text output_path w. cbv zeta.
  rewrite add_text_to_image_run. unfold compositing_steps.
  cbn [first_error fold_right].
  destruct (image_open_outcome env image_path) as [e0|];
    [|destruct (draw_outcome env image_path (wrapped_caption env text)) as [e0|];
      [|destruct (image_save_outcome env output_path) as [e0|]]];
    cbn [fst snd dirs files trace];
    (split; [reflexivity|]); (split; [reflexivity|]); (split; [reflexivity|]).
  - exists [Logged InAddText e0; OpenImage image_path].
    split; [reflexivity|]. intros e. split.
    + intros [H|[H|[]]]; [injection H as ->; reflexivity | discriminate].
    + intros H. injection H as ->. left. reflexivity.
  - exists [Logged InAddText e0; DrawText image_path (wrapped_caption env text);
            OpenImage image_path].
    split; [reflexivity|]. intros e. split.
    + intros [H|[H|[H|[]]]]; [injection H as ->; reflexivity | discriminate ..].
    + intros H. injection H as ->. left. reflexivity.
  - exists [Logged InAddText e0; SaveImage output_path;
            DrawText image_path (wrapped_caption env text); OpenImage image_path].
    split; [reflexivity|]. intros e. split.
    + intros [H|[H|[H|[H|[]]]]]; [injection H as ->; reflexivity | discriminate ..].
    + intros H. injection H as ->. left. reflexivity.
  - exists [SaveImage output_path;
            DrawText image_path (wrapped_caption env text); OpenImage image_path].
    split; [reflexivity|]. intros e. split.
    + intros [H|[H|[H|[]]]]; discriminate.
    + discriminate.
Qed.

Lemma combine_round_string (other : value -> str) (sentences : list str)
      (p : str) (k : nat) :
  p <> [] ->
  3 * k < length sentences ->
  combine_round other sentences (JString p) (k * 3)
  = Ok (join (lit ". ") (firstn 3 (skipn (3 * k) sentences)),
        new_prompt other (join (lit ". ") (firstn 3 (skipn (3 * k) sentences)))
                   (prompt_char p k)).
Proof.
  intros Hp Hk. unfold combine_round, prompt_char.
  rewrite slice_nat by lia.
  replace (k * 3 + 3 - k * 3) with 3 by lia.
  cbn [py_len bind getitem_int]. rewrite Nat.div_mul by lia.
  replace (k * 3) with (3 * k) by lia.
  destruct (k <? length p) eqn:E.
  - apply Nat.ltb_lt in E.
    pose proof (list_getitem_nat p 0%N E) as G.
    unfold str, char in *. rewrite G. reflexivity.
  - pose proof (list_getitem_last 0%N Hp) as G.
    unfold str, char in *. rewrite G. reflexivity.
Qed.

(** X15: when the payload gives its prompts as one string that is not
    empty, the plan succeeds and the string is read character by
    character: page [k] gets the single character [k] of the string as its
    prompt, and the last character once the string is used up. *)
Theorem X15_string_of_prompts_is_read_by_character :
  forall (lim : Limits) (other : value -> str) (text t s p : str) (moral : value),
    story_elements lim text = Ok (JString t, JString s, moral, JString p) ->
    p <> [] ->
    exists combined prompts,
      storybook_plan lim other text = Ok (replace_special_chars t, combined, prompts)
      /\ length prompts = length combined
      /\ forall k, k < length combined ->
           nth k prompts []
           = new_prompt other (nth k combined []) (prompt_char p k).
Proof.
  intros lim other text t s p moral H Hp.
  unfold storybook_plan. rewrite H.
  cbn [bind as_pattern_target split_method].
  unfold combine_sentences. rewrite range_by_three.
  set (sentences := split s (lit ". ")).
  rewrite (@map_result_ok _ _ _
             (fun i => (join (lit ". ") (firstn 3 (skipn (3 * (i / 3)) sentences)),
                        new_prompt other
                          (join (lit ". ") (firstn 3 (skipn (3 * (i / 3)) sentences)))
                          (prompt_char p (i / 3))))).
  - cbn [bind fst snd]. eexists. eexists. split; [reflexivity|].
    rewrite !length_map, !length_seq. split; [reflexivity|].
    intros k Hk. rewrite !map_map.
    rewrite !nth_map_seq by exact Hk. cbn [fst snd].
    rewrite Nat.div_mul by lia. reflexivity.
  - intros x Hx. apply in_map_iff in Hx. destruct Hx as (k & <- & Hk).
    apply in_seq in Hk. rewrite Nat.div_mul by lia.
    apply combine_round_string; [exact Hp|]. apply pages_bound. lia.
Qed.

Lemma X15_string_of_prompts_is_read_by_character_witness :
  exists combined prompts,
    storybook_plan sample_limits (fun _ => lit "?")
      (lit "{" ++ member (lit "title") (quoted (lit "T")) ++ lit ","
       ++ member (lit "story") (quoted (lit "One. Two. Three. Four")) ++ lit ","
       ++ member (lit "moral") (quoted (lit "M")) ++ lit ","
       ++ member (lit "imagePrompts") (quoted (lit "a")) ++ lit "}")
    = Ok (replace_special_chars (lit "T"), combined, prompts)
    /\ length prompts = length combined
    /\ forall k, k < length combined ->
         nth k prompts []
         = new_prompt (fun _ => lit "?") (nth k combined [])
             (prompt_char (lit "a") k).
Proof.
  apply (@X15_string_of_prompts_is_read_by_character sample_limits
           (fun _ => lit "?") _
           (lit "T") (lit "One. Two. Three. Four") (lit "a")
           (JString (lit "M"))).
  - vm_compute. reflexivity.
  - discriminate.
Defined.

(** *** The routes of the web application *)

Section Prompts.

Import Textwrap.

Lemma split_whitespace_started (s cur : str) :
  cur <> [] -> 1 <= length (split_whitespace_go s cur).
Proof.
  revert cur. induction s as [|c s IH]; intros cur H.
  - destruct cur; [contradiction | simpl; lia].
  - cbn [split_whitespace_go]. destruct (isspace c).
    + destruct cur; [contradiction | simpl; lia].
    + apply IH. discriminate.
Qed.

(** A word comes out exactly when some character is no white space. *)
Lemma split_whitespace_one (s : str) :
  1 <= length (split_whitespace_go s [])
  <-> exists a y d, s = a ++ y :: d /\ isspace y = false.
Proof.
  split.
  - induction s as [|c s IH]; [simpl; lia|].
    cbn [split_whitespace_go]. destruct (isspace c) eqn:E.
    + intros H. destruct (IH H) as (a & y & d & -> & Hy).
      exists (c :: a), y, d. split; [reflexivity | exact Hy].
    + intros _. exists [], c, s. split; [reflexivity | exact E].
  - intros (a & y & d & -> & Hy). induction a as [|h a IH].
    + cbn [app split_whitespace_go]. rewrite Hy.
      apply split_whitespace_started. discriminate.
    + cbn [app split_whitespace_go]. destruct (isspace h); [exact IH|].
      apply split_whitespace_started. discriminate.
Qed.

(** With a word begun, a second one comes out exactly when white space is
    followed by a character that is none. *)
Lemma split_whitespace_next (s cur : str) :
  cur <> [] ->
  2 <= length (split_whitespace_go s cur)
  <-> exists a sp c y d,
        s = a ++ sp :: c ++ y :: d /\ isspace sp = true /\ isspace y = false.
Proof.
  intros Hcur. split.
  - revert cur Hcur. induction s as [|h s IH]; intros cur Hcur.
    + destruct cur; [contradiction | simpl; lia].
    + cbn [split_whitespace_go]. destruct (isspace h) eqn:E.
      * destruct cur as [|x cur]; [contradiction|]. cbn [length]. intros H.
        destruct (proj1 (split_whitespace_one s) ltac:(lia)) as (a & y & d & -> & Hy).
        exists [], h, a, y, d. repeat split; assumption.
      * intros H. destruct (IH (h :: cur) ltac:(discriminate) H)
          as (a & sp & c & y & d & -> & Hs & Hy).
        exists (h :: a), sp, c, y, d. repeat split; assumption.
  - intros (a & sp & c & y & d & -> & Hs & Hy).
    revert cur Hcur. induction a as [|h a IH]; intros cur Hcur.
    + cbn [app split_whitespace_go]. rewrite Hs.
      destruct cur as [|x cur]; [contradiction|]. cbn [length].
      assert (1 <= length (split_whitespace_go (c ++ y :: d) []))
        by (apply split_whitespace_one; eauto).
      lia.
    + cbn [app split_whitespace_go]. destruct (isspace h).
      * destruct cur as [|x cur]; [contradiction|]. cbn [length].
        assert (1 <= length (split_whitespace_go (a ++ sp :: c ++ y :: d) [])).
        { apply split_whitespace_one. exists (a ++ sp :: c), y, d.
          split; [rewrite <- app_assoc; reflexivity | exact Hy]. }
        lia.
      * apply IH. discriminate.
Qed.

(** Two words come out exactly when two characters that are no white space
    have white space between them. *)
Lemma split_whitespace_two (s : str) :
  2 <= length (split_whitespace s)
  <-> exists a x b sp c y d,
        s = a ++ x :: b ++ sp :: c ++ y :: d
        /\ isspace x = false /\ isspace sp = true /\ isspace y = false.
Proof.
  unfold split_whitespace. split.
  - induction s as [|h s IH]; [simpl; lia|].
    cbn [split_whitespace_go]. destruct (isspace h) eqn:E.
    + intros H. destruct (IH H) as (a & x & b & sp & c & y & d & -> & Hx & Hs & Hy).
      exists (h :: a), x, b, sp, c, y, d. repeat split; assumption.
    + intros H.
      destruct (proj1 (@split_whitespace_next s [h] ltac:(discriminate)) H)
        as (b & sp & c & y & d & -> & Hs & Hy).
      exists [], h, b, sp, c, y, d. repeat split; assumption.
  - intros (a & x & b & sp & c & y & d & -> & Hx & Hs & Hy).
    induction a as [|h a IH].
    + cbn [app split_whitespace_go]. rewrite Hx.
      apply split_whitespace_next; [discriminate|].
      exists b, sp, c, y, d. repeat split; assumption.
    + cbn [app split_whitespace_go]. destruct (isspace h); [exact IH|].
      apply split_whitespace_next; [discriminate|].
      exists (a ++ x :: b), sp, c, y, d.
      split; [rewrite <- app_assoc; reflexivity|]. split; assumption.
Qed.

End Prompts.

(** X16: a posted prompt is handed to [generate_story] exactly when it
    holds two words, that is two characters that are no white space with
    white space between them; every other posted prompt, the empty one and
    those of one word or of white space only, is answered by the message
    [Please enter a story prompt.] and a redirect. *)
Theorem X16_index_wants_two_words :
  forall prompt : str,
    (index (lit "POST") prompt = GenerateStory prompt
     <-> exists a x b sp c y d,
           prompt = a ++ x :: b ++ sp :: c ++ y :: d
           /\ Textwrap.isspace x = false
           /\ Textwrap.isspace sp = true
           /\ Textwrap.isspace y = false)
    /\ (index (lit "POST") prompt = GenerateStory prompt
        \/ index (lit "POST") prompt
           = RejectPrompt (lit "Please enter a story prompt.") (lit "error")).
Proof.
  intros prompt. unfold index. change (eqs (lit "POST") (lit "POST")) with true.
  cbv iota. rewrite <- split_whitespace_two.
  destruct prompt as [|h prompt].
  - cbn. split; [split; [discriminate | lia] | right; reflexivity].
  - cbn [orb]. destruct (length (split_whitespace (h :: prompt)) <=? 1) eqn:E.
    + apply Nat.leb_le in E. split; [split; [discriminate | lia] | right; reflexivity].
    + apply Nat.leb_gt in E. split; [split; [lia | reflexivity] | left; reflexivity].
Qed.

Lemma X16_index_wants_two_words_witness :
  index (lit "POST") (lit "a cat") = GenerateStory (lit "a cat").
Proof.
  apply (proj2 (proj1 (X16_index_wants_two_words (lit "a cat")))).
  exists [], (chr "a"), [], (chr " "), [], (chr "c"), (lit "at").
  repeat split; reflexivity.
Defined.

Section Registry.

Lemma find_item_found (items : list value) (search_value : str)
      (found : value * value * value) :
  find_item items search_value = Ok (Some found) ->
  exists before pairs after,
    items = before ++ JObject pairs :: after
    /\ (forall b, In b before ->
          exists bp, b = JObject bp
                     /\ dict_get (lit "path") bp <> Some (JString search_value))
    /\ dict_get (lit "path") pairs = Some (JString search_value)
    /\ dict_get (lit "all_images") pairs = Some (fst (fst found))
    /\ dict_get (lit "title") pairs = Some (snd (fst found))
    /\ snd found = JString search_value.
Proof.
  induction items as [|item rest IH]; [discriminate|].
  cbn [find_item]. destruct item as [pairs| | | | | |]; try discriminate.
  cbn [get_method bind].
  destruct (equals_str _ search_value) eqn:E.
  - destruct (dict_get (lit "path") pairs) as [p|] eqn:P; [|discriminate].
    destruct p as [| |t| | | |]; try discriminate. cbn [equals_str] in E.
    apply eqs_true in E. subst t.
    unfold getitem_str. rewrite P.
    destruct (dict_get (lit "all_images") pairs) as [a|] eqn:A; [|discriminate].
    destruct (dict_get (lit "title") pairs) as [t|] eqn:T; [|discriminate].
    cbn [bind]. intros H. injection H as <-.
    exists [], pairs, rest. repeat split; try assumption; try reflexivity.
    intros b [].
  - intros H. destruct (IH H) as (before & ip & after & -> & Hb & Hrest).
    exists (JObject pairs :: before), ip, after. split; [reflexivity|].
    split; [|exact Hrest].
    intros b [<-|Hin]; [|apply Hb; exact Hin].
    exists pairs. split; [reflexivity|]. intros P. rewrite P in E.
    cbn [equals_str] in E.
    assert (T : eqs search_value search_value = true) by (apply eqs_true; reflexivity).
    rewrite T in E. discriminate.
Qed.

Lemma find_item_first (before after : list value) (pairs : list (str * value))
      (search_value : str) (all_images title : value) :
  (forall b, In b before ->
     exists bp, b = JObject bp
                /\ dict_get (lit "path") bp <> Some (JString search_value)) ->
  dict_get (lit "path") pairs = Some (JString search_value) ->
  dict_get (lit "all_images") pairs = Some all_images ->
  dict_get (lit "title") pairs = Some title ->
  find_item (before ++ JObject pairs :: after) search_value
  = Ok (Some (all_images, title, JString search_value)).
Proof.
  intros Hb P A T. induction before as [|b before IH].
  - cbn [app find_item get_method bind]. rewrite P. cbn [equals_str].
    assert (E : eqs search_value search_value = true) by (apply eqs_true; reflexivity).
    rewrite E. unfold getitem_str. rewrite A, T, P. reflexivity.
  - destruct (Hb b (or_introl eq_refl)) as (bp & -> & Hp).
    cbn [app find_item get_method bind].
    destruct (equals_str _ search_value) eqn:E.
    + exfalso. apply Hp.
      destruct (dict_get (lit "path") bp) as [p|]; [|discriminate].
      destruct p as [| |t| | | |]; try discriminate. cbn [equals_str] in E.
      apply eqs_true in E. subst t. reflexivity.
    + apply IH. intros b Hin. apply Hb. right. exact Hin.
Qed.

End Registry.

(** X17: [view_storybook] shows the first entry of the registry whose path
    is the requested one: when the file holds an object whose [storybooks]
    are a list in which an entry with this path, a title and images comes
    after entries that are objects with other paths, the story template is
    rendered with that entry's title and images. *)
Theorem X17_view_shows_the_first_match :
  forall (lim : Limits) (content relative_path : str) (pairs item : list (str * value))
         (before after : list value) (images title : value),
    loads lim content = Ok (JObject pairs) ->
    dict_get (lit "storybooks") pairs = Some (JArray (before ++ JObject item :: after)) ->
    (forall b, In b before ->
       exists bp, b = JObject bp
                  /\ dict_get (lit "path") bp <> Some (JString relative_path)) ->
    dict_get (lit "path") item = Some (JString relative_path) ->
    dict_get (lit "all_images") item = Some images ->
    dict_get (lit "title") item = Some title ->
    view_storybook lim (Ok content) relative_path
    = RenderStory (lit "story.html") title images.
Proof.
  intros lim content relative_path pairs item before after images title
         L S Hb P A T.
  unfold view_storybook, find_dict_by_path. cbn [bind]. rewrite L.
  cbn [bind get_method]. rewrite S. cbn [iterate bind].
  rewrite (@find_item_first before after item relative_path images title Hb P A T).
  reflexivity.
Qed.

Lemma X17_view_shows_the_first_match_witness :
  view_storybook sample_limits (Ok sample_registry) (lit "storybooks/Two_2")
  = RenderStory (lit "story.html") (JString (lit "Two"))
      (JArray [JString (lit "static/storybooks/Two_2/image_new_0.png")]).
Proof.
  apply (@X17_view_shows_the_first_match sample_limits sample_registry
           (lit "storybooks/Two_2")
           [(lit "storybooks",
             JArray [JObject [(lit "title", JString (lit "One"));
                              (lit "path", JString (lit "storybooks/One_1"));
                              (lit "all_images", JArray [])];
                     JObject [(lit "title", JString (lit "Two"));
                              (lit "path", JString (lit "storybooks/Two_2"));
                              (lit "all_images",
                               JArray [JString (lit "static/storybooks/Two_2/image_new_0.png")])]])]
           [(lit "title", JString (lit "Two"));
            (lit "path", JString (lit "storybooks/Two_2"));
            (lit "all_images",
             JArray [JString (lit "static/storybooks/Two_2/image_new_0.png")])]
           [JObject [(lit "title", JString (lit "One"));
                     (lit "path", JString (lit "storybooks/One_1"));
                     (lit "all_images", JArray [])]]
           []).
  - vm_compute. reflexivity.
  - vm_compute. reflexivity.
  - intros b [<-|[]]. eexists. split; [reflexivity|]. vm_compute. discriminate.
  - vm_compute. reflexivity.
  - vm_compute. reflexivity.
  - vm_compute. reflexivity.
Defined.

(** X18: [view_storybook] renders a story only for an entry that is in the
    registry: whenever it renders, the file was read and decoded to an
    object, and among the items of its [storybooks] there is an object with
    the requested path whose title and images are the ones rendered.  In
    every other case it answers with the redirect. *)
Theorem X18_view_renders_only_registered_storybooks :
  forall (lim : Limits) (file : result str) (relative_path template : str) (title images : value),
    view_storybook lim file relative_path = RenderStory template title images ->
    template = lit "story.html"
    /\ exists content pairs items item,
         file = Ok content
         /\ loads lim content = Ok (JObject pairs)
         /\ iterate match dict_get (lit "storybooks") pairs with
                    | Some books => books
                    | None => JArray []
                    end = Ok items
         /\ In (JObject item) items
         /\ dict_get (lit "path") item = Some (JString relative_path)
         /\ dict_get (lit "title") item = Some title
         /\ dict_get (lit "all_images") item = Some images.
Proof.
  intros lim file relative_path template title images.
  unfold view_storybook, find_dict_by_path.
  destruct file as [content|e]; [|discriminate]. cbn [bind].
  destruct (loads lim content) as [data|e] eqn:L; [|discriminate]. cbn [bind].
  destruct data as [pairs| | | | | |]; try discriminate. cbn [get_method bind].
  destruct (iterate _) as [items|e] eqn:I; [|discriminate]. cbn [bind].
  destruct (find_item items relative_path) as [[[[a t] p]|]|e] eqn:F;
    try discriminate.
  intros H. injection H as <- <- <-. split; [reflexivity|].
  destruct (find_item_found _ _ F) as (before & item & after & -> & _ & P & A & T & _).
  exists content, pairs, (before ++ JObject item :: after), item.
  repeat split; try assumption; try reflexivity.
  apply in_elt.
Qed.

Lemma X18_view_renders_only_registered_storybooks_witness :
  lit "story.html" = lit "story.html"
  /\ exists content pairs items item,
       Ok sample_registry = Ok content
       /\ loads sample_limits content = Ok (JObject pairs)
       /\ iterate match dict_get (lit "storybooks") pairs with
                  | Some books => books
                  | None => JArray []
                  end = Ok items
       /\ In (JObject item) items
       /\ dict_get (lit "path") item = Some (JString (lit "storybooks/One_1"))
       /\ dict_get (lit "title") item = Some (JString (lit "One"))
       /\ dict_get (lit "all_images") item = Some (JArray []).
Proof.
  apply (@X18_view_renders_only_registered_storybooks sample_limits
           (Ok sample_registry)
           (lit "storybooks/One_1")).
  vm_compute. reflexivity.
Defined.
